(** * The real-time session bridge of the dashboard front end

    A shallow embedding of the client side of the transports of the
    dashboard:

    - the chat stream: the store of [stores/chatStore.ts], the
      [useWebSocket] hook and the composer [InputArea];
    - the shell bridge: the component [ClaudeTerminal];
    - the command runner: the component [TerminalPanel];
    - the upload call [api.uploadFile] of [utils/api.ts], seen from its
      callers;
    - around them: the live view [MessageList], the key handling of
      [TerminalPanel], the preset bar [PresetBar] and the file browser
      [FileBrowser].

    The browser is an explicit state: a table of WebSocket objects, a
    table of timers, a clock in milliseconds, the stored token and the
    log of upload requests.  Each handler of the source is a function on
    that state, and the event loop is a step function over the events the
    browser, the server or the user can deliver. *)

From Stdlib Require Import NArith Ascii.
From stdpp Require Import base option list list_numbers strings gmap pretty.

(* ===================================================================== *)
(** ** JavaScript values used by the handlers *)
(* ===================================================================== *)

Module JS.

(** Truthiness of a string: only the empty string is falsy. *)
Definition truthy (s : string) : bool := negb (String.eqb s "").

(** Truthiness of [string | null | undefined]. *)
Definition truthy_opt (o : option string) : bool :=
  match o with
  | Some s => truthy s
  | None => false
  end.

(** [a || d] for an optional string [a]. *)
Definition or_else (o : option string) (d : string) : string :=
  match o with
  | Some s => if truthy s then s else d
  | None => d
  end.

(** [Array.prototype.join]. *)
Definition join (sep : string) (l : list string) : string :=
  String.concat sep l.

(** A string of the program is held in UTF-8, as the string literals of
    this file are read: a character below U+0080 is one byte, any other
    character two to four bytes.  [utf8 c] is the encoding of the
    character with code point [c]. *)
Definition utf8 (c : N) : string :=
  let byte n := ascii_of_N n in
  if (c <? 0x80)%N then String (byte c) EmptyString
  else if (c <? 0x800)%N then
    String (byte (0xC0 + c / 64)%N) (String (byte (0x80 + c mod 64)%N) EmptyString)
  else if (c <? 0x10000)%N then
    String (byte (0xE0 + c / 4096)%N)
      (String (byte (0x80 + (c / 64) mod 64)%N)
         (String (byte (0x80 + c mod 64)%N) EmptyString))
  else
    String (byte (0xF0 + c / 262144)%N)
      (String (byte (0x80 + (c / 4096) mod 64)%N)
         (String (byte (0x80 + (c / 64) mod 64)%N)
            (String (byte (0x80 + c mod 64)%N) EmptyString))).

(** The characters removed by [String.prototype.trim]: WhiteSpace and
    LineTerminator of ECMAScript, that is TAB, LF, VT, FF, CR, SPACE,
    NO-BREAK SPACE, OGHAM SPACE MARK, EN QUAD to HAIR SPACE, LINE and
    PARAGRAPH SEPARATOR, NARROW NO-BREAK SPACE, MEDIUM MATHEMATICAL
    SPACE, IDEOGRAPHIC SPACE and the byte order mark. *)
Definition whiteSpaceCodes : list N :=
  [0x09; 0x0A; 0x0B; 0x0C; 0x0D; 0x20; 0xA0; 0x1680;
   0x2000; 0x2001; 0x2002; 0x2003; 0x2004; 0x2005; 0x2006; 0x2007;
   0x2008; 0x2009; 0x200A; 0x2028; 0x2029; 0x202F; 0x205F; 0x3000;
   0xFEFF]%N.

Definition whiteSpace : list string := utf8 <$> whiteSpaceCodes.

(** Whether [s] is one white-space character. *)
Definition is_white (s : string) : bool := existsb (String.eqb s) whiteSpace.

(** Whether [s] begins with a white-space character: its encoding is
    the first byte, the first two or the first three. *)
Definition startsWhite (s : string) : bool :=
  match s with
  | EmptyString => false
  | String a r1 =>
      is_white (String a EmptyString)
      || match r1 with
         | EmptyString => false
         | String b r2 =>
             is_white (String a (String b EmptyString))
             || match r2 with
                | EmptyString => false
                | String c _ => is_white (String a (String b (String c EmptyString)))
                end
         end
  end.

Fixpoint trimStart (s : string) : string :=
  match s with
  | EmptyString => EmptyString
  | String a r1 =>
      if is_white (String a EmptyString) then trimStart r1
      else match r1 with
           | EmptyString => s
           | String b r2 =>
               if is_white (String a (String b EmptyString)) then trimStart r2
               else match r2 with
                    | EmptyString => s
                    | String c r3 =>
                        if is_white (String a (String b (String c EmptyString)))
                        then trimStart r3
                        else s
                    end
           end
  end.

(** From the end: the bytes kept so far are dropped when, with the byte
    before them, they make up a white-space character. *)
Fixpoint trimEnd (s : string) : string :=
  match s with
  | EmptyString => EmptyString
  | String c r =>
      let r' := trimEnd r in
      if is_white (String c r') then EmptyString else String c r'
  end.

Definition trim (s : string) : string := trimEnd (trimStart s).

(** [s] begins, ends with [p]. *)
Definition startsWith (p s : string) : Prop := ∃ r, s = p +:+ r.
Definition endsWith (p s : string) : Prop := ∃ r, s = r +:+ p.

(** No white-space character at either end of [s]. *)
Definition bare (s : string) : Prop :=
  ∀ ws, ws ∈ whiteSpace → ¬ startsWith ws s ∧ ¬ endsWith ws s.

(** [s] is made of white-space characters only. *)
Definition blank (s : string) : Prop :=
  ∃ l, Forall (λ ws, ws ∈ whiteSpace) l ∧ s = String.concat "" l.

Definition CR : string := String (ascii_of_nat 13) EmptyString.
Definition LF : string := String (ascii_of_nat 10) EmptyString.
Definition ESC : string := String (ascii_of_nat 27) EmptyString.

End JS.

(* ===================================================================== *)
(** ** The browser: sockets, timers, clock, uploads *)
(* ===================================================================== *)

Module Browser.

(** [WebSocket.readyState]. *)
Inductive ReadyState := CONNECTING | OPEN | CLOSING | CLOSED.

Definition ReadyState_eqb (a b : ReadyState) : bool :=
  match a, b with
  | CONNECTING, CONNECTING | OPEN, OPEN
  | CLOSING, CLOSING | CLOSED, CLOSED => true
  | _, _ => false
  end.

(** A [File] picked, dropped or pasted by the user. *)
Record File := { file_name : string; file_type : string }.

(** What [api.uploadFile] resolves to. *)
Record UploadRecord := {
  filename : string;
  path : string;
  size : nat;
  content_type : string
}.

(** How the promise of [api.uploadFile] settles: resolved on a 2xx
    status; rejected on a network error or on any other status; on 401
    the token is removed and the page reloaded before the rejection. *)
Inductive UploadOutcome :=
| Resolved (r : UploadRecord)
| Rejected
| Unauthorized.

Section Env.
(** [Frame]: what is handed to [ws.send]; [Callback]: what is handed
    to [setTimeout]. *)
Context {Frame Callback : Type}.

Record WebSocket := {
  endpoint : string;          (* path of the URL *)
  credential : string;        (* the token of the query string *)
  readyState : ReadyState;
  sent : list Frame;          (* frames transmitted, oldest first *)
  closeCalls : nat            (* calls of [ws.close()] *)
}.

Record Timer := { due : nat; callback : Callback }.

Record Env := {
  sockets : list WebSocket;          (* by creation order *)
  timers : list (option Timer);      (* by timer id; None: fired or cleared *)
  now : nat;                         (* clock, in ms *)
  token : option string;             (* localStorage.getItem("token") *)
  uploadRequests : list File         (* calls of api.uploadFile *)
}.

Definition with_sockets (l : list WebSocket) (b : Env) : Env :=
  {| sockets := l; timers := timers b; now := now b; token := token b;
     uploadRequests := uploadRequests b |}.

Definition with_timers (l : list (option Timer)) (b : Env) : Env :=
  {| sockets := sockets b; timers := l; now := now b; token := token b;
     uploadRequests := uploadRequests b |}.

Definition with_now (t : nat) (b : Env) : Env :=
  {| sockets := sockets b; timers := timers b; now := t; token := token b;
     uploadRequests := uploadRequests b |}.

Definition with_token (t : option string) (b : Env) : Env :=
  {| sockets := sockets b; timers := timers b; now := now b; token := t;
     uploadRequests := uploadRequests b |}.

Definition with_uploadRequests (l : list File) (b : Env) : Env :=
  {| sockets := sockets b; timers := timers b; now := now b;
     token := token b; uploadRequests := l |}.

Definition initial : Env :=
  {| sockets := []; timers := []; now := 0; token := None;
     uploadRequests := [] |}.

(** [ref.current.readyState === WebSocket.OPEN], false on a null ref. *)
Definition is_open (ref : option nat) (b : Env) : bool :=
  match ref with
  | Some id =>
      match sockets b !! id with
      | Some ws => ReadyState_eqb (readyState ws) OPEN
      | None => false
      end
  | None => false
  end.

(** [new WebSocket(url)]: the new object is the last of the table. *)
Definition newWebSocket (ep tok : string) (b : Env) : nat * Env :=
  (length (sockets b),
   with_sockets (sockets b ++
     [{| endpoint := ep; credential := tok; readyState := CONNECTING;
         sent := []; closeCalls := 0 |}]) b).

Definition set_readyState (r : ReadyState) (ws : WebSocket) : WebSocket :=
  {| endpoint := endpoint ws; credential := credential ws;
     readyState := r; sent := sent ws; closeCalls := closeCalls ws |}.

Definition push_frame (f : Frame) (ws : WebSocket) : WebSocket :=
  {| endpoint := endpoint ws; credential := credential ws;
     readyState := readyState ws; sent := sent ws ++ [f];
     closeCalls := closeCalls ws |}.

(** [ws.send(f)].  Every call in the source sits behind a test of
    [readyState === OPEN] or inside [onopen]; on a socket that is not
    open nothing is transmitted. *)
Definition ws_send (id : nat) (f : Frame) (b : Env) : Env :=
  match sockets b !! id with
  | Some ws =>
      match readyState ws with
      | OPEN => with_sockets (<[id := push_frame f ws]> (sockets b)) b
      | _ => b
      end
  | None => b
  end.

(** [ws.close()]: starts the closing handshake unless the socket is
    already closing or closed; the close event comes later. *)
Definition ws_close (id : nat) (b : Env) : Env :=
  match sockets b !! id with
  | Some ws =>
      let r := match readyState ws with
               | CONNECTING | OPEN => CLOSING
               | r => r
               end in
      with_sockets
        (<[id := {| endpoint := endpoint ws; credential := credential ws;
                    readyState := r; sent := sent ws;
                    closeCalls := S (closeCalls ws) |}]> (sockets b)) b
  | None => b
  end.

(** [setTimeout(cb, delay)] returns the id of the new timer. *)
Definition setTimeout (cb : Callback) (delay : nat) (b : Env) : nat * Env :=
  (length (timers b),
   with_timers (timers b ++ [Some {| due := now b + delay; callback := cb |}]) b).

Definition clearTimeout (tid : nat) (b : Env) : Env :=
  with_timers (<[tid := None]> (timers b)) b.

(** The timer [tid] if it is pending and due. *)
Definition due_timer (tid : nat) (b : Env) : option Callback :=
  match timers b !! tid with
  | Some (Some t) => if (due t <=? now b)%nat then Some (callback t) else None
  | _ => None
  end.

(** The network moves socket [id] to state [r]. *)
Definition transition (id : nat) (r : ReadyState) (b : Env) : Env :=
  match sockets b !! id with
  | Some ws => with_sockets (<[id := set_readyState r ws]> (sockets b)) b
  | None => b
  end.

Definition state_of (id : nat) (b : Env) : option ReadyState :=
  readyState <$> sockets b !! id.

(** [api.uploadFile(file)]: one request is issued. *)
Definition uploadFile (f : File) (b : Env) : Env :=
  with_uploadRequests (uploadRequests b ++ [f]) b.

(** Timers still pending. *)
Definition pending (b : Env) : list Timer := omap id (timers b).

(** [window.location.reload()]: the page goes away, and with it every
    socket (closed by the browser, no handler left to run) and every
    timer; the clock, [localStorage] and what the server has seen stay. *)
Definition reload (b : Env) : Env :=
  {| sockets := set_readyState CLOSED <$> sockets b;
     timers := (λ _, None) <$> timers b;
     now := now b; token := token b; uploadRequests := uploadRequests b |}.

(** The 401 branch of [api.ts]: [localStorage.removeItem("token")], then
    [window.location.reload()]. *)
Definition unauthorized (b : Env) : Env := reload (with_token None b).

End Env.

Arguments WebSocket : clear implicits.
Arguments Timer : clear implicits.
Arguments Env : clear implicits.

End Browser.

(* ===================================================================== *)
(** ** stores/chatStore.ts *)
(* ===================================================================== *)

Module ChatStore.

Inductive Role := user | assistant.

Record Attachment := { att_filename : string; att_path : string }.

(** [id] and [timestamp] are both readings of the clock. *)
Record Message := {
  msg_id : nat;
  msg_role : Role;
  msg_content : string;
  msg_attachments : list Attachment;
  msg_timestamp : nat
}.

(** At run time [type] is whatever string the server sent. *)
Record StreamChunk := { chunk_content : string; chunk_type : string }.

Record Session := {
  session_id : string;
  session_title : string;
  created_at : string;
  updated_at : string;
  summary : string
}.

Record ChatState := {
  sessions : list Session;
  currentSessionId : option string;
  messages : list Message;
  streaming : bool;
  streamChunks : list StreamChunk
}.

Definition create : ChatState :=
  {| sessions := []; currentSessionId := None; messages := [];
     streaming := false; streamChunks := [] |}.

Definition setSessions (l : list Session) (s : ChatState) : ChatState :=
  {| sessions := l; currentSessionId := currentSessionId s;
     messages := messages s; streaming := streaming s;
     streamChunks := streamChunks s |}.

Definition setCurrentSession (i : option string) (s : ChatState) : ChatState :=
  {| sessions := sessions s; currentSessionId := i;
     messages := messages s; streaming := streaming s;
     streamChunks := streamChunks s |}.

Definition setMessages (l : list Message) (s : ChatState) : ChatState :=
  {| sessions := sessions s; currentSessionId := currentSessionId s;
     messages := l; streaming := streaming s;
     streamChunks := streamChunks s |}.

Definition addMessage (m : Message) (s : ChatState) : ChatState :=
  setMessages (messages s ++ [m]) s.

Definition setStreaming (b : bool) (s : ChatState) : ChatState :=
  {| sessions := sessions s; currentSessionId := currentSessionId s;
     messages := messages s; streaming := b;
     streamChunks := streamChunks s |}.

Definition setStreamChunks (l : list StreamChunk) (s : ChatState) : ChatState :=
  {| sessions := sessions s; currentSessionId := currentSessionId s;
     messages := messages s; streaming := streaming s;
     streamChunks := l |}.

Definition appendStreamChunk (c : StreamChunk) (s : ChatState) : ChatState :=
  setStreamChunks (streamChunks s ++ [c]) s.

Definition resetStreamChunks (s : ChatState) : ChatState :=
  setStreamChunks [] s.

End ChatStore.

(* ===================================================================== *)
(** ** The chat transport: [useWebSocket] and the composer [InputArea] *)
(* ===================================================================== *)

Module Chat.
Import Browser ChatStore.

(** The outbound frame [{type:"message", ...}] before [JSON.stringify]. *)
Record Outbound := {
  out_content : string;
  out_attachments : list Attachment;
  out_session_id : option string;
  out_is_first_message : bool
}.

(** An inbound frame after [JSON.parse], by its [type].  [InOther] is a
    frame of any other type; text that [JSON.parse] rejects makes the
    handler throw before it touches any state, to the same effect. *)
Inductive Inbound :=
| InChunk (content : string) (chunk_type : option string)
| InSessionId (sid : string)
| InDone (sid : option string)
| InError (message : string)
| InOther (type : string).

Inductive Callback := CbConnect | CbClearUploadError.

(** A pending attachment of the composer. *)
Record Pending := {
  p_filename : string;
  p_path : string;
  previewUrl : option nat
}.

(** One run of [handleFileUpload] suspended at its [await]. *)
Record UploadJob := {
  job_file : File;
  job_preview : option nat;
  job_rest : list File
}.

Record InputArea := {
  input : string;
  attachments : list Pending;
  uploading : bool;
  uploadProgress : nat;
  uploadFileName : string;
  uploadError : option string;
  jobs : list (option UploadJob);     (* None: the run has returned *)
  objectUrls : nat;                   (* URL.createObjectURL calls *)
  revokedUrls : list nat              (* URL.revokeObjectURL calls *)
}.

Record World := {
  env : Env Outbound Callback;
  store : ChatState;
  wsRef : option nat;
  sentFirstRef : bool;
  composer : InputArea
}.

(** The page as it is right after loading, in browser [b]. *)
Definition loaded (b : Env Outbound Callback) : World :=
  {| env := b; store := ChatStore.create; wsRef := None;
     sentFirstRef := false;
     composer := {| input := ""; attachments := []; uploading := false;
                    uploadProgress := 0; uploadFileName := "";
                    uploadError := None; jobs := []; objectUrls := 0;
                    revokedUrls := [] |} |}.

Definition initial : World := loaded Browser.initial.

Definition with_env (b : Env Outbound Callback) (w : World) : World :=
  {| env := b; store := store w; wsRef := wsRef w;
     sentFirstRef := sentFirstRef w; composer := composer w |}.

Definition with_store (s : ChatState) (w : World) : World :=
  {| env := env w; store := s; wsRef := wsRef w;
     sentFirstRef := sentFirstRef w; composer := composer w |}.

Definition with_wsRef (r : option nat) (w : World) : World :=
  {| env := env w; store := store w; wsRef := r;
     sentFirstRef := sentFirstRef w; composer := composer w |}.

Definition with_sentFirstRef (f : bool) (w : World) : World :=
  {| env := env w; store := store w; wsRef := wsRef w;
     sentFirstRef := f; composer := composer w |}.

Definition with_composer (c : InputArea) (w : World) : World :=
  {| env := env w; store := store w; wsRef := wsRef w;
     sentFirstRef := sentFirstRef w; composer := c |}.

(** *** useWebSocket *)

Definition RECONNECT_DELAY : nat := 3000.

Definition is_result (c : StreamChunk) : bool := String.eqb (chunk_type c) "result".
Definition is_text (c : StreamChunk) : bool := String.eqb (chunk_type c) "text".

(** The content computed by the [done] case from the buffer. *)
Definition finalContent (chunks : list StreamChunk) : string :=
  match List.find is_result chunks with
  | Some resultChunk => chunk_content resultChunk
  | None => JS.join "" (map chunk_content (List.filter is_text chunks))
  end.

Definition assistantMessage (t : nat) (content : string) : Message :=
  {| msg_id := t; msg_role := assistant; msg_content := content;
     msg_attachments := []; msg_timestamp := t |}.

(** [ws.onmessage], after [JSON.parse]. *)
Definition onmessage (data : Inbound) (w : World) : World :=
  match data with
  | InChunk content chunk_type =>
      with_store
        (appendStreamChunk
           {| chunk_content := content;
              chunk_type := JS.or_else chunk_type "text" |} (store w)) w
  | InDone sid =>
      let s1 := setStreaming false (store w) in
      let content := finalContent (streamChunks s1) in
      let s2 := if JS.truthy content
                then addMessage (assistantMessage (now (env w)) content) s1
                else s1 in
      let s3 := resetStreamChunks s2 in
      let s4 := if JS.truthy_opt sid then setCurrentSession sid s3 else s3 in
      with_store s4 w
  | InSessionId sid =>
      with_sentFirstRef true (with_store (setCurrentSession (Some sid) (store w)) w)
  | InError message =>
      with_store
        (addMessage (assistantMessage (now (env w)) ("Error: " +:+ message))
           (resetStreamChunks (setStreaming false (store w)))) w
  | InOther _ => w
  end.

(** [connect]: no socket without a token. *)
Definition connect (w : World) : World :=
  match token (env w) with
  | Some tok =>
      if JS.truthy tok then
        let '(ws, b) := newWebSocket "/api/chat/stream" tok (env w) in
        with_wsRef (Some ws) (with_env b w)
      else w
  | None => w
  end.

(** [ws.onclose]: the timer id returned by [setTimeout] is dropped. *)
Definition onclose (w : World) : World :=
  with_env (snd (setTimeout CbConnect RECONNECT_DELAY (env w))) w.

Definition userMessage (t : nat) (content : string) (atts : list Attachment) : Message :=
  {| msg_id := t; msg_role := user; msg_content := content;
     msg_attachments := atts; msg_timestamp := t |}.

Definition sendMessage (content : string) (atts : list Attachment) (w : World) : World :=
  if negb (is_open (wsRef w) (env w)) then w
  else
    let sessionId := currentSessionId (store w) in
    let isFirstMessage := negb (JS.truthy_opt sessionId) || negb (sentFirstRef w) in
    let s := resetStreamChunks
               (setStreaming true
                  (addMessage (userMessage (now (env w)) content atts) (store w))) in
    match wsRef w with
    | Some ws =>
        with_env
          (ws_send ws
             {| out_content := content; out_attachments := atts;
                out_session_id := sessionId;
                out_is_first_message := isFirstMessage |} (env w))
          (with_store s w)
    | None => w
    end.

Definition disconnect (w : World) : World :=
  match wsRef w with
  | Some ws => with_wsRef None (with_env (ws_close ws (env w)) w)
  | None => with_wsRef None w
  end.

Definition resetFirstMessage (w : World) : World := with_sentFirstRef false w.

(** *** InputArea *)

Definition with_input (v : string) (c : InputArea) : InputArea :=
  {| input := v; attachments := attachments c; uploading := uploading c;
     uploadProgress := uploadProgress c; uploadFileName := uploadFileName c;
     uploadError := uploadError c; jobs := jobs c;
     objectUrls := objectUrls c; revokedUrls := revokedUrls c |}.

Definition with_attachments (v : list Pending) (c : InputArea) : InputArea :=
  {| input := input c; attachments := v; uploading := uploading c;
     uploadProgress := uploadProgress c; uploadFileName := uploadFileName c;
     uploadError := uploadError c; jobs := jobs c;
     objectUrls := objectUrls c; revokedUrls := revokedUrls c |}.

Definition with_uploading (v : bool) (c : InputArea) : InputArea :=
  {| input := input c; attachments := attachments c; uploading := v;
     uploadProgress := uploadProgress c; uploadFileName := uploadFileName c;
     uploadError := uploadError c; jobs := jobs c;
     objectUrls := objectUrls c; revokedUrls := revokedUrls c |}.

Definition with_uploadProgress (v : nat) (c : InputArea) : InputArea :=
  {| input := input c; attachments := attachments c; uploading := uploading c;
     uploadProgress := v; uploadFileName := uploadFileName c;
     uploadError := uploadError c; jobs := jobs c;
     objectUrls := objectUrls c; revokedUrls := revokedUrls c |}.

Definition with_uploadFileName (v : string) (c : InputArea) : InputArea :=
  {| input := input c; attachments := attachments c; uploading := uploading c;
     uploadProgress := uploadProgress c; uploadFileName := v;
     uploadError := uploadError c; jobs := jobs c;
     objectUrls := objectUrls c; revokedUrls := revokedUrls c |}.

Definition with_uploadError (v : option string) (c : InputArea) : InputArea :=
  {| input := input c; attachments := attachments c; uploading := uploading c;
     uploadProgress := uploadProgress c; uploadFileName := uploadFileName c;
     uploadError := v; jobs := jobs c;
     objectUrls := objectUrls c; revokedUrls := revokedUrls c |}.

Definition with_jobs (v : list (option UploadJob)) (c : InputArea) : InputArea :=
  {| input := input c; attachments := attachments c; uploading := uploading c;
     uploadProgress := uploadProgress c; uploadFileName := uploadFileName c;
     uploadError := uploadError c; jobs := v;
     objectUrls := objectUrls c; revokedUrls := revokedUrls c |}.

Definition with_objectUrls (v : nat) (c : InputArea) : InputArea :=
  {| input := input c; attachments := attachments c; uploading := uploading c;
     uploadProgress := uploadProgress c; uploadFileName := uploadFileName c;
     uploadError := uploadError c; jobs := jobs c;
     objectUrls := v; revokedUrls := revokedUrls c |}.

Definition with_revokedUrls (v : list nat) (c : InputArea) : InputArea :=
  {| input := input c; attachments := attachments c; uploading := uploading c;
     uploadProgress := uploadProgress c; uploadFileName := uploadFileName c;
     uploadError := uploadError c; jobs := jobs c;
     objectUrls := objectUrls c; revokedUrls := v |}.

(** [URL.revokeObjectURL] on an optional preview. *)
Definition revoke (p : option nat) (c : InputArea) : InputArea :=
  match p with
  | Some u => with_revokedUrls (revokedUrls c ++ [u]) c
  | None => c
  end.

Definition toAttachment (a : Pending) : Attachment :=
  {| att_filename := p_filename a; att_path := p_path a |}.

(** [handleSend]; the [streaming] it tests is the value of the store at
    the last render, [onSend] is the prop of the component. *)
Definition handleSend (onSend : string -> list Attachment -> World -> World)
    (w : World) : World :=
  let text := JS.trim (input (composer w)) in
  let atts := attachments (composer w) in
  if negb (JS.truthy text) && (length atts =? 0)%nat then w
  else if streaming (store w) then w
  else
    let w1 := onSend text (map toAttachment atts) w in
    let c1 := with_input "" (composer w1) in
    let c2 := with_revokedUrls (revokedUrls c1 ++ omap previewUrl atts) c1 in
    with_composer (with_attachments [] c2) w1.

Definition isImageFile (f : File) : bool := String.prefix "image/" (file_type f).

Definition UPLOAD_NOTICE_MS : nat := 3000.

Definition uploadFailedNotice (f : File) : string :=
  "上传失败: " +:+ file_name f.

(** One turn of the [for] loop up to its [await]. *)
Definition startFile (file : File) (rest : list File) (w : World) : UploadJob * World :=
  let c := with_uploadProgress 0 (with_uploadFileName (file_name file) (composer w)) in
  let '(preview, c) :=
    if isImageFile file
    then (Some (objectUrls c), with_objectUrls (S (objectUrls c)) c)
    else (None, c) in
  ({| job_file := file; job_preview := preview; job_rest := rest |},
   with_env (uploadFile file (env w)) (with_composer c w)).

(** [handleFileUpload] up to the first [await]. *)
Definition handleFileUpload (files : list File) (w : World) : World :=
  match files with
  | [] => w
  | file :: rest =>
      let w1 := with_composer
                  (with_uploadError None (with_uploading true (composer w))) w in
      let '(job, w2) := startFile file rest w1 in
      with_composer (with_jobs (jobs (composer w2) ++ [Some job]) (composer w2)) w2
  end.

(** The [try] block after a resolved [await]. *)
Definition uploadResolved (job : UploadJob) (r : UploadRecord) (w : World) : World :=
  with_composer
    (with_attachments
       (attachments (composer w) ++
          [{| p_filename := filename r; p_path := path r;
              previewUrl := job_preview job |}]) (composer w)) w.

(** The [catch] block. *)
Definition uploadRejected (job : UploadJob) (w : World) : World :=
  let c := with_uploadError (Some (uploadFailedNotice (job_file job)))
             (revoke (job_preview job) (composer w)) in
  with_env (snd (setTimeout CbClearUploadError UPLOAD_NOTICE_MS (env w)))
    (with_composer c w).

(** The loop after the [try]: the next file, or the end of the run. *)
Definition uploadNext (j : nat) (job : UploadJob) (w1 : World) : World :=
  match job_rest job with
  | next :: rest =>
      let '(job', w2) := startFile next rest w1 in
      with_composer (with_jobs (<[j := Some job']> (jobs (composer w2))) (composer w2)) w2
  | [] =>
      let c := with_uploadFileName ""
                 (with_uploadProgress 0 (with_uploading false (composer w1))) in
      with_composer (with_jobs (<[j := None]> (jobs c)) c) w1
  end.

(** [handleFileUpload] resumed when the upload of run [j] settles.  After
    a 401 nothing of the page is left. *)
Definition uploadSettled (j : nat) (o : UploadOutcome) (w : World) : World :=
  match jobs (composer w) !! j with
  | Some (Some job) =>
      match o with
      | Resolved r => uploadNext j job (uploadResolved job r w)
      | Rejected => uploadNext j job (uploadRejected job w)
      | Unauthorized => loaded (unauthorized (env w))
      end
  | _ => w
  end.

Definition removeAttachment (index : nat) (w : World) : World :=
  let c := composer w in
  let c1 := match attachments c !! index with
            | Some removed => revoke (previewUrl removed) c
            | None => c
            end in
  with_composer (with_attachments (delete index (attachments c)) c1) w.

(** *** The event loop *)

Inductive Event :=
(* the consumer of the hook *)
| Connect
| Disconnect
| ResetFirstMessage
| SendMessage (content : string) (atts : list Attachment)
(* the composer *)
| SetInput (v : string)
| HandleSend
| ChooseFiles (files : list File)
| UploadProgress (job percent : nat)
| UploadSettled (job : nat) (o : UploadOutcome)
| RemoveAttachment (index : nat)
(* the session list *)
| SelectSession (sid : string)
| NewSession
| SetMessages (l : list Message)
(* the browser *)
| SetToken (t : option string)
| WsOpen (ws : nat)
| WsMessage (ws : nat) (data : Inbound)
| WsClose (ws : nat)
| Elapse (ms : nat)
| TimerFire (tid : nat).

Definition runCallback (cb : Callback) (w : World) : World :=
  match cb with
  | CbConnect => connect w
  | CbClearUploadError => with_composer (with_uploadError None (composer w)) w
  end.

Definition step (w : World) (e : Event) : World :=
  match e with
  | Connect => connect w
  | Disconnect => disconnect w
  | ResetFirstMessage => resetFirstMessage w
  | SendMessage content atts => sendMessage content atts w
  | SetInput v => with_composer (with_input v (composer w)) w
  | HandleSend => handleSend sendMessage w
  | ChooseFiles files => handleFileUpload files w
  | UploadProgress j percent =>
      match jobs (composer w) !! j with
      | Some (Some _) => with_composer (with_uploadProgress percent (composer w)) w
      | _ => w
      end
  | UploadSettled j o => uploadSettled j o w
  | RemoveAttachment i => removeAttachment i w
  | SelectSession sid => with_store (setCurrentSession (Some sid) (store w)) w
  | NewSession => with_store (setMessages [] (setCurrentSession None (store w))) w
  | SetMessages l => with_store (setMessages l (store w)) w
  | SetToken t => with_env (with_token t (env w)) w
  | WsOpen ws =>
      (* onopen only logs *)
      match state_of ws (env w) with
      | Some CONNECTING => with_env (transition ws OPEN (env w)) w
      | _ => w
      end
  | WsMessage ws data =>
      (* messages are delivered on open sockets only *)
      match state_of ws (env w) with
      | Some OPEN => onmessage data w
      | _ => w
      end
  | WsClose ws =>
      (* one close event per socket *)
      match state_of ws (env w) with
      | Some CLOSED | None => w
      | Some _ => onclose (with_env (transition ws CLOSED (env w)) w)
      end
  | Elapse ms => with_env (with_now (now (env w) + ms) (env w)) w
  | TimerFire tid =>
      (* a timer never fires before it is due *)
      match due_timer tid (env w) with
      | Some cb => runCallback cb (with_env (clearTimeout tid (env w)) w)
      | None => w
      end
  end.

Definition run (w : World) (tr : list Event) : World := fold_left step tr w.

End Chat.

(* ===================================================================== *)
(** ** The shell bridge: [ClaudeTerminal] *)
(* ===================================================================== *)

Module Terminal.
Import Browser.

(** What the component hands to [ws.send]: a string, an [ArrayBuffer],
    or the JSON text of [{type:"resize", cols, rows}]. *)
Inductive Frame :=
| Text (s : string)
| Binary (bytes : list N)
| Resize (cols rows : nat).

(** An inbound frame, by its wire representation. *)
Inductive Inbound :=
| InText (s : string)
| InBinary (bytes : list N).

(** An argument of [term.write]. *)
Inductive Write :=
| WriteText (s : string)
| WriteBytes (bytes : list N).

Inductive Callback := CbConnect | CbDoFit.

Inductive Status := connecting | connected | disconnected.

(** What [fitAddon.fit()] finds when it measures the host surface: it
    throws, it has no dimensions to propose, or it proposes cells (the
    add-on itself never proposes fewer than 2 columns or 1 row). *)
Inductive Layout :=
| FitThrows
| FitUnmeasured
| FitCells (cols rows : nat).

(** The xterm terminal: its dimensions and what was written to it. *)
Record Term := { cols : nat; rows : nat; written : list Write }.

Record World := {
  env : Env Frame Callback;
  termRef : option Term;
  wsRef : option nat;
  reconnectTimer : option nat;
  retryTimers : list nat;        (* t1, t2, t3 of the mounted effect *)
  observing : bool;              (* the ResizeObserver is connected *)
  layout : Layout;
  status : Status;
  uploading : bool;
  uploadInfo : string;
  mobileInput : string;
  jobs : list (option File)      (* uploads in flight; None: settled *)
}.

(** The page as it is right after loading, in browser [b], on a host
    surface measured as [l]. *)
Definition loaded (b : Env Frame Callback) (l : Layout) : World :=
  {| env := b; termRef := None; wsRef := None;
     reconnectTimer := None; retryTimers := []; observing := false;
     layout := l; status := disconnected; uploading := false;
     uploadInfo := ""; mobileInput := ""; jobs := [] |}.

Definition initial : World := loaded Browser.initial FitUnmeasured.

Definition with_env (v : Env Frame Callback) (w : World) : World :=
  {| env := v; termRef := termRef w; wsRef := wsRef w;
     reconnectTimer := reconnectTimer w; retryTimers := retryTimers w;
     observing := observing w; layout := layout w; status := status w;
     uploading := uploading w; uploadInfo := uploadInfo w;
     mobileInput := mobileInput w; jobs := jobs w |}.

Definition with_termRef (v : option Term) (w : World) : World :=
  {| env := env w; termRef := v; wsRef := wsRef w;
     reconnectTimer := reconnectTimer w; retryTimers := retryTimers w;
     observing := observing w; layout := layout w; status := status w;
     uploading := uploading w; uploadInfo := uploadInfo w;
     mobileInput := mobileInput w; jobs := jobs w |}.

Definition with_wsRef (v : option nat) (w : World) : World :=
  {| env := env w; termRef := termRef w; wsRef := v;
     reconnectTimer := reconnectTimer w; retryTimers := retryTimers w;
     observing := observing w; layout := layout w; status := status w;
     uploading := uploading w; uploadInfo := uploadInfo w;
     mobileInput := mobileInput w; jobs := jobs w |}.

Definition with_reconnectTimer (v : option nat) (w : World) : World :=
  {| env := env w; termRef := termRef w; wsRef := wsRef w;
     reconnectTimer := v; retryTimers := retryTimers w;
     observing := observing w; layout := layout w; status := status w;
     uploading := uploading w; uploadInfo := uploadInfo w;
     mobileInput := mobileInput w; jobs := jobs w |}.

Definition with_retryTimers (v : list nat) (w : World) : World :=
  {| env := env w; termRef := termRef w; wsRef := wsRef w;
     reconnectTimer := reconnectTimer w; retryTimers := v;
     observing := observing w; layout := layout w; status := status w;
     uploading := uploading w; uploadInfo := uploadInfo w;
     mobileInput := mobileInput w; jobs := jobs w |}.

Definition with_observing (v : bool) (w : World) : World :=
  {| env := env w; termRef := termRef w; wsRef := wsRef w;
     reconnectTimer := reconnectTimer w; retryTimers := retryTimers w;
     observing := v; layout := layout w; status := status w;
     uploading := uploading w; uploadInfo := uploadInfo w;
     mobileInput := mobileInput w; jobs := jobs w |}.

Definition with_layout (v : Layout) (w : World) : World :=
  {| env := env w; termRef := termRef w; wsRef := wsRef w;
     reconnectTimer := reconnectTimer w; retryTimers := retryTimers w;
     observing := observing w; layout := v; status := status w;
     uploading := uploading w; uploadInfo := uploadInfo w;
     mobileInput := mobileInput w; jobs := jobs w |}.

Definition setStatus (v : Status) (w : World) : World :=
  {| env := env w; termRef := termRef w; wsRef := wsRef w;
     reconnectTimer := reconnectTimer w; retryTimers := retryTimers w;
     observing := observing w; layout := layout w; status := v;
     uploading := uploading w; uploadInfo := uploadInfo w;
     mobileInput := mobileInput w; jobs := jobs w |}.

Definition setUploading (v : bool) (w : World) : World :=
  {| env := env w; termRef := termRef w; wsRef := wsRef w;
     reconnectTimer := reconnectTimer w; retryTimers := retryTimers w;
     observing := observing w; layout := layout w; status := status w;
     uploading := v; uploadInfo := uploadInfo w;
     mobileInput := mobileInput w; jobs := jobs w |}.

Definition setUploadInfo (v : string) (w : World) : World :=
  {| env := env w; termRef := termRef w; wsRef := wsRef w;
     reconnectTimer := reconnectTimer w; retryTimers := retryTimers w;
     observing := observing w; layout := layout w; status := status w;
     uploading := uploading w; uploadInfo := v;
     mobileInput := mobileInput w; jobs := jobs w |}.

Definition setMobileInput (v : string) (w : World) : World :=
  {| env := env w; termRef := termRef w; wsRef := wsRef w;
     reconnectTimer := reconnectTimer w; retryTimers := retryTimers w;
     observing := observing w; layout := layout w; status := status w;
     uploading := uploading w; uploadInfo := uploadInfo w;
     mobileInput := v; jobs := jobs w |}.

Definition with_jobs (v : list (option File)) (w : World) : World :=
  {| env := env w; termRef := termRef w; wsRef := wsRef w;
     reconnectTimer := reconnectTimer w; retryTimers := retryTimers w;
     observing := observing w; layout := layout w; status := status w;
     uploading := uploading w; uploadInfo := uploadInfo w;
     mobileInput := mobileInput w; jobs := v |}.

Definition RECONNECT_DELAY : nat := 3000.

(** [term.write(d)] through [termRef.current], skipped on a null ref. *)
Definition term_write (d : Write) (w : World) : World :=
  match termRef w with
  | Some t =>
      with_termRef
        (Some {| cols := cols t; rows := rows t; written := written t ++ [d] |}) w
  | None => w
  end.

(** [if (ws && ws.readyState === WebSocket.OPEN) ws.send(f)] on
    [wsRef.current]. *)
Definition send_if_open (f : Frame) (w : World) : World :=
  if is_open (wsRef w) (env w) then
    match wsRef w with
    | Some ws => with_env (ws_send ws f (env w)) w
    | None => w
    end
  else w.

Definition sendCommand (cmd : string) (w : World) : World := send_if_open (Text cmd) w.

Definition sendKey (seq : string) (w : World) : World := send_if_open (Text seq) w.

Definition handleMobileSend (w : World) : World :=
  let text := JS.trim (mobileInput w) in
  if negb (JS.truthy text) then w
  else setMobileInput "" (send_if_open (Text (text +:+ JS.LF)) w).

Definition uploadFailedLine (f : File) : string :=
  JS.CR +:+ JS.LF +:+ JS.ESC +:+ "[31m[Upload failed: " +:+ file_name f +:+ "]"
    +:+ JS.ESC +:+ "[0m".

Definition disconnectedLine : string :=
  JS.CR +:+ JS.LF +:+ JS.ESC +:+ "[33m[Disconnected. Reconnecting...]"
    +:+ JS.ESC +:+ "[0m" +:+ JS.CR +:+ JS.LF.

(** [handleFileUpload] up to its [await]. *)
Definition handleFileUpload (file : File) (w : World) : World :=
  let w1 := setUploadInfo (file_name file) (setUploading true w) in
  let w2 := with_env (uploadFile file (env w1)) w1 in
  with_jobs (jobs w2 ++ [Some file]) w2.

(** The [finally] block. *)
Definition uploadFinally (j : nat) (w1 : World) : World :=
  let w2 := setUploadInfo "" (setUploading false w1) in
  with_jobs (<[j := None]> (jobs w2)) w2.

(** [handleFileUpload] resumed when the upload [j] settles.  After a 401
    nothing of the page is left. *)
Definition uploadSettled (j : nat) (o : UploadOutcome) (w : World) : World :=
  match jobs w !! j with
  | Some (Some file) =>
      match o with
      | Resolved result => uploadFinally j (send_if_open (Text (path result)) w)
      | Rejected => uploadFinally j (term_write (WriteText (uploadFailedLine file)) w)
      | Unauthorized => loaded (unauthorized (env w)) (layout w)
      end
  | _ => w
  end.

Definition handleFiles (files : list File) (w : World) : World :=
  fold_left (fun w file => handleFileUpload file w) files w.

Definition connect (w : World) : World :=
  match token (env w), termRef w with
  | Some tok, Some _ =>
      if JS.truthy tok then
        let w1 := setStatus connecting w in
        let '(ws, b) := newWebSocket "/api/pty/ws" tok (env w1) in
        with_wsRef (Some ws) (with_env b w1)
      else w
  | _, _ => w
  end.

(** [ws.onopen] of the socket [ws]: the handshake goes to [ws] itself. *)
Definition onopen (ws : nat) (w : World) : World :=
  let w1 := setStatus connected w in
  match termRef w1 with
  | Some term => with_env (ws_send ws (Resize (cols term) (rows term)) (env w1)) w1
  | None => w1
  end.

Definition onmessage (data : Inbound) (w : World) : World :=
  match data with
  | InBinary bytes => term_write (WriteBytes bytes) w
  | InText s => term_write (WriteText s) w
  end.

Definition onclose (w : World) : World :=
  let w1 := term_write (WriteText disconnectedLine) (setStatus disconnected w) in
  let '(tid, b) := setTimeout CbConnect RECONNECT_DELAY (env w1) in
  with_reconnectTimer (Some tid) (with_env b w1).

Definition onerror (ws : nat) (w : World) : World :=
  with_env (ws_close ws (env w)) w.

(** [fitAddon.fit()]: [None] when it throws. *)
Definition fit (w : World) : option World :=
  match layout w with
  | FitThrows => None
  | FitUnmeasured => Some w
  | FitCells c r =>
      match termRef w with
      | Some t => Some (with_termRef (Some {| cols := c; rows := r; written := written t |}) w)
      | None => Some w
      end
  end.

(** The body shared by [doFit] and the ResizeObserver callback; the
    terminal of their closure is the one of [termRef] while mounted. *)
Definition doFit (w : World) : World :=
  match fit w with
  | Some w1 =>
      match termRef w1 with
      | Some term =>
          if is_open (wsRef w1) (env w1)
             && negb (cols term =? 0)%nat && negb (rows term =? 0)%nat
          then send_if_open (Resize (cols term) (rows term)) w1
          else w1
      | None => w1
      end
  | None => w
  end.

Definition RETRY_DELAYS : list nat := [100; 500; 1500].

(** [setTimeout(doFit, d)] for each delay, collecting the timer ids. *)
Definition scheduleRetries (delays : list nat) (w : World) : World :=
  fold_left
    (fun w d =>
       let '(tid, b) := setTimeout CbDoFit d (env w) in
       with_retryTimers (retryTimers w ++ [tid]) (with_env b w))
    delays (with_retryTimers [] w).

(** The effect run at mount. *)
Definition mount (w : World) : World :=
  let term := {| cols := 80; rows := 24; written := [] |} in
  let w1 := with_termRef (Some term) w in
  let w2 := doFit w1 in
  let w3 := scheduleRetries RETRY_DELAYS w2 in
  let w4 := connect w3 in
  with_observing true w4.

(** The cleanup of the effect. *)
Definition unmount (w : World) : World :=
  let b1 := fold_left (fun b t => clearTimeout t b) (retryTimers w) (env w) in
  let w1 := with_observing false (with_env b1 w) in
  let w2 := match reconnectTimer w1 with
            | Some t => with_env (clearTimeout t (env w1)) w1
            | None => w1
            end in
  let w3 := match wsRef w2 with
            | Some ws => with_env (ws_close ws (env w2)) w2
            | None => w2
            end in
  with_termRef None (with_wsRef None w3).

(** *** The event loop *)

Inductive Event :=
| Mount
| Unmount
| SendCommand (cmd : string)
| SendKey (seq : string)
| SetMobileInput (v : string)
| HandleMobileSend
| TermData (data : string)
| TermBinary (data : list N)
| HandleFiles (files : list File)
| UploadSettled (job : nat) (o : UploadOutcome)
| GeometryChange (l : Layout)
| SetToken (t : option string)
| WsOpen (ws : nat)
| WsMessage (ws : nat) (data : Inbound)
| WsError (ws : nat)
| WsClose (ws : nat)
| Elapse (ms : nat)
| TimerFire (tid : nat).

Definition runCallback (cb : Callback) (w : World) : World :=
  match cb with
  | CbConnect => connect w
  | CbDoFit => doFit w
  end.

Definition step (w : World) (e : Event) : World :=
  match e with
  | Mount => match termRef w with None => mount w | Some _ => w end
  | Unmount => match termRef w with Some _ => unmount w | None => w end
  | SendCommand cmd => sendCommand cmd w
  | SendKey seq => sendKey seq w
  | SetMobileInput v => setMobileInput v w
  | HandleMobileSend => handleMobileSend w
  | TermData data =>
      match termRef w with
      | Some _ => send_if_open (Text data) w
      | None => w
      end
  | TermBinary data =>
      match termRef w with
      | Some _ => send_if_open (Binary (map (fun c => N.land c 255) data)) w
      | None => w
      end
  | HandleFiles files => handleFiles files w
  | UploadSettled j o => uploadSettled j o w
  | GeometryChange l =>
      let w1 := with_layout l w in
      if observing w1 then doFit w1 else w1
  | SetToken t => with_env (with_token t (env w)) w
  | WsOpen ws =>
      match state_of ws (env w) with
      | Some CONNECTING => onopen ws (with_env (transition ws OPEN (env w)) w)
      | _ => w
      end
  | WsMessage ws data =>
      match state_of ws (env w) with
      | Some OPEN => onmessage data w
      | _ => w
      end
  | WsError ws =>
      match state_of ws (env w) with
      | Some CLOSED | None => w
      | Some _ => onerror ws w
      end
  | WsClose ws =>
      match state_of ws (env w) with
      | Some CLOSED | None => w
      | Some _ => onclose (with_env (transition ws CLOSED (env w)) w)
      end
  | Elapse ms => with_env (with_now (now (env w) + ms) (env w)) w
  | TimerFire tid =>
      match due_timer tid (env w) with
      | Some cb => runCallback cb (with_env (clearTimeout tid (env w)) w)
      | None => w
      end
  end.

Definition run (w : World) (tr : list Event) : World := fold_left step tr w.

End Terminal.

(* ===================================================================== *)
(** ** The command runner: [TerminalPanel] *)
(* ===================================================================== *)

Module Runner.
Import Browser.

(** The outbound frame [{type:"command", content}]. *)
Record Outbound := { out_content : string }.

(** An inbound frame after [JSON.parse], by its [type]. *)
Inductive Inbound :=
| InPrompt (cwd : string)
| InOutput (content : string)
| InExit (cwd : option string)
| InOther (type : string).

Inductive Callback := CbConnect.

Inductive LineType := input_line | output_line | prompt_line.

Record TerminalLine := { line_type : LineType; line_content : string }.

Record World := {
  env : Env Outbound Callback;
  wsRef : option nat;
  lines : list TerminalLine;
  input : string;
  cwd : string;
  running : bool;
  history : list string;
  historyIdx : option nat        (* None stands for -1 *)
}.

Definition initial : World :=
  {| env := Browser.initial; wsRef := None; lines := []; input := "";
     cwd := "~"; running := false; history := []; historyIdx := None |}.

Definition with_env (v : Env Outbound Callback) (w : World) : World :=
  {| env := v; wsRef := wsRef w; lines := lines w; input := input w;
     cwd := cwd w; running := running w; history := history w;
     historyIdx := historyIdx w |}.

Definition with_wsRef (v : option nat) (w : World) : World :=
  {| env := env w; wsRef := v; lines := lines w; input := input w;
     cwd := cwd w; running := running w; history := history w;
     historyIdx := historyIdx w |}.

Definition setLines (v : list TerminalLine) (w : World) : World :=
  {| env := env w; wsRef := wsRef w; lines := v; input := input w;
     cwd := cwd w; running := running w; history := history w;
     historyIdx := historyIdx w |}.

Definition setInput (v : string) (w : World) : World :=
  {| env := env w; wsRef := wsRef w; lines := lines w; input := v;
     cwd := cwd w; running := running w; history := history w;
     historyIdx := historyIdx w |}.

Definition setCwd (v : string) (w : World) : World :=
  {| env := env w; wsRef := wsRef w; lines := lines w; input := input w;
     cwd := v; running := running w; history := history w;
     historyIdx := historyIdx w |}.

Definition setRunning (v : bool) (w : World) : World :=
  {| env := env w; wsRef := wsRef w; lines := lines w; input := input w;
     cwd := cwd w; running := v; history := history w;
     historyIdx := historyIdx w |}.

Definition setHistory (v : list string) (w : World) : World :=
  {| env := env w; wsRef := wsRef w; lines := lines w; input := input w;
     cwd := cwd w; running := running w; history := v;
     historyIdx := historyIdx w |}.

Definition setHistoryIdx (v : option nat) (w : World) : World :=
  {| env := env w; wsRef := wsRef w; lines := lines w; input := input w;
     cwd := cwd w; running := running w; history := history w;
     historyIdx := v |}.

Definition RECONNECT_DELAY : nat := 3000.

Definition shortPath (p : string) : string :=
  let home := "/root" in
  if String.eqb p home then "~"
  else if String.prefix (home +:+ "/") p
       then "~" +:+ String.substring (String.length home)
                      (String.length p - String.length home) p
       else p.

Definition connect (w : World) : World :=
  match token (env w) with
  | Some tok =>
      if JS.truthy tok then
        let '(ws, b) := newWebSocket "/api/terminal/ws" tok (env w) in
        with_wsRef (Some ws) (with_env b w)
      else w
  | None => w
  end.

Definition onmessage (data : Inbound) (w : World) : World :=
  match data with
  | InPrompt d => setCwd d w
  | InOutput content =>
      setLines (lines w ++ [{| line_type := output_line; line_content := content |}]) w
  | InExit d =>
      let w1 := setRunning false w in
      match d with
      | Some d' => if JS.truthy d' then setCwd d' w1 else w1
      | None => w1
      end
  | InOther _ => w
  end.

(** [ws.onclose]: the timer id returned by [setTimeout] is dropped. *)
Definition onclose (w : World) : World :=
  with_env (snd (setTimeout CbConnect RECONNECT_DELAY (env w))) w.

Definition sendCommand (cmd : string) (w : World) : World :=
  if negb (is_open (wsRef w) (env w)) then w
  else if negb (JS.truthy (JS.trim cmd)) then w
  else if String.eqb (JS.trim cmd) "clear" then setLines [] w
  else
    let w1 :=
      setLines (lines w ++
                  [{| line_type := prompt_line;
                      line_content := shortPath (cwd w) +:+ " $" |};
                   {| line_type := input_line; line_content := cmd |}]) w in
    let w2 := setHistoryIdx None (setHistory (history w1 ++ [cmd]) (setRunning true w1)) in
    match wsRef w2 with
    | Some ws => with_env (ws_send ws {| out_content := cmd |} (env w2)) w2
    | None => w2
    end.

Definition handleSubmit (w : World) : World := setInput "" (sendCommand (input w) w).

(** The cleanup of the effect that connects at mount. *)
Definition cleanup (w : World) : World :=
  match wsRef w with
  | Some ws => with_wsRef None (with_env (ws_close ws (env w)) w)
  | None => with_wsRef None w
  end.

Inductive Event :=
| Mount
| Unmount
| SetInput (v : string)
| Submit
| QuickCommand (cmd : string)
| SetToken (t : option string)
| WsOpen (ws : nat)
| WsMessage (ws : nat) (data : Inbound)
| WsClose (ws : nat)
| Elapse (ms : nat)
| TimerFire (tid : nat).

Definition step (w : World) (e : Event) : World :=
  match e with
  | Mount => connect w
  | Unmount => cleanup w
  | SetInput v => setInput v w
  | Submit => handleSubmit w
  | QuickCommand cmd => sendCommand cmd w
  | SetToken t => with_env (with_token t (env w)) w
  | WsOpen ws =>
      match state_of ws (env w) with
      | Some CONNECTING => with_env (transition ws OPEN (env w)) w
      | _ => w
      end
  | WsMessage ws data =>
      match state_of ws (env w) with
      | Some OPEN => onmessage data w
      | _ => w
      end
  | WsClose ws =>
      match state_of ws (env w) with
      | Some CLOSED | None => w
      | Some _ => onclose (with_env (transition ws CLOSED (env w)) w)
      end
  | Elapse ms => with_env (with_now (now (env w) + ms) (env w)) w
  | TimerFire tid =>
      match due_timer tid (env w) with
      | Some CbConnect => connect (with_env (clearTimeout tid (env w)) w)
      | None => w
      end
  end.

Definition run (w : World) (tr : list Event) : World := fold_left step tr w.

End Runner.

(* ===================================================================== *)
(** ** The rules of the specification, in its own words *)
(* ===================================================================== *)

Module Spec.
Import Browser ChatStore Chat.

(** "the concatenation, in arrival order, of the content of every chunk
    of type text, with no separator inserted" *)
Fixpoint concatText (chunks : list StreamChunk) : string :=
  match chunks with
  | [] => ""
  | c :: rest =>
      if is_text c then chunk_content c +:+ concatText rest
      else concatText rest
  end.

(** "let R be the last chunk of type result, if any exists" *)
Definition lastResult (chunks : list StreamChunk) : option StreamChunk :=
  last (List.filter is_result chunks).

(** "If R exists, the final content is R.content verbatim.  Otherwise
    [the concatenation of the text chunks]" *)
Definition finalContent (chunks : list StreamChunk) : string :=
  match lastResult chunks with
  | Some R => chunk_content R
  | None => concatText chunks
  end.

(** "no session_id event has yet been received for the current
    transport instance ... reset whenever the transport disposer is
    invoked": the flag the specification describes, followed along a
    run from world [w]. *)
Fixpoint sessionEventSinceDispose (w : World) (seen : bool) (tr : list Event) : bool :=
  match tr with
  | [] => seen
  | e :: rest =>
      let seen' :=
        match e with
        | Disconnect => false
        | WsMessage ws (InSessionId _) =>
            match state_of ws (env w) with
            | Some OPEN => true
            | _ => seen
            end
        | UploadSettled j Unauthorized =>
            match jobs (composer w) !! j with
            | Some (Some _) => false        (* the page reloads *)
            | _ => seen
            end
        | _ => seen
        end in
      sessionEventSinceDispose (step w e) seen' rest
  end.

End Spec.

(* ===================================================================== *)
(** ** Ghost observations of a run *)
(* ===================================================================== *)

Module Ghost.
Import Browser ChatStore Chat.

(** Whether a [session_id] event was delivered since the page was loaded
    or [resetFirstMessage] was last called, along a run from world [w]. *)
Fixpoint sessionEventSinceReset (w : World) (seen : bool) (tr : list Event) : bool :=
  match tr with
  | [] => seen
  | e :: rest =>
      let seen' :=
        match e with
        | ResetFirstMessage => false
        | WsMessage ws (InSessionId _) =>
            match state_of ws (env w) with
            | Some OPEN => true
            | _ => seen
            end
        | UploadSettled j Unauthorized =>
            match jobs (composer w) !! j with
            | Some (Some _) => false        (* the page reloads *)
            | _ => seen
            end
        | _ => seen
        end in
      sessionEventSinceReset (step w e) seen' rest
  end.

(** A run in which the server streams chunks only into an exchange in
    progress: every [chunk] event arrives while [streaming] is set. *)
Fixpoint chunksWhileStreaming (w : World) (tr : list Event) : bool :=
  match tr with
  | [] => true
  | e :: rest =>
      match e with
      | WsMessage _ (InChunk _ _) => streaming (store w)
      | _ => true
      end && chunksWhileStreaming (step w e) rest
  end.

(** The frames sent so far on socket [ws]. *)
Definition sentOn (ws : nat) (w : World) : list Outbound :=
  match sockets (env w) !! ws with
  | Some sock => sent sock
  | None => []
  end.

(** The buffer is non-empty only while streaming. *)
Definition bufferOnlyWhileStreaming (s : ChatState) : Prop :=
  streamChunks s ≠ [] → streaming s = true.

(** Files of the selections in progress that still wait for their turn. *)
Definition filesQueued (w : World) : nat :=
  sum_list_with
    (λ o, match o with Some job => length (job_rest job) | None => 0 end)
    (jobs (composer w)).

(** Files handed to [handleFileUpload] by one event, and along a run. *)
Definition filesOf (e : Event) : nat :=
  match e with
  | ChooseFiles files => length files
  | _ => 0
  end.

Definition filesChosen (tr : list Event) : nat := sum_list_with filesOf tr.

End Ghost.

Module ShellGhost.
Import Browser Terminal.

(** A torn-down shell bridge: no terminal, no current socket, every
    socket closed. *)
Definition torn_down (w : World) : Prop :=
  termRef w = None ∧ wsRef w = None
  ∧ Forall (λ sock, readyState sock = CLOSED) (sockets (env w)).

(** The frames sent so far on socket [ws]. *)
Definition sentOn (ws : nat) (w : World) : list Frame :=
  match sockets (env w) !! ws with
  | Some sock => sent sock
  | None => []
  end.


(** Files handed to [handleFiles] by one event, and along a run. *)
Definition filesOf (e : Event) : nat :=
  match e with
  | HandleFiles files => length files
  | _ => 0
  end.

Definition filesDropped (tr : list Event) : nat := sum_list_with filesOf tr.

End ShellGhost.

(* ===================================================================== *)
(** ** The live view of an exchange: [MessageList] *)
(* ===================================================================== *)

Module MessageList.
Import ChatStore.

(** The branch taken by the [switch] of [ActivityItem]. *)
Inductive Kind :=
| KToolUse | KToolResult | KText | KError | KResult | KDefault.

Definition kindOf (type : string) : Kind :=
  if String.eqb type "tool_use" then KToolUse
  else if String.eqb type "tool_result" then KToolResult
  else if String.eqb type "text" then KText
  else if String.eqb type "error" then KError
  else if String.eqb type "result" then KResult
  else KDefault.

(** What the streaming bubble shows, top to bottom. *)
Inductive Row :=
| Item (kind : Kind) (content : string)
| Working.

Definition ActivityItem (chunk : StreamChunk) : Row :=
  Item (kindOf (chunk_type chunk)) (chunk_content chunk).

Definition StreamingActivity (chunks : list StreamChunk) : list Row :=
  let hasResult := existsb Chat.is_result chunks in
  let activityChunks := List.filter (λ c, negb (Chat.is_result c)) chunks in
  let resultChunk := List.find Chat.is_result chunks in
  map ActivityItem activityChunks
  ++ (if negb hasResult then [Working] else [])
  ++ match resultChunk with
     | Some c => [ActivityItem c]
     | None => []
     end.

Inductive Bubble :=
| Connecting
| Activity (rows : list Row).

Record View := {
  emptyState : bool;
  bubbles : list Message;
  streamingBubble : option Bubble
}.

Definition MessageList (s : ChatState) : View :=
  {| emptyState := (length (messages s) =? 0)%nat && negb (streaming s);
     bubbles := messages s;
     streamingBubble :=
       if streaming s
       then Some (if (0 <? length (streamChunks s))%nat
                  then Activity (StreamingActivity (streamChunks s))
                  else Connecting)
       else None |}.

End MessageList.

(* ===================================================================== *)
(** ** Observations of the network *)
(* ===================================================================== *)

Module Net.
Import Browser.

Section Counts.
Context {Frame Callback : Type}.

(** 1 for a socket that has not closed yet. *)
Definition alive (ws : WebSocket Frame) : nat :=
  if ReadyState_eqb (readyState ws) CLOSED then 0 else 1.

(** Sockets of the page that have not closed yet. *)
Definition live (b : Env Frame Callback) : nat := sum_list_with alive (sockets b).

(** 1 for a pending timer whose callback satisfies [p]. *)
Definition armed (p : Callback → bool) (o : option (Timer Callback)) : nat :=
  match o with
  | Some t => if p (callback t) then 1 else 0
  | None => 0
  end.

(** Pending timers whose callback satisfies [p]. *)
Definition pendingOf (p : Callback → bool) (b : Env Frame Callback) : nat :=
  sum_list_with (armed p) (timers b).

(** [b'] has the sockets of [b], possibly with more frames sent or a
    closing handshake started, and the same timers and token. *)
Definition same_net (b b' : Env Frame Callback) : Prop :=
  live b' = live b ∧ timers b' = timers b ∧ token b' = token b
  ∧ length (sockets b') = length (sockets b).

End Counts.

End Net.

(* ===================================================================== *)
(** ** Observations of a run of the chat transport *)
(* ===================================================================== *)

Module ChatRuns.
Import Browser ChatStore Chat Net.

(** The [chunk] event that carries [content] under [type]. *)
Definition chunkEvent (ws : nat) (c : string * option string) : Event :=
  WsMessage ws (InChunk c.1 c.2).

(** The chunk the store buffers for it. *)
Definition toChunk (c : string * option string) : StreamChunk :=
  {| chunk_content := c.1; chunk_type := JS.or_else c.2 "text" |}.

(** Events that replace the history instead of extending it: the session
    list loading or starting a session, and the page reload after a 401. *)
Definition replacesHistory (e : Event) : bool :=
  match e with
  | SetMessages _ | NewSession | UploadSettled _ Unauthorized => true
  | _ => false
  end.

(** Events that may add a message: a submission, a [done], an [error]. *)
Definition mayAppend (e : Event) : nat :=
  match e with
  | SendMessage _ _ | HandleSend
  | WsMessage _ (InDone _) | WsMessage _ (InError _) => 1
  | _ => 0
  end.

(** Events that end an exchange: [done], [error], and the page reload. *)
Definition endsExchange (e : Event) : bool :=
  match e with
  | WsMessage _ (InDone _) | WsMessage _ (InError _)
  | UploadSettled _ Unauthorized => true
  | _ => false
  end.

Definition isConnect (cb : Callback) : bool :=
  match cb with
  | CbConnect => true
  | CbClearUploadError => false
  end.

(** Connections of the hook: sockets not closed yet, and reconnects
    waiting for their timer. *)
Definition connections (w : World) : nat :=
  live (env w) + pendingOf isConnect (env w).

Definition connectCalls (e : Event) : nat :=
  match e with
  | Connect => 1
  | _ => 0
  end.

(** An event that stores a usable token. *)
Definition storesToken (e : Event) : bool :=
  match e with
  | SetToken t => JS.truthy_opt t
  | _ => false
  end.

End ChatRuns.

(* ===================================================================== *)
(** ** The preview URLs of the composer *)
(* ===================================================================== *)

Module Previews.
Import Browser ChatStore Chat.

(** The preview URL a suspended upload holds, if any. *)
Definition jobPreview (o : option UploadJob) : option nat := o ≫= job_preview.

(** The preview URLs the composer still holds: those of the pending
    attachments and those of the uploads in flight. *)
Definition held (c : InputArea) : list nat :=
  omap previewUrl (attachments c) ++ omap jobPreview (jobs c).

(** Every URL handed to [URL.revokeObjectURL] or still held was created
    by [URL.createObjectURL], and no URL occurs twice among them. *)
Definition urlsOk (c : InputArea) : Prop :=
  NoDup (revokedUrls c ++ held c)
  ∧ Forall (λ u, u < objectUrls c) (revokedUrls c ++ held c).

End Previews.

(* ===================================================================== *)
(** ** Observations of a run of the shell bridge *)
(* ===================================================================== *)

Module ShellNet.
Import Browser Terminal Net.

Definition isConnect (cb : Callback) : bool :=
  match cb with
  | CbConnect => true
  | CbDoFit => false
  end.

(** Connections of the component: sockets not closed yet, and
    reconnects waiting for their timer. *)
Definition connections (w : World) : nat :=
  live (env w) + pendingOf isConnect (env w).

Definition mountCalls (e : Event) : nat :=
  match e with
  | Mount => 1
  | _ => 0
  end.

(** An event that stores a usable token. *)
Definition storesToken (e : Event) : bool :=
  match e with
  | SetToken t => JS.truthy_opt t
  | _ => false
  end.

(** [b'] differs from [b] by frames sent, handshakes started, timers
    that are no reconnect, or reconnects cancelled. *)
Definition quiet (b b' : Env Frame Callback) : Prop :=
  live b' = live b
  ∧ pendingOf isConnect b' ≤ pendingOf isConnect b
  ∧ token b' = token b
  ∧ length (sockets b') = length (sockets b).

(** The component between an unmount and the next mount. *)
Definition unmounted (w : World) : Prop := termRef w = None ∧ wsRef w = None.

(** Everything transmitted so far, socket by socket. *)
Definition transmitted (w : World) : list (list Frame) := sent <$> sockets (env w).

(** What [ws.onmessage] hands to [term.write] for an inbound frame. *)
Definition toWrite (data : Inbound) : Write :=
  match data with
  | InText s => WriteText s
  | InBinary bytes => WriteBytes bytes
  end.

(** The files handed to [handleFiles] by one event, and along a run, in
    the order of the hand-over. *)
Definition handed (e : Event) : list File :=
  match e with
  | HandleFiles files => files
  | _ => []
  end.

Definition filesHanded (tr : list Event) : list File := flat_map handed tr.

End ShellNet.

(* ===================================================================== *)
(** ** The input line of [TerminalPanel] *)
(* ===================================================================== *)

Module RunnerKeys.
Import Browser Runner.

Inductive Key := ArrowUp | ArrowDown | OtherKey.

(** [handleKeyDown], on the [history] and [historyIdx] of the last
    render; [None] when [history[newIdx]] is [undefined]. *)
Definition handleKeyDown (key : Key) (w : World) : option World :=
  match key with
  | ArrowUp =>
      if (length (history w) =? 0)%nat then Some w
      else
        let newIdx :=
          match historyIdx w with
          | None => length (history w) - 1
          | Some i => Nat.max 0 (i - 1)
          end in
        entry ← history w !! newIdx;
        Some (setInput entry (setHistoryIdx (Some newIdx) w))
  | ArrowDown =>
      match historyIdx w with
      | None => Some w
      | Some i =>
          let newIdx := i + 1 in
          if (length (history w) <=? newIdx)%nat
          then Some (setInput "" (setHistoryIdx None w))
          else
            entry ← history w !! newIdx;
            Some (setInput entry (setHistoryIdx (Some newIdx) w))
      end
  | OtherKey => Some w
  end.

(** The events of the panel, with the keys pressed in its input. *)
Inductive Event :=
| Panel (e : Runner.Event)
| KeyDown (key : Key).

(** The input is rendered with [disabled={running}]: while a command
    runs it receives no key. *)
Definition step (w : World) (e : Event) : option World :=
  match e with
  | Panel e => Some (Runner.step w e)
  | KeyDown key => if running w then Some w else handleKeyDown key w
  end.

Fixpoint run (w : World) (tr : list Event) : option World :=
  match tr with
  | [] => Some w
  | e :: rest => w' ← step w e; run w' rest
  end.

(** The commands transmitted so far, over all sockets in creation
    order. *)
Definition transmitted (w : World) : list string :=
  out_content <$> concat (sent <$> sockets (env w)).

(** [historyIdx] is -1 or an index of [history]. *)
Definition idxInRange (w : World) : Prop :=
  ∀ i, historyIdx w = Some i → i < length (history w).

(** [wsRef] is null or the socket created last. *)
Definition refIsLast (w : World) : Prop :=
  ∀ ws, wsRef w = Some ws → S ws = length (sockets (env w)).

(** A command that [sendCommand] lets through to the server. *)
Definition sendable (cmd : string) : Prop :=
  JS.trim cmd ≠ "" ∧ JS.trim cmd ≠ "clear".

(** What holds of the panel in every reachable state. *)
Definition consistent (w : World) : Prop :=
  idxInRange w ∧ refIsLast w
  ∧ history w = transmitted w
  ∧ Forall sendable (history w).

(** The panel showing entry [i] of its history in the input. *)
Definition recalled (i : nat) (entry : string) (w : World) : World :=
  setInput entry (setHistoryIdx (Some i) w).

(** The same key pressed [k] times. *)
Definition presses (k : nat) (key : Key) : list Event := replicate k (KeyDown key).

(** The [exit] event that ends a command, when it is delivered. *)
Definition isExit (e : Event) : bool :=
  match e with
  | Panel (WsMessage _ (InExit _)) => true
  | _ => false
  end.

(** An event that stores a usable token. *)
Definition storesToken (e : Runner.Event) : bool :=
  match e with
  | SetToken t => JS.truthy_opt t
  | _ => false
  end.

End RunnerKeys.

(* ===================================================================== *)
(** ** The preset bar: [PresetBar] *)
(* ===================================================================== *)

Module Presets.

Record Preset := {
  preset_id : string;
  preset_label : string;
  preset_prompt : string
}.

(** A call of [api]: [get('/presets')], [post('/presets', body)],
    [delete('/presets/' + id)]. *)
Inductive Request :=
| GET
| POST (label prompt : string)
| DELETE (id : string).

(** How the promise of a call settles: resolved with the parsed body
    (read by [fetchPresets] only), rejected, or rejected after the 401
    branch of [request] has reloaded the page. *)
Inductive Reply :=
| Ok (data : list Preset)
| Failed
| Unauthorized.

(** An async function of the component suspended at its [await]:
    [fetchPresets] (also when [handleAdd] calls it), [handleAdd],
    [handleDelete]. *)
Inductive Job :=
| AwaitGet
| AwaitPost
| AwaitDelete (id : string).

Record World := {
  presets : list Preset;
  loading : bool;
  showAddForm : bool;
  newLabel : string;
  newPrompt : string;
  requests : list Request;          (* calls issued, oldest first *)
  jobs : list (option Job)          (* None: the function has returned *)
}.

(** The component as it is rendered first, the server having seen
    [reqs]. *)
Definition loaded (reqs : list Request) : World :=
  {| presets := []; loading := true; showAddForm := false;
     newLabel := ""; newPrompt := ""; requests := reqs; jobs := [] |}.

Definition initial : World := loaded [].

Definition setPresets (v : list Preset) (w : World) : World :=
  {| presets := v; loading := loading w; showAddForm := showAddForm w;
     newLabel := newLabel w; newPrompt := newPrompt w;
     requests := requests w; jobs := jobs w |}.

Definition setLoading (v : bool) (w : World) : World :=
  {| presets := presets w; loading := v; showAddForm := showAddForm w;
     newLabel := newLabel w; newPrompt := newPrompt w;
     requests := requests w; jobs := jobs w |}.

Definition setShowAddForm (v : bool) (w : World) : World :=
  {| presets := presets w; loading := loading w; showAddForm := v;
     newLabel := newLabel w; newPrompt := newPrompt w;
     requests := requests w; jobs := jobs w |}.

Definition setNewLabel (v : string) (w : World) : World :=
  {| presets := presets w; loading := loading w; showAddForm := showAddForm w;
     newLabel := v; newPrompt := newPrompt w;
     requests := requests w; jobs := jobs w |}.

Definition setNewPrompt (v : string) (w : World) : World :=
  {| presets := presets w; loading := loading w; showAddForm := showAddForm w;
     newLabel := newLabel w; newPrompt := v;
     requests := requests w; jobs := jobs w |}.

Definition with_requests (v : list Request) (w : World) : World :=
  {| presets := presets w; loading := loading w; showAddForm := showAddForm w;
     newLabel := newLabel w; newPrompt := newPrompt w;
     requests := v; jobs := jobs w |}.

Definition with_jobs (v : list (option Job)) (w : World) : World :=
  {| presets := presets w; loading := loading w; showAddForm := showAddForm w;
     newLabel := newLabel w; newPrompt := newPrompt w;
     requests := requests w; jobs := v |}.

(** A call goes out. *)
Definition call (r : Request) (w : World) : World :=
  with_requests (requests w ++ [r]) w.

(** [fetchPresets] up to its [await], started by the mount effect. *)
Definition fetchPresets (w : World) : World :=
  let w1 := call GET w in
  with_jobs (jobs w1 ++ [Some AwaitGet]) w1.

(** [handleAdd] up to its first [await]. *)
Definition handleAdd (w : World) : World :=
  if negb (JS.truthy (JS.trim (newLabel w))) || negb (JS.truthy (JS.trim (newPrompt w)))
  then w
  else
    let w1 := call (POST (JS.trim (newLabel w)) (JS.trim (newPrompt w))) w in
    with_jobs (jobs w1 ++ [Some AwaitPost]) w1.

(** [handleDelete] up to its [await]. *)
Definition handleDelete (i : string) (w : World) : World :=
  let w1 := call (DELETE i) w in
  with_jobs (jobs w1 ++ [Some (AwaitDelete i)]) w1.

(** The function suspended as job [j] resumes with reply [r]. *)
Definition settled (j : nat) (r : Reply) (w : World) : World :=
  match jobs w !! j with
  | Some (Some job) =>
      match r with
      | Unauthorized => loaded (requests w)
      | Ok data =>
          match job with
          | AwaitGet =>
              with_jobs (<[j := None]> (jobs w)) (setLoading false (setPresets data w))
          | AwaitPost =>
              let w1 := setShowAddForm false (setNewPrompt "" (setNewLabel "" w)) in
              (* await fetchPresets() *)
              with_jobs (<[j := Some AwaitGet]> (jobs w1)) (call GET w1)
          | AwaitDelete i =>
              with_jobs (<[j := None]> (jobs w))
                (setPresets
                   (List.filter (λ p, negb (String.eqb (preset_id p) i)) (presets w)) w)
          end
      | Failed =>
          match job with
          | AwaitGet =>
              with_jobs (<[j := None]> (jobs w)) (setLoading false (setPresets [] w))
          | AwaitPost | AwaitDelete _ => with_jobs (<[j := None]> (jobs w)) w
          end
      end
  | _ => w
  end.

Inductive Event :=
| Mount
| SetNewLabel (v : string)
| SetNewPrompt (v : string)
| ShowAddForm
| Cancel
| HandleAdd
| HandleDelete (id : string)
| Settled (job : nat) (r : Reply).

Definition step (w : World) (e : Event) : World :=
  match e with
  | Mount => fetchPresets w
  | SetNewLabel v => setNewLabel v w
  | SetNewPrompt v => setNewPrompt v w
  | ShowAddForm => setShowAddForm true w
  | Cancel => setNewPrompt "" (setNewLabel "" (setShowAddForm false w))
  | HandleAdd => handleAdd w
  | HandleDelete i => handleDelete i w
  | Settled j r => settled j r w
  end.

Definition run (w : World) (tr : list Event) : World := fold_left step tr w.

(** A request the server can take as a preset: a [POST] carries a
    label and a prompt that are not empty and have no white space left
    at either end. *)
Definition wellFormed (r : Request) : Prop :=
  match r with
  | POST l p => l ≠ "" ∧ p ≠ "" ∧ JS.bare l ∧ JS.bare p
  | _ => True
  end.

End Presets.

(* ===================================================================== *)
(** ** The file browser: [TreeNode] and [FileBrowser] *)
(* ===================================================================== *)

Module FileBrowser.

(** An entry of the tree the server returns; [children] may be absent. *)
#[warnings="-register-all"] Inductive TreeItem :=
| Entry (name path : string) (is_dir : bool) (size : N)
        (children : option (list TreeItem)).

Definition item_path (item : TreeItem) : string :=
  match item with
  | Entry _ path _ _ _ => path
  end.

(** One rendered line of the tree. *)
Record Row := {
  row_path : string;
  row_name : string;
  row_is_dir : bool;
  paddingLeft : nat;          (* in px *)
  isExpanded : bool;
  isSelected : bool
}.

(** [TreeNode]: the line of the item, then the lines of its children
    when it is an expanded directory. *)
Fixpoint TreeNode (expandedDirs : gset string) (selectedPath : option string)
    (depth : nat) (item : TreeItem) : list Row :=
  match item with
  | Entry name path is_dir size children =>
      let expanded := bool_decide (path ∈ expandedDirs) in
      {| row_path := path; row_name := name; row_is_dir := is_dir;
         paddingLeft := depth * 16 + 8;
         isExpanded := expanded;
         isSelected := bool_decide (selectedPath = Some path) |}
      :: (if is_dir && expanded then
            match children with
            | Some cs =>
                flat_map (TreeNode expandedDirs selectedPath (depth + 1)) cs
            | None => []
            end
          else [])
  end.

(** The tree panel: every top-level item at depth 0. *)
Definition treePanel (expandedDirs : gset string) (selectedPath : option string)
    (tree : list TreeItem) : list Row :=
  flat_map (TreeNode expandedDirs selectedPath 0) tree.

(** [toggleDir]. *)
Definition toggleDir (path : string) (prev : gset string) : gset string :=
  if bool_decide (path ∈ prev) then prev ∖ {[path]} else prev ∪ {[path]}.

(** [toFixed(1)] of the quotient [num / den], in tenths: the nearest
    multiple of one tenth, the larger one on a tie.  The division of an
    integer below 2^53 by a power of two is exact in floating point, so
    this is what [(bytes / 1024).toFixed(1)] prints for a file size. *)
Definition tenths (num den : N) : N := ((20 * num + den) / (2 * den))%N.

Definition fixed1 (n : N) : string :=
  pretty (n / 10)%N +:+ "." +:+ pretty (n mod 10)%N.

(** [formatSize], on a size in bytes. *)
Definition formatSize (bytes : N) : string :=
  if (bytes <? 1024)%N then pretty bytes +:+ " B"
  else if (bytes <? 1024 * 1024)%N then fixed1 (tenths bytes 1024) +:+ " KB"
  else fixed1 (tenths bytes (1024 * 1024)) +:+ " MB".

End FileBrowser.

(** Unfolds the handlers of the chat world and splits on every test. *)
Ltac chat_cases :=
  unfold Chat.handleSend, Chat.sendMessage, Chat.connect, Chat.disconnect,
    Chat.resetFirstMessage, Chat.onclose, Chat.onmessage,
    Chat.handleFileUpload, Chat.uploadSettled, Chat.uploadNext,
    Chat.uploadResolved, Chat.uploadRejected, Chat.startFile,
    Chat.removeAttachment, Chat.runCallback, Browser.newWebSocket,
    Browser.setTimeout in *;
  simpl in *;
  repeat (case_match; simpl in *; simplify_eq);
  try done.

(* ===================================================================== *)
(** ** Facts about the browser model *)
(* ===================================================================== *)

Section Strings.

Example trim_both_ends : JS.trim ("  git status" +:+ JS.LF) = "git status".
Proof. reflexivity. Qed.

Example trim_blank : JS.trim "   " = "".
Proof. reflexivity. Qed.

(** U+00A0 is the bytes C2 A0 and U+FEFF the bytes EF BB BF. *)
Example utf8_no_break_space :
  JS.utf8 0xA0 = String (ascii_of_nat 194) (String (ascii_of_nat 160) "")
  ∧ JS.utf8 0xFEFF =
      String (ascii_of_nat 239) (String (ascii_of_nat 187) (String (ascii_of_nat 191) "")).
Proof. split; reflexivity. Qed.

(** A no-break space, a byte order mark and an ideographic space go as
    the ASCII blanks do; a letter with the same last byte as U+00A0
    (U+00E0, bytes C3 A0) stays. *)
Example trim_unicode :
  JS.trim (JS.utf8 0xFEFF +:+ " hi" +:+ JS.utf8 0xA0 +:+ JS.utf8 0x3000) = "hi"
  ∧ JS.trim (JS.utf8 0xA0 +:+ JS.utf8 0x2003) = ""
  ∧ JS.trim ("voil" +:+ JS.utf8 0xE0) = "voil" +:+ JS.utf8 0xE0.
Proof. repeat split; reflexivity. Qed.

Example or_else_empty : JS.or_else (Some "") "text" = "text".
Proof. reflexivity. Qed.

Example shortPath_home : Runner.shortPath "/root/work" = "~/work".
Proof. reflexivity. Qed.

Example shortPath_elsewhere : Runner.shortPath "/rooted" = "/rooted".
Proof. reflexivity. Qed.

End Strings.

(** *** [String.prototype.trim] *)

Section Trim.
Import JS.

Lemma append_cons (c : ascii) (s t : string) : String c s +:+ t = String c (s +:+ t).
Proof. reflexivity. Qed.

Lemma append_nil_l (s : string) : "" +:+ s = s.
Proof. reflexivity. Qed.

Lemma append_nil_r (s : string) : s +:+ "" = s.
Proof. induction s as [|c s IH]; [done|]. by rewrite append_cons, IH. Qed.

Lemma append_assoc (s t u : string) : (s +:+ t) +:+ u = s +:+ (t +:+ u).
Proof. induction s as [|c s IH]; [done|]. by rewrite !append_cons, IH. Qed.

Lemma is_white_elem (s : string) : is_white s = true ↔ s ∈ whiteSpace.
Proof.
  unfold is_white. rewrite existsb_exists. split.
  - intros (x & Hin & Heq). apply String.eqb_eq in Heq as ->. by apply list_elem_of_In.
  - intros Hin. exists s. split; [by apply list_elem_of_In|apply String.eqb_refl].
Qed.

(** The white-space characters, one by one. *)
Ltac each_white H :=
  unfold whiteSpace, whiteSpaceCodes in H; cbn [fmap list_fmap] in H;
  repeat (apply elem_of_cons in H as [->|H]); [..|by apply elem_of_nil in H].

Lemma startsWhite_complete (ws s : string) :
  ws ∈ whiteSpace → startsWith ws s → startsWhite s = true.
Proof.
  intros Hin [r ->]. each_white Hin; vm_compute utf8; cbv [String.append]; reflexivity.
Qed.

Lemma startsWhite_sound (s : string) :
  startsWhite s = true → ∃ ws, ws ∈ whiteSpace ∧ startsWith ws s.
Proof.
  destruct s as [|a r1]; [done|]. cbn [startsWhite].
  destruct (is_white (String a "")) eqn:E1.
  { intros _. exists (String a ""). split; [by apply is_white_elem|by exists r1]. }
  destruct r1 as [|b r2]; [done|].
  destruct (is_white (String a (String b ""))) eqn:E2.
  { intros _. exists (String a (String b "")). split; [by apply is_white_elem|by exists r2]. }
  destruct r2 as [|c r3]; [done|]. cbn [orb]. intros E3.
  exists (String a (String b (String c ""))). split; [by apply is_white_elem|by exists r3].
Qed.

Lemma trimStart_fixed (s : string) : startsWhite s = false → trimStart s = s.
Proof.
  destruct s as [|a r1]; [done|]. cbn [startsWhite trimStart].
  destruct (is_white (String a "")) eqn:E1; [done|].
  destruct r1 as [|b r2]; [done|].
  destruct (is_white (String a (String b ""))) eqn:E2; [done|].
  destruct r2 as [|c r3]; [done|]. cbn [orb]. by intros ->.
Qed.

(** What [trimStart] takes off is white space, and what it leaves does
    not begin with any. *)
Lemma trimStart_spec (s : string) :
  startsWhite (trimStart s) = false
  ∧ ∃ pre, Forall (λ ws, ws ∈ whiteSpace) pre ∧ s = String.concat "" pre +:+ trimStart s.
Proof.
  remember (String.length s) as n eqn:Hn. revert s Hn.
  induction n as [n IH] using lt_wf_ind. intros s ->.
  assert (Hrec : ∀ ws r, is_white ws = true → String.length r < String.length s →
            s = ws +:+ r → trimStart s = trimStart r →
            startsWhite (trimStart s) = false
            ∧ ∃ pre, Forall (λ ws, ws ∈ whiteSpace) pre
                     ∧ s = String.concat "" pre +:+ trimStart s).
  { intros ws r Hws Hlen Hs Ht. destruct (IH _ Hlen r eq_refl) as (Hw & pre & Hpre & Hr).
    rewrite Ht. split; [done|]. exists (ws :: pre). split.
    - constructor; [by apply is_white_elem|done].
    - rewrite Hs. rewrite Hr at 1. destruct pre as [|p pre]; [done|].
      change (String.concat "" (ws :: p :: pre))
        with (ws +:+ "" +:+ String.concat "" (p :: pre)).
      by rewrite append_nil_l, append_assoc. }
  assert (Hstop : startsWhite s = false →
            startsWhite (trimStart s) = false
            ∧ ∃ pre, Forall (λ ws, ws ∈ whiteSpace) pre
                     ∧ s = String.concat "" pre +:+ trimStart s).
  { intros H. rewrite (trimStart_fixed s H). split; [done|]. by exists []. }
  destruct s as [|a r1]; [by apply Hstop|].
  destruct (is_white (String a "")) eqn:E1.
  { apply (Hrec (String a "") r1); [done|simpl; lia|done|].
    cbn [trimStart]. by rewrite E1. }
  destruct r1 as [|b r2]; [apply Hstop; cbn [startsWhite]; by rewrite E1|].
  destruct (is_white (String a (String b ""))) eqn:E2.
  { apply (Hrec (String a (String b "")) r2); [done|simpl; lia|done|].
    cbn [trimStart]. by rewrite E1, E2. }
  destruct r2 as [|c r3]; [apply Hstop; cbn [startsWhite]; by rewrite E1, E2|].
  destruct (is_white (String a (String b (String c "")))) eqn:E3.
  { apply (Hrec (String a (String b (String c ""))) r3); [done|simpl; lia|done|].
    cbn [trimStart]. by rewrite E1, E2, E3. }
  apply Hstop. cbn [startsWhite]. by rewrite E1, E2, E3.
Qed.

Lemma trimEnd_cons (c : ascii) (r : string) :
  trimEnd (String c r) =
    if is_white (String c (trimEnd r)) then "" else String c (trimEnd r).
Proof. reflexivity. Qed.

(** What [trimEnd] takes off is white space. *)
Lemma trimEnd_spec (s : string) :
  ∃ post, Forall (λ ws, ws ∈ whiteSpace) post ∧ s = trimEnd s +:+ String.concat "" post.
Proof.
  induction s as [|c s (post & Hpost & Hs)]; [by exists []|].
  rewrite trimEnd_cons. destruct (is_white (String c (trimEnd s))) eqn:E.
  - exists (String c (trimEnd s) :: post). split.
    + constructor; [by apply is_white_elem|done].
    + rewrite Hs at 1. destruct post as [|p post]; [by rewrite append_nil_r|].
      change (String.concat "" (String c (trimEnd s) :: p :: post))
        with (String c (trimEnd s) +:+ "" +:+ String.concat "" (p :: post)).
      by rewrite append_nil_l.
  - exists post. split; [done|]. by rewrite append_cons, <- Hs.
Qed.

Lemma trimEnd_idemp (s : string) : trimEnd (trimEnd s) = trimEnd s.
Proof.
  induction s as [|c s IH]; [done|]. rewrite trimEnd_cons.
  destruct (is_white (String c (trimEnd s))) eqn:E; [done|].
  by rewrite trimEnd_cons, IH, E.
Qed.

(** What [trimEnd] leaves does not end with white space. *)
Lemma trimEnd_no_suffix (ws s : string) :
  ws ∈ whiteSpace → ¬ endsWith ws (trimEnd s).
Proof.
  intros Hin. induction s as [|c s IH]; intros [x Hx].
  - destruct x; [|done]. rewrite append_nil_l in Hx. cbn in Hx. subst ws.
    by apply is_white_elem in Hin.
  - rewrite trimEnd_cons in Hx. destruct (is_white (String c (trimEnd s))) eqn:E.
    + destruct x; [|done]. rewrite append_nil_l in Hx. subst ws.
      by apply is_white_elem in Hin.
    + destruct x as [|d x].
      * rewrite append_nil_l in Hx. subst ws. apply is_white_elem in Hin. congruence.
      * rewrite append_cons in Hx. injection Hx as _ Hx. apply IH. by exists x.
Qed.

Lemma trimEnd_startsWhite (s : string) :
  startsWhite s = false → startsWhite (trimEnd s) = false.
Proof.
  intros H. destruct (startsWhite (trimEnd s)) eqn:E; [|done].
  apply startsWhite_sound in E as (ws & Hin & r & Hr).
  destruct (trimEnd_spec s) as (post & _ & Hs).
  rewrite <- H. symmetry. apply (startsWhite_complete ws); [done|].
  exists (r +:+ String.concat "" post). by rewrite Hs, Hr, append_assoc.
Qed.

(** [trim] takes white space off both ends, and all of it. *)
Lemma trim_spec (s : string) :
  bare (trim s)
  ∧ ∃ pre post, Forall (λ ws, ws ∈ whiteSpace) pre ∧ Forall (λ ws, ws ∈ whiteSpace) post
                ∧ s = String.concat "" pre +:+ trim s +:+ String.concat "" post.
Proof.
  destruct (trimStart_spec s) as (Hw & pre & Hpre & Hs).
  destruct (trimEnd_spec (trimStart s)) as (post & Hpost & Ht).
  split.
  - intros ws Hin. split; [|by apply trimEnd_no_suffix].
    intros Hp. unfold trim in Hp. apply trimEnd_startsWhite in Hw.
    by rewrite (startsWhite_complete ws _ Hin Hp) in Hw.
  - exists pre, post. split; [done|]. split; [done|]. unfold trim. by rewrite <- Ht.
Qed.

Lemma trim_idemp (s : string) : trim (trim s) = trim s.
Proof.
  unfold trim. destruct (trimStart_spec s) as (Hw & _).
  rewrite (trimStart_fixed (trimEnd (trimStart s))) by by apply trimEnd_startsWhite.
  apply trimEnd_idemp.
Qed.

(** A string made of white space only is blank, and conversely. *)
Lemma trim_blank_iff (s : string) : trim s = "" ↔ blank s.
Proof.
  unfold blank. split.
  - intros H. destruct (trim_spec s) as (_ & pre & post & Hpre & Hpost & Hs).
    exists (pre ++ post). split; [by apply Forall_app|].
    rewrite Hs, H, append_nil_l. clear. induction pre as [|p pre IH]; [done|].
    destruct pre as [|q pre].
    + destruct post as [|q post]; [by rewrite append_nil_r|done].
    + change (String.concat "" (p :: q :: pre))
        with (p +:+ "" +:+ String.concat "" (q :: pre)).
      change (String.concat "" ((p :: q :: pre) ++ post))
        with (p +:+ "" +:+ String.concat "" ((q :: pre) ++ post)).
      by rewrite !append_nil_l, append_assoc, IH.
  - intros (l & Hl & ->). unfold trim.
    assert (H : trimStart (String.concat "" l) = ""); [|by rewrite H].
    induction Hl as [|ws l Hws Hl IH]; [done|].
    assert (Hc : String.concat "" (ws :: l) = ws +:+ String.concat "" l).
    { destruct l; [by rewrite append_nil_r|done]. }
    rewrite Hc. revert IH. generalize (String.concat "" l). intros r IH.
    each_white Hws; vm_compute utf8; cbv [String.append]; exact IH.
Qed.

End Trim.

Section BrowserFacts.
Import Browser.
Context {Frame Callback : Type}.
Implicit Types (b : Env Frame Callback) (ws : nat).

Lemma is_open_Some ws b :
  is_open (Some ws) b = true ↔
  ∃ sock, sockets b !! ws = Some sock ∧ readyState sock = OPEN.
Proof.
  unfold is_open. destruct (sockets b !! ws) as [sock|]; split.
  - intros H. exists sock. split; [done|]. by destruct (readyState sock).
  - intros (sock' & [= <-] & ->). done.
  - done.
  - intros (? & ? & _). done.
Qed.

Lemma is_open_state_of ws b :
  is_open (Some ws) b = true ↔ state_of ws b = Some OPEN.
Proof.
  rewrite is_open_Some. unfold state_of.
  destruct (sockets b !! ws) as [sock|]; simpl; split.
  - intros (? & [= <-] & ->). done.
  - intros [= H]. eauto.
  - intros (? & ? & _). done.
  - done.
Qed.

Lemma ws_send_open ws f b sock :
  sockets b !! ws = Some sock → readyState sock = OPEN →
  ws_send ws f b = with_sockets (<[ws := push_frame f sock]> (sockets b)) b.
Proof. intros H1 H2. unfold ws_send. by rewrite H1, H2. Qed.

Lemma ws_send_not_open ws f b :
  is_open (Some ws) b = false → ws_send ws f b = b.
Proof.
  unfold is_open, ws_send. destruct (sockets b !! ws) as [sock|]; [|done].
  by destruct (readyState sock).
Qed.

Lemma due_timer_Some tid b cb :
  due_timer tid b = Some cb ↔
  ∃ t, timers b !! tid = Some (Some t) ∧ due t ≤ now b ∧ callback t = cb.
Proof.
  unfold due_timer. destruct (timers b !! tid) as [[t|]|]; split.
  - destruct (Nat.leb_spec (due t) (now b)); [|done].
    intros [= <-]. eauto.
  - intros (t' & [= <-] & Hle & <-).
    destruct (Nat.leb_spec (due t) (now b)); [done|lia].
  - done.
  - intros (? & ? & _). done.
  - done.
  - intros (? & ? & _). done.
Qed.

(** A timer does not fire before it is due. *)
Lemma due_timer_early tid b t :
  timers b !! tid = Some (Some t) → now b < due t → due_timer tid b = None.
Proof.
  intros H Hlt. unfold due_timer. rewrite H.
  destruct (Nat.leb_spec (due t) (now b)); [lia|done].
Qed.

End BrowserFacts.

(* ===================================================================== *)
(** ** Stream finalization *)
(* ===================================================================== *)

Section Finalization.
Import Browser ChatStore Chat.

Lemma append_empty_r (s : string) : s +:+ "" = s.
Proof.
  induction s as [|c s IH]; [done|].
  change (String c (s +:+ "") = String c s). by rewrite IH.
Qed.

Lemma join_no_separator (l : list string) :
  JS.join "" l = fold_right String.append "" l.
Proof.
  unfold JS.join. induction l as [|x l IH]; [done|].
  destruct l as [|y l].
  - simpl. by rewrite append_empty_r.
  - change (String.concat "" (x :: y :: l))
      with (x +:+ "" +:+ String.concat "" (y :: l)).
    rewrite IH. done.
Qed.

Lemma join_text_chunks (chunks : list StreamChunk) :
  JS.join "" (map chunk_content (List.filter is_text chunks)) = Spec.concatText chunks.
Proof.
  rewrite join_no_separator.
  induction chunks as [|c chunks IH]; [done|].
  simpl. destruct (is_text c); simpl; by rewrite IH.
Qed.

Lemma is_result_type (c : StreamChunk) :
  is_result c = true ↔ chunk_type c = "result".
Proof. apply String.eqb_eq. Qed.

Lemma find_first_result (pre post : list StreamChunk) (R : StreamChunk) :
  Forall (λ c, chunk_type c ≠ "result") pre →
  chunk_type R = "result" →
  List.find is_result (pre ++ R :: post) = Some R.
Proof.
  intros Hpre HR. induction Hpre as [|c pre Hc _ IH]; simpl.
  - apply is_result_type in HR. by rewrite HR.
  - destruct (is_result c) eqn:E; [|done].
    apply is_result_type in E. done.
Qed.

Lemma find_no_result (chunks : list StreamChunk) :
  Forall (λ c, chunk_type c ≠ "result") chunks →
  List.find is_result chunks = None.
Proof.
  induction 1 as [|c chunks Hc _ IH]; [done|]. simpl.
  destruct (is_result c) eqn:E; [|done].
  apply is_result_type in E. done.
Qed.

Lemma filter_no_result (chunks : list StreamChunk) :
  Forall (λ c, chunk_type c ≠ "result") chunks →
  List.filter is_result chunks = [].
Proof.
  induction 1 as [|c chunks Hc _ IH]; [done|]. simpl.
  destruct (is_result c) eqn:E; [|done].
  apply is_result_type in E. done.
Qed.

(** With at most one [result] chunk the first and the last coincide, and
    the code computes what the specification describes. *)
Lemma finalContent_single_result (pre post : list StreamChunk) (R : StreamChunk) :
  Forall (λ c, chunk_type c ≠ "result") pre →
  Forall (λ c, chunk_type c ≠ "result") post →
  chunk_type R = "result" →
  finalContent (pre ++ R :: post) = Spec.finalContent (pre ++ R :: post).
Proof.
  intros Hpre Hpost HR. unfold finalContent, Spec.finalContent, Spec.lastResult.
  rewrite find_first_result by done.
  rewrite List.filter_app. simpl.
  rewrite !filter_no_result by done.
  apply is_result_type in HR. rewrite HR. done.
Qed.

Lemma finalContent_no_result (chunks : list StreamChunk) :
  Forall (λ c, chunk_type c ≠ "result") chunks →
  finalContent chunks = Spec.finalContent chunks.
Proof.
  intros H. unfold finalContent, Spec.finalContent, Spec.lastResult.
  rewrite find_no_result, filter_no_result by done.
  apply join_text_chunks.
Qed.

Lemma truthy_false (s : string) : JS.truthy s = false ↔ s = "".
Proof.
  unfold JS.truthy. destruct (String.eqb_spec s ""); simpl; split; done.
Qed.

Lemma truthy_true (s : string) : JS.truthy s = true ↔ s ≠ "".
Proof.
  unfold JS.truthy. destruct (String.eqb_spec s ""); simpl; split; done.
Qed.

(** C1, as the code has it.  On a [done] event delivered on an open
    socket the final content is the content of the FIRST chunk of type
    [result] of the buffer when there is one, and otherwise the
    contents of the chunks of type [text] concatenated in arrival order
    with no separator; when that content is empty the history is left
    as it is, otherwise exactly one assistant message with that content
    is appended; the buffer is cleared and [streaming] becomes false. *)
Theorem done_finalizes_first_result (w : World) (ws : nat) (sid : option string) :
  state_of ws (env w) = Some OPEN →
  let chunks := streamChunks (store w) in
  let w' := step w (WsMessage ws (InDone sid)) in
  (∀ pre R post,
      chunks = pre ++ R :: post →
      Forall (λ c, chunk_type c ≠ "result") pre →
      chunk_type R = "result" →
      finalContent chunks = chunk_content R)
  ∧ (Forall (λ c, chunk_type c ≠ "result") chunks →
     finalContent chunks = Spec.concatText chunks)
  ∧ (finalContent chunks = "" → messages (store w') = messages (store w))
  ∧ (finalContent chunks ≠ "" →
     messages (store w') =
       messages (store w) ++
         [{| msg_id := now (env w); msg_role := assistant;
             msg_content := finalContent chunks; msg_attachments := [];
             msg_timestamp := now (env w) |}])
  ∧ streamChunks (store w') = []
  ∧ streaming (store w') = false.
Proof.
  intros Hopen chunks w'. subst w'. simpl. rewrite Hopen.
  repeat split.
  - intros pre R post -> Hpre HR. unfold finalContent.
    by rewrite find_first_result.
  - intros Hno. unfold finalContent. rewrite find_no_result by done.
    apply join_text_chunks.
  - intros Hempty. unfold onmessage. simpl. fold chunks.
    apply truthy_false in Hempty. rewrite Hempty.
    by destruct (JS.truthy_opt sid).
  - intros Hne. unfold onmessage. simpl. fold chunks.
    apply truthy_true in Hne. rewrite Hne.
    by destruct (JS.truthy_opt sid).
  - unfold onmessage. simpl.
    by destruct (JS.truthy _), (JS.truthy_opt sid).
  - unfold onmessage. simpl.
    by destruct (JS.truthy _), (JS.truthy_opt sid).
Qed.

End Finalization.

Section FinalizationRuns.
Import Browser ChatStore Chat.

(** A run on which the theorem applies: text, a tool call, text again;
    the appended message reads "Hello world". *)
Lemma done_finalizes_first_result_witness :
  let w := run initial
             [SetToken (Some "tok"); Connect; WsOpen 0; SendMessage "q" [];
              WsMessage 0 (InChunk "Hello " None);
              WsMessage 0 (InChunk "ls" (Some "tool_use"));
              WsMessage 0 (InChunk "world" None)] in
  state_of 0 (env w) = Some OPEN
  ∧ messages (store (step w (WsMessage 0 (InDone None)))) =
      messages (store w) ++
        [{| msg_id := 0; msg_role := assistant; msg_content := "Hello world";
            msg_attachments := []; msg_timestamp := 0 |}].
Proof.
  intros w. split; [reflexivity|].
  destruct (done_finalizes_first_result w 0 None eq_refl) as (_ & _ & _ & H & _).
  apply H. vm_compute. discriminate.
Defined.

(** C1 as stated fails: with two [result] chunks in the buffer the
    message appended on [done] carries the content of the first one,
    not of the last one. *)
Lemma done_last_result_counterexample :
  let w := run initial
             [SetToken (Some "tok"); Connect; WsOpen 0; SendMessage "q" [];
              WsMessage 0 (InChunk "draft" (Some "result"));
              WsMessage 0 (InChunk "final" (Some "result"))] in
  let w' := step w (WsMessage 0 (InDone None)) in
  state_of 0 (env w) = Some OPEN
  ∧ Spec.lastResult (streamChunks (store w)) =
      Some {| chunk_content := "final"; chunk_type := "result" |}
  ∧ msg_content <$> last (messages (store w')) = Some "draft"
  ∧ finalContent (streamChunks (store w)) ≠ Spec.finalContent (streamChunks (store w)).
Proof. vm_compute. repeat split. discriminate. Qed.

(** A [result] chunk with empty content suppresses the message even
    when text chunks are present. *)
Example done_empty_result_suppresses :
  let w := run initial
             [SetToken (Some "tok"); Connect; WsOpen 0; SendMessage "q" [];
              WsMessage 0 (InChunk "narration" None);
              WsMessage 0 (InChunk "" (Some "result"))] in
  messages (store (step w (WsMessage 0 (InDone None)))) = messages (store w).
Proof. reflexivity. Qed.

(** Only tool chunks: nothing is appended. *)
Example done_tools_only_suppressed :
  let w := run initial
             [SetToken (Some "tok"); Connect; WsOpen 0; SendMessage "q" [];
              WsMessage 0 (InChunk "ls" (Some "tool_use"));
              WsMessage 0 (InChunk "a.txt" (Some "tool_result"))] in
  messages (store (step w (WsMessage 0 (InDone None)))) = messages (store w).
Proof. reflexivity. Qed.

End FinalizationRuns.

(* ===================================================================== *)
(** ** The first-message flag *)
(* ===================================================================== *)

Section FirstMessage.
Import Browser ChatStore Chat.

Lemma sentFirstRef_sendMessage content atts (w : World) :
  sentFirstRef (sendMessage content atts w) = sentFirstRef w.
Proof. chat_cases. Qed.

Lemma sentFirstRef_connect (w : World) : sentFirstRef (connect w) = sentFirstRef w.
Proof. chat_cases. Qed.

Lemma sentFirstRef_disconnect (w : World) : sentFirstRef (disconnect w) = sentFirstRef w.
Proof. chat_cases. Qed.

Lemma sentFirstRef_handleSend (w : World) :
  sentFirstRef (handleSend sendMessage w) = sentFirstRef w.
Proof.
  unfold handleSend. repeat case_match; try done.
  simpl. apply sentFirstRef_sendMessage.
Qed.

Lemma sentFirstRef_uploadSettled j o (w : World) :
  sentFirstRef (uploadSettled j o w) =
    match o, jobs (composer w) !! j with
    | Unauthorized, Some (Some _) => false
    | _, _ => sentFirstRef w
    end.
Proof. chat_cases. Qed.

(** How one event moves [sentFirstRef]: only a delivered [session_id]
    event sets it, only [resetFirstMessage] and a reload of the page
    clear it. *)
Lemma sentFirstRef_step (w : World) (e : Event) :
  sentFirstRef (step w e) =
    match e with
    | ResetFirstMessage => false
    | WsMessage ws (InSessionId _) =>
        match state_of ws (env w) with
        | Some OPEN => true
        | _ => sentFirstRef w
        end
    | UploadSettled j Unauthorized =>
        match jobs (composer w) !! j with
        | Some (Some _) => false
        | _ => sentFirstRef w
        end
    | _ => sentFirstRef w
    end.
Proof.
  destruct e; cbn [step];
    auto using sentFirstRef_sendMessage, sentFirstRef_connect,
      sentFirstRef_disconnect, sentFirstRef_handleSend.
  - by destruct files; chat_cases.
  - by repeat case_match.
  - rewrite sentFirstRef_uploadSettled. by destruct o.
  - destruct (state_of ws (env w)) as [[]|]; done.
  - destruct (state_of ws (env w)) as [[]|]; try done; by destruct data.
  - destruct (state_of ws (env w)) as [[]|]; done.
  - destruct (due_timer tid (env w)) as [[]|]; simpl; try done.
    by rewrite sentFirstRef_connect.
Qed.

Lemma sentFirstRef_run (tr : list Event) (w : World) :
  sentFirstRef (run w tr) = Ghost.sessionEventSinceReset w (sentFirstRef w) tr.
Proof.
  revert w. induction tr as [|e tr IH]; intros w; [done|].
  change (run w (e :: tr)) with (run (step w e) tr).
  rewrite IH, sentFirstRef_step.
  cbn [Ghost.sessionEventSinceReset].
  by destruct e.
Qed.

Lemma sentOn_sendMessage content atts (w : World) ws :
  wsRef w = Some ws →
  is_open (wsRef w) (env w) = true →
  Ghost.sentOn ws (sendMessage content atts w) =
    Ghost.sentOn ws w ++
      [{| out_content := content; out_attachments := atts;
          out_session_id := currentSessionId (store w);
          out_is_first_message :=
            negb (JS.truthy_opt (currentSessionId (store w))) || negb (sentFirstRef w) |}].
Proof.
  intros Href Hopen. unfold sendMessage. rewrite Hopen, Href. simpl.
  rewrite Href in Hopen. apply is_open_Some in Hopen as (sock & Hsock & Hst).
  unfold Ghost.sentOn. simpl. rewrite (ws_send_open _ _ _ sock) by done. simpl.
  rewrite Hsock, list_lookup_insert_eq by (by eapply lookup_lt_Some). done.
Qed.

Lemma truthy_opt_bound (o : option string) :
  JS.truthy_opt o = true ↔ ∃ s, o = Some s ∧ s ≠ "".
Proof.
  destruct o as [s|]; simpl.
  - rewrite truthy_true. split; [eauto|]. by intros (? & [= <-] & ?).
  - split; [done|]. by intros (? & ? & _).
Qed.

(** C3, as the code has it.  After any run of the hook, the message sent
    on the open socket carries [is_first_message = true] exactly when no
    session id is bound (null or empty) or no [session_id] event has been
    delivered since the page was loaded or [resetFirstMessage] was last
    called; [disconnect] leaves the flag as it is, [resetFirstMessage]
    clears it. *)
Theorem first_message_flag (tr : list Event) (content : string)
    (atts : list Attachment) :
  let w := run initial tr in
  is_open (wsRef w) (env w) = true →
  (∃ ws flag,
      wsRef w = Some ws
      ∧ Ghost.sentOn ws (sendMessage content atts w) =
          Ghost.sentOn ws w ++
            [{| out_content := content; out_attachments := atts;
                out_session_id := currentSessionId (store w);
                out_is_first_message := flag |}]
      ∧ (flag = true ↔
           ¬ (∃ s, currentSessionId (store w) = Some s ∧ s ≠ "")
           ∨ Ghost.sessionEventSinceReset initial false tr = false))
  ∧ sentFirstRef (disconnect w) = sentFirstRef w
  ∧ sentFirstRef (resetFirstMessage w) = false.
Proof.
  intros w Hopen. split; [|split; [apply sentFirstRef_disconnect|done]].
  destruct (wsRef w) as [ws|] eqn:Href; [|done].
  exists ws, (negb (JS.truthy_opt (currentSessionId (store w))) || negb (sentFirstRef w)).
  split; [done|]. split.
  - apply sentOn_sendMessage; [done|by rewrite Href].
  - rewrite <- truthy_opt_bound.
    change false with (sentFirstRef initial) at 2.
    rewrite <- sentFirstRef_run. fold w.
    destruct (JS.truthy_opt _), (sentFirstRef w); simpl; split; auto.
    intros [H|H]; [by destruct H|done].
Qed.

End FirstMessage.

Section FirstMessageRuns.
Import Browser ChatStore Chat.

(** The lifecycle of the specification's test 4: the first message of a
    fresh transport carries [true], the one after a [session_id] event
    carries [false]. *)
Lemma first_message_flag_witness :
  let tr := [SetToken (Some "tok"); Connect; WsOpen 0; SendMessage "one" [];
             WsMessage 0 (InSessionId "s1"); WsMessage 0 (InDone None)] in
  let w := run initial tr in
  is_open (wsRef w) (env w) = true
  ∧ Ghost.sentOn 0 (sendMessage "two" [] w) =
      [{| out_content := "one"; out_attachments := []; out_session_id := None;
          out_is_first_message := true |};
       {| out_content := "two"; out_attachments := [];
          out_session_id := Some "s1"; out_is_first_message := false |}].
Proof.
  intros tr w. split; [reflexivity|].
  destruct (first_message_flag tr "two" [] eq_refl)
    as ((ws & flag & Href & Hsent & Hflag) & _).
  injection Href as <-. fold w in Hsent. rewrite Hsent.
  destruct flag; [|reflexivity].
  destruct Hflag as [Hflag _]. destruct (Hflag eq_refl) as [Hno|Hno].
  - exfalso. apply Hno. exists "s1". split; [reflexivity|discriminate].
  - vm_compute in Hno. discriminate Hno.
Defined.

(** C3 as stated fails: the disposer does not reset the flag.  After a
    [session_id] event, [disconnect] and a fresh connection on which no
    [session_id] event has arrived, the next message still carries
    [is_first_message = false]. *)
Lemma first_message_disposer_counterexample :
  let tr := [SetToken (Some "tok"); Connect; WsOpen 0;
             WsMessage 0 (InSessionId "s1"); Disconnect; WsClose 0;
             Connect; WsOpen 1] in
  let w := run initial tr in
  Spec.sessionEventSinceDispose initial false tr = false
  ∧ wsRef w = Some 1
  ∧ is_open (wsRef w) (env w) = true
  ∧ Ghost.sentOn 1 (sendMessage "hello" [] w) =
      [{| out_content := "hello"; out_attachments := [];
          out_session_id := Some "s1"; out_is_first_message := false |}]
  ∧ ¬ (out_is_first_message <$> last (Ghost.sentOn 1 (sendMessage "hello" [] w))
       = Some (negb (Spec.sessionEventSinceDispose initial false tr))).
Proof. vm_compute. repeat split. discriminate. Qed.

(** C10.  A [done] event never touches the first-message flag, and binds
    the session id it carries when that id is non-empty; a [session_id]
    event binds the id and sets the flag.  Hence the run connect, send,
    [done] carrying "s1", send again: the second message goes out with
    [session_id = "s1"] and [is_first_message = true]. *)
Theorem done_binds_session_keeps_flag :
  (∀ (w : World) (sid : option string),
      sentFirstRef (onmessage (InDone sid) w) = sentFirstRef w
      ∧ currentSessionId (store (onmessage (InDone sid) w)) =
          (if JS.truthy_opt sid then sid else currentSessionId (store w)))
  ∧ (∀ (w : World) (sid : string),
      sentFirstRef (onmessage (InSessionId sid) w) = true
      ∧ currentSessionId (store (onmessage (InSessionId sid) w)) = Some sid)
  ∧ Ghost.sentOn 0
      (run initial
         [SetToken (Some "tok"); Connect; WsOpen 0; SendMessage "one" [];
          WsMessage 0 (InDone (Some "s1")); SendMessage "two" []]) =
      [{| out_content := "one"; out_attachments := []; out_session_id := None;
          out_is_first_message := true |};
       {| out_content := "two"; out_attachments := [];
          out_session_id := Some "s1"; out_is_first_message := true |}].
Proof.
  split; [|split].
  - intros w sid. unfold onmessage. simpl.
    destruct (JS.truthy _), (JS.truthy_opt sid); done.
  - done.
  - reflexivity.
Qed.

End FirstMessageRuns.

(* ===================================================================== *)
(** ** The Aggregation Buffer and the streaming flag *)
(* ===================================================================== *)

Section Buffer.
Import Browser ChatStore Chat.

(** [done] and [error] clear the buffer and end the exchange. *)
Lemma done_error_clear (w : World) (data : Inbound) :
  (∃ sid, data = InDone sid) ∨ (∃ m, data = InError m) →
  streamChunks (store (onmessage data w)) = []
  ∧ streaming (store (onmessage data w)) = false.
Proof. intros [[sid ->]|[m ->]]; chat_cases. Qed.

(** A submission that goes out starts the exchange on an empty buffer. *)
Lemma sendMessage_starts_exchange content atts (w : World) :
  is_open (wsRef w) (env w) = true →
  streamChunks (store (sendMessage content atts w)) = []
  ∧ streaming (store (sendMessage content atts w)) = true.
Proof. intros H. unfold sendMessage. rewrite H. simpl. by destruct (wsRef w). Qed.

(** What a submission does to the store in either case. *)
Lemma sendMessage_store content atts (w : World) :
  store (sendMessage content atts w) = store w
  ∨ (streamChunks (store (sendMessage content atts w)) = []
     ∧ streaming (store (sendMessage content atts w)) = true).
Proof. unfold sendMessage. repeat case_match; simpl; auto. Qed.

Lemma connect_store (w : World) : store (connect w) = store w.
Proof. chat_cases. Qed.

Lemma handleFileUpload_store files (w : World) :
  store (handleFileUpload files w) = store w.
Proof. destruct files; chat_cases. Qed.

(** A settled upload leaves the store alone, unless the page reloads. *)
Lemma uploadSettled_store j o (w : World) :
  store (uploadSettled j o w) = store w
  ∨ store (uploadSettled j o w) = ChatStore.create.
Proof. destruct o; chat_cases; auto. Qed.

(** One event keeps the invariant, unless it is a [chunk] arriving
    outside an exchange. *)
Lemma buffer_invariant_step (w : World) (e : Event) :
  Ghost.bufferOnlyWhileStreaming (store w) →
  match e with
  | WsMessage _ (InChunk _ _) => streaming (store w) = true
  | _ => True
  end →
  Ghost.bufferOnlyWhileStreaming (store (step w e)).
Proof.
  unfold Ghost.bufferOnlyWhileStreaming. intros Hinv He.
  destruct e; simpl; try done.
  - by rewrite connect_store.
  - unfold disconnect. by destruct (wsRef w).
  - by destruct (sendMessage_store content atts w) as [->|[-> ->]].
  - unfold handleSend.
    destruct (_ && _); [done|]. destruct (streaming (store w)) eqn:Hs; [by rewrite Hs|].
    simpl.
    destruct (sendMessage_store (JS.trim (input (composer w)))
                (map toAttachment (attachments (composer w))) w) as [->|[-> ->]];
      [by rewrite Hs|done].
  - by rewrite handleFileUpload_store.
  - by repeat case_match.
  - by destruct (uploadSettled_store job o w) as [-> | ->].
  - by repeat case_match.
  - destruct (state_of ws (env w)) as [[]|]; try done.
    destruct data; try done; chat_cases.
  - by repeat case_match.
  - destruct (due_timer tid (env w)) as [[]|]; simpl; try done.
    by rewrite connect_store.
Qed.

Lemma buffer_invariant_run (tr : list Event) (w : World) :
  Ghost.bufferOnlyWhileStreaming (store w) →
  Ghost.chunksWhileStreaming w tr = true →
  Ghost.bufferOnlyWhileStreaming (store (run w tr)).
Proof.
  revert w. induction tr as [|e tr IH]; intros w Hinv Hok; [done|].
  change (run w (e :: tr)) with (run (step w e) tr).
  cbn [Ghost.chunksWhileStreaming] in Hok.
  apply andb_prop in Hok as [He Hok].
  apply IH; [|done].
  apply buffer_invariant_step; [done|]. by destruct e as [| | | | | | | | | | | | | | |? []| | |].
Qed.

(** C9, as the code has it.  Along every run in which [chunk] events
    arrive only while [streaming] is set, the buffer is non-empty only
    while streaming; whatever the run, a delivered [done] or [error]
    leaves the buffer empty and [streaming] false, and a submission that
    goes out leaves the buffer empty and [streaming] true. *)
Theorem buffer_only_while_streaming (tr : list Event) :
  Ghost.chunksWhileStreaming initial tr = true →
  let w := run initial tr in
  Ghost.bufferOnlyWhileStreaming (store w)
  ∧ (∀ ws sid,
        state_of ws (env w) = Some OPEN →
        streamChunks (store (step w (WsMessage ws (InDone sid)))) = []
        ∧ streaming (store (step w (WsMessage ws (InDone sid)))) = false)
  ∧ (∀ ws m,
        state_of ws (env w) = Some OPEN →
        streamChunks (store (step w (WsMessage ws (InError m)))) = []
        ∧ streaming (store (step w (WsMessage ws (InError m)))) = false)
  ∧ (∀ content atts,
        is_open (wsRef w) (env w) = true →
        streamChunks (store (step w (SendMessage content atts))) = []
        ∧ streaming (store (step w (SendMessage content atts))) = true).
Proof.
  intros Hok w. split; [|split; [|split]].
  - apply buffer_invariant_run; [|done]. intros Hne. by destruct Hne.
  - intros ws sid Hopen. cbn [step]. rewrite Hopen. apply done_error_clear. eauto.
  - intros ws m Hopen. cbn [step]. rewrite Hopen. apply done_error_clear. eauto.
  - intros content atts Hopen. cbn [step]. by apply sendMessage_starts_exchange.
Qed.

End Buffer.

Section BufferRuns.
Import Browser ChatStore Chat.

(** An exchange in progress: two chunks buffered while streaming. *)
Lemma buffer_only_while_streaming_witness :
  let tr := [SetToken (Some "tok"); Connect; WsOpen 0; SendMessage "q" [];
             WsMessage 0 (InChunk "a" None);
             WsMessage 0 (InChunk "b" (Some "tool_use"))] in
  Ghost.chunksWhileStreaming initial tr = true
  ∧ length (streamChunks (store (run initial tr))) = 2
  ∧ streaming (store (run initial tr)) = true.
Proof.
  intros tr. split; [reflexivity|]. split; [reflexivity|].
  destruct (buffer_only_while_streaming tr eq_refl) as (Hinv & _).
  apply Hinv. vm_compute. discriminate.
Defined.

(** C9 as stated fails: the dispatcher appends a [chunk] whatever the
    streaming flag.  A chunk that arrives after [done] sits in the buffer
    while [streaming] is false. *)
Lemma buffer_without_streaming_counterexample :
  let w := run initial
             [SetToken (Some "tok"); Connect; WsOpen 0; SendMessage "q" [];
              WsMessage 0 (InChunk "answer" None); WsMessage 0 (InDone None);
              WsMessage 0 (InChunk "late" None)] in
  streamChunks (store w) = [{| chunk_content := "late"; chunk_type := "text" |}]
  ∧ streaming (store w) = false
  ∧ ¬ Ghost.bufferOnlyWhileStreaming (store w).
Proof.
  simpl. split; [reflexivity|]. split; [reflexivity|].
  intros H. specialize (H ltac:(vm_compute; discriminate)). vm_compute in H.
  discriminate H.
Qed.

End BufferRuns.

(* ===================================================================== *)
(** ** Submissions while streaming and sends on a closed transport *)
(* ===================================================================== *)

Section Submission.
Import Browser ChatStore.

(** C4.  A submission attempted in the composer while [streaming] is set
    returns before [onSend] is called, whatever [onSend] is: the world is
    left as it was, so nothing is sent, nothing is queued, the typed text
    and the pending attachments stay, and the Aggregation Buffer is the
    same.  The exclusion is the composer's alone: the hook's own
    [sendMessage], called on an open socket in the same state, sends its
    frame and empties the Aggregation Buffer. *)
Theorem handleSend_rejected_while_streaming
    (onSend : string → list Attachment → Chat.World → Chat.World)
    (w : Chat.World) :
  streaming (Chat.store w) = true →
  Chat.handleSend onSend w = w
  ∧ Chat.step w Chat.HandleSend = w
  ∧ streamChunks (Chat.store (Chat.step w Chat.HandleSend)) = streamChunks (Chat.store w)
  ∧ sockets (Chat.env (Chat.step w Chat.HandleSend)) = sockets (Chat.env w)
  ∧ timers (Chat.env (Chat.step w Chat.HandleSend)) = timers (Chat.env w)
  ∧ (∀ ws content atts,
       Chat.wsRef w = Some ws → is_open (Chat.wsRef w) (Chat.env w) = true →
       let w' := Chat.step w (Chat.SendMessage content atts) in
       length (Ghost.sentOn ws w') = S (length (Ghost.sentOn ws w))
       ∧ streamChunks (Chat.store w') = []).
Proof.
  intros Hs.
  assert (Hgate : ∀ f, Chat.handleSend f w = w).
  { intros f. unfold Chat.handleSend. rewrite Hs. by destruct (_ && _). }
  cbn [Chat.step]. rewrite !Hgate. do 5 (split; [done|]).
  intros ws content atts Href Hopen. cbv zeta. split.
  - rewrite (sentOn_sendMessage content atts w ws Href Hopen), length_app. simpl. lia.
  - unfold Chat.sendMessage. rewrite Hopen, Href. done.
Qed.

(** C5.  A send on a transport that is not open is dropped: the chat
    hook's [sendMessage], the shell's [sendCommand] and [sendKey] and the
    command runner's [sendCommand] return the world they were given, so
    no frame is transmitted and neither the history, the streaming flag
    nor the Aggregation Buffer change. *)
Theorem send_dropped_when_not_open
    (cw : Chat.World) (tw : Terminal.World) (rw : Runner.World)
    (content : string) (atts : list Attachment) (payload : string) :
  is_open (Chat.wsRef cw) (Chat.env cw) = false →
  is_open (Terminal.wsRef tw) (Terminal.env tw) = false →
  is_open (Runner.wsRef rw) (Runner.env rw) = false →
  Chat.sendMessage content atts cw = cw
  ∧ Chat.step cw (Chat.SendMessage content atts) = cw
  ∧ Terminal.sendCommand payload tw = tw
  ∧ Terminal.sendKey payload tw = tw
  ∧ Terminal.step tw (Terminal.SendCommand payload) = tw
  ∧ Terminal.step tw (Terminal.SendKey payload) = tw
  ∧ Runner.sendCommand payload rw = rw
  ∧ Runner.step rw (Runner.QuickCommand payload) = rw.
Proof.
  intros Hc Ht Hr.
  assert (Chat.sendMessage content atts cw = cw) as Hchat.
  { unfold Chat.sendMessage. by rewrite Hc. }
  assert (∀ f, Terminal.send_if_open f tw = tw) as Hterm.
  { intros f. unfold Terminal.send_if_open. by rewrite Ht. }
  assert (Runner.sendCommand payload rw = rw) as Hrun.
  { unfold Runner.sendCommand. by rewrite Hr. }
  cbn [Chat.step Terminal.step Runner.step].
  unfold Terminal.sendCommand, Terminal.sendKey.
  rewrite Hchat, Hrun, !Hterm. done.
Qed.

End Submission.

Section SubmissionRuns.
Import Browser ChatStore.

(** A second submission typed while the first exchange is streaming. *)
Lemma handleSend_rejected_while_streaming_witness :
  let w := Chat.run Chat.initial
             [Chat.SetToken (Some "tok"); Chat.Connect; Chat.WsOpen 0;
              Chat.SetInput "first"; Chat.HandleSend;
              Chat.WsMessage 0 (Chat.InChunk "partial" None);
              Chat.SetInput "second"] in
  streaming (Chat.store w) = true
  ∧ Chat.step w Chat.HandleSend = w
  ∧ length (Ghost.sentOn 0 (Chat.step w Chat.HandleSend)) = 1.
Proof.
  intros w. split; [reflexivity|].
  destruct (handleSend_rejected_while_streaming Chat.sendMessage w eq_refl)
    as (_ & H & _).
  split; [exact H|]. rewrite H. reflexivity.
Defined.

(** C4 as stated fails for the hook's own [sendMessage], which does not
    look at [streaming]: submitted through it while an exchange is
    streaming, a second message is sent and added to the history, and
    the Aggregation Buffer is emptied. *)
Lemma submission_while_streaming_counterexample :
  let w := Chat.run Chat.initial
             [Chat.SetToken (Some "tok"); Chat.Connect; Chat.WsOpen 0;
              Chat.SendMessage "first" [];
              Chat.WsMessage 0 (Chat.InChunk "partial" None)] in
  let w' := Chat.step w (Chat.SendMessage "second" []) in
  streaming (Chat.store w) = true
  ∧ length (streamChunks (Chat.store w)) = 1
  ∧ length (Ghost.sentOn 0 w) = 1
  ∧ length (Ghost.sentOn 0 w') = 2
  ∧ length (messages (Chat.store w')) = S (length (messages (Chat.store w)))
  ∧ streamChunks (Chat.store w') = []
  ∧ w' ≠ w.
Proof.
  cbv zeta. split; [reflexivity|]. split; [reflexivity|]. split; [reflexivity|].
  split; [reflexivity|]. split; [reflexivity|]. split; [reflexivity|].
  intros H. apply (f_equal (λ x, length (streamChunks (Chat.store x)))) in H.
  vm_compute in H. discriminate H.
Qed.

(** The drop is silent for the composer too: with the socket closed
    [handleSend] still clears the typed text, and nothing was sent. *)
Example handleSend_on_closed_socket_loses_text :
  let w := Chat.run Chat.initial
             [Chat.SetToken (Some "tok"); Chat.Connect; Chat.WsOpen 0;
              Chat.WsClose 0; Chat.SetInput "hello"] in
  let w' := Chat.step w Chat.HandleSend in
  Chat.input (Chat.composer w') = ""
  ∧ Ghost.sentOn 0 w' = []
  ∧ Chat.store w' = Chat.store w.
Proof. repeat split. Qed.

(** Sends while the chat socket is still connecting, after the shell
    socket has closed, and before the runner has connected at all. *)
Lemma send_dropped_when_not_open_witness :
  let cw := Chat.run Chat.initial [Chat.SetToken (Some "tok"); Chat.Connect] in
  let tw := Terminal.run Terminal.initial
              [Terminal.SetToken (Some "tok"); Terminal.Mount; Terminal.WsOpen 0;
               Terminal.WsClose 0] in
  let rw := Runner.initial in
  is_open (Chat.wsRef cw) (Chat.env cw) = false
  ∧ is_open (Terminal.wsRef tw) (Terminal.env tw) = false
  ∧ is_open (Runner.wsRef rw) (Runner.env rw) = false
  ∧ Chat.step cw (Chat.SendMessage "hello" []) = cw
  ∧ Terminal.step tw (Terminal.SendKey "x") = tw
  ∧ Runner.step rw (Runner.QuickCommand "ls") = rw.
Proof.
  intros cw tw rw. split; [reflexivity|]. split; [reflexivity|]. split; [reflexivity|].
  destruct (send_dropped_when_not_open cw tw rw "hello" [] "ls" eq_refl eq_refl eq_refl)
    as (_ & H1 & _ & _ & _ & _ & _ & H3).
  destruct (send_dropped_when_not_open cw tw rw "hello" [] "x" eq_refl eq_refl eq_refl)
    as (_ & _ & _ & _ & _ & H2 & _).
  split; [exact H1|]. split; [exact H2|exact H3].
Defined.

End SubmissionRuns.

(* ===================================================================== *)
(** ** Reconnect and teardown *)
(* ===================================================================== *)

Section Reconnect.
Import Browser.

(** Both transports answer a close event with one timer for [connect],
    due 3000 ms later; the shell keeps its id, the chat hook drops it. *)
Lemma chat_close_schedules_reconnect (w : Chat.World) (ws : nat) (st : ReadyState) :
  state_of ws (Chat.env w) = Some st → st ≠ CLOSED →
  let w' := Chat.step w (Chat.WsClose ws) in
  timers (Chat.env w') =
    timers (Chat.env w) ++
      [Some {| due := now (Chat.env w) + 3000; callback := Chat.CbConnect |}]
  ∧ state_of ws (Chat.env w') = Some CLOSED.
Proof.
  intros Hst Hne. cbn [Chat.step]. rewrite Hst.
  unfold state_of in *. destruct (sockets (Chat.env w) !! ws) as [sock|] eqn:E; [|done].
  assert (ws < length (sockets (Chat.env w))) by (by eapply lookup_lt_Some).
  destruct st; try done; unfold Chat.onclose, transition; simpl; rewrite E; simpl;
    by rewrite list_lookup_insert_eq.
Qed.

Lemma shell_close_schedules_reconnect (w : Terminal.World) (ws : nat) (st : ReadyState) :
  state_of ws (Terminal.env w) = Some st → st ≠ CLOSED →
  let w' := Terminal.step w (Terminal.WsClose ws) in
  timers (Terminal.env w') =
    timers (Terminal.env w) ++
      [Some {| due := now (Terminal.env w) + 3000; callback := Terminal.CbConnect |}]
  ∧ Terminal.reconnectTimer w' = Some (length (timers (Terminal.env w)))
  ∧ state_of ws (Terminal.env w') = Some CLOSED.
Proof.
  intros Hst Hne. cbn [Terminal.step]. rewrite Hst.
  unfold state_of in *.
  destruct (sockets (Terminal.env w) !! ws) as [sock|] eqn:E; [|done].
  assert (ws < length (sockets (Terminal.env w))) by (by eapply lookup_lt_Some).
  destruct st; try done;
    unfold Terminal.onclose, Terminal.term_write, transition; simpl; rewrite E;
    destruct (Terminal.termRef w); simpl; by rewrite list_lookup_insert_eq.
Qed.


Lemma shell_timer_not_early (w : Terminal.World) (tid : nat)
    (t : Timer Terminal.Callback) :
  timers (Terminal.env w) !! tid = Some (Some t) →
  now (Terminal.env w) < due t →
  Terminal.step w (Terminal.TimerFire tid) = w.
Proof. intros H Hlt. cbn [Terminal.step]. by rewrite (due_timer_early _ _ t). Qed.

(** The chat disposer cancels no timer. *)
Lemma chat_disconnect_keeps_timers (w : Chat.World) :
  timers (Chat.env (Chat.disconnect w)) = timers (Chat.env w).
Proof.
  unfold Chat.disconnect. destruct (Chat.wsRef w) as [ws|]; [|done].
  simpl. unfold ws_close. by destruct (sockets (Chat.env w) !! ws).
Qed.

Lemma chat_disconnect_frame (w : Chat.World) :
  token (Chat.env (Chat.disconnect w)) = token (Chat.env w)
  ∧ now (Chat.env (Chat.disconnect w)) = now (Chat.env w)
  ∧ length (sockets (Chat.env (Chat.disconnect w))) = length (sockets (Chat.env w))
  ∧ Chat.wsRef (Chat.disconnect w) = None.
Proof.
  unfold Chat.disconnect. destruct (Chat.wsRef w) as [ws|]; [|done].
  simpl. unfold ws_close. destruct (sockets (Chat.env w) !! ws); [|done].
  simpl. by rewrite length_insert.
Qed.

(** Whatever the state of the chat hook, a reconnect that is pending when
    [disconnect] is called still connects once it is due. *)
Lemma chat_pending_reconnect_survives_disconnect
    (w : Chat.World) (tid d ms : nat) (tok : string) :
  timers (Chat.env w) !! tid = Some (Some {| due := d; callback := Chat.CbConnect |}) →
  token (Chat.env w) = Some tok → tok ≠ "" →
  d ≤ now (Chat.env w) + ms →
  let n := length (sockets (Chat.env w)) in
  let w' := Chat.run w [Chat.Disconnect; Chat.Elapse ms; Chat.TimerFire tid] in
  length (sockets (Chat.env w')) = S n
  ∧ Chat.wsRef w' = Some n
  ∧ state_of n (Chat.env w') = Some CONNECTING.
Proof.
  intros Htid Htok Hne Hd n w'. subst w'.
  change (Chat.run w [Chat.Disconnect; Chat.Elapse ms; Chat.TimerFire tid])
    with (Chat.step (Chat.step (Chat.disconnect w) (Chat.Elapse ms)) (Chat.TimerFire tid)).
  destruct (chat_disconnect_frame w) as (Htok' & Hnow' & Hlen' & _).
  pose proof (chat_disconnect_keeps_timers w) as Htimers'.
  set (w1 := Chat.disconnect w) in *. clearbody w1.
  assert (due_timer tid (Chat.env (Chat.step w1 (Chat.Elapse ms))) = Some Chat.CbConnect)
    as Hdue.
  { apply due_timer_Some. eexists. cbn. rewrite Htimers'. split; [exact Htid|].
    cbn. rewrite Hnow'. split; [lia|done]. }
  set (w2 := Chat.step w1 (Chat.Elapse ms)) in *.
  assert (token (Chat.env w2) = Some tok ∧ length (sockets (Chat.env w2)) = n) as [Htok2 Hlen2].
  { subst w2. cbn. by rewrite Htok', Hlen'. }
  clearbody w2.
  cbn [Chat.step]. rewrite Hdue. cbn [Chat.runCallback].
  unfold Chat.connect. cbn [Chat.env Chat.with_env token clearTimeout with_timers].
  rewrite Htok2. apply truthy_true in Hne. rewrite Hne.
  unfold newWebSocket, state_of. cbn. rewrite length_app, Hlen2. cbn.
  split; [lia|]. split; [done|].
  rewrite lookup_app_r by lia. by rewrite Hlen2, Nat.sub_diag.
Qed.

(** C2 on the chat transport.  The close event schedules the reconnect
    at exactly 3000 ms, but [disconnect] called mid-backoff cancels
    nothing: the timer stays pending and, once due, opens a second
    socket that becomes the current one. *)
Theorem chat_teardown_mid_backoff_reconnects :
  let w0 := Chat.run Chat.initial
              [Chat.SetToken (Some "tok"); Chat.Connect; Chat.WsOpen 0;
               Chat.WsClose 0; Chat.Elapse 1000] in
  let w1 := Chat.step w0 Chat.Disconnect in
  let w2 := Chat.run w1 [Chat.Elapse 2000; Chat.TimerFire 0] in
  pending (Chat.env w0) = [{| due := 3000; callback := Chat.CbConnect |}]
  ∧ pending (Chat.env w1) = [{| due := 3000; callback := Chat.CbConnect |}]
  ∧ Chat.wsRef w1 = None
  ∧ length (sockets (Chat.env w1)) = 1
  ∧ Chat.step w1 (Chat.TimerFire 0) = w1
  ∧ length (sockets (Chat.env w2)) = 2
  ∧ state_of 1 (Chat.env w2) = Some CONNECTING
  ∧ Chat.wsRef w2 = Some 1.
Proof. repeat split. Qed.

(** A disposal while connected fares no better: the close event that
    follows [disconnect] schedules a reconnect of its own. *)
Example chat_teardown_while_open_reconnects :
  let w := Chat.run Chat.initial
             [Chat.SetToken (Some "tok"); Chat.Connect; Chat.WsOpen 0;
              Chat.Disconnect; Chat.WsClose 0; Chat.Elapse 3000;
              Chat.TimerFire 0] in
  length (sockets (Chat.env w)) = 2 ∧ Chat.wsRef w = Some 1.
Proof. repeat split. Qed.

(** The command runner shares the chat hook's pattern: its cleanup
    leaves the reconnect pending as well. *)
Example runner_teardown_mid_backoff_reconnects :
  let w := Runner.run Runner.initial
             [Runner.SetToken (Some "tok"); Runner.Mount; Runner.WsOpen 0;
              Runner.WsClose 0; Runner.Elapse 1000; Runner.Unmount;
              Runner.Elapse 2000; Runner.TimerFire 0] in
  length (sockets (Runner.env w)) = 2 ∧ Runner.wsRef w = Some 1.
Proof. repeat split. Qed.

End Reconnect.

Section ShellTeardown.
Import Browser Terminal ShellGhost.

Lemma state_of_torn_down (w : World) (ws : nat) :
  torn_down w → state_of ws (env w) = Some CLOSED ∨ state_of ws (env w) = None.
Proof.
  intros (_ & _ & Hall). unfold state_of.
  destruct (sockets (env w) !! ws) as [sock|] eqn:E; [|by right].
  left. simpl. f_equal. by eapply (Forall_lookup_1 _ _ _ _ Hall).
Qed.

Lemma handleFiles_sockets (files : list File) (w : World) :
  sockets (env (handleFiles files w)) = sockets (env w)
  ∧ termRef (handleFiles files w) = termRef w
  ∧ wsRef (handleFiles files w) = wsRef w.
Proof.
  unfold handleFiles. revert w.
  induction files as [|f files IH]; intros w; [done|].
  simpl. destruct (IH (handleFileUpload f w)) as (-> & -> & ->). done.
Qed.

(** Reloading the page changes nothing about sockets already closed. *)
Lemma reload_closed {F C : Type} (b : Env F C) :
  Forall (λ sock, readyState sock = CLOSED) (sockets b) →
  sockets (reload b) = sockets b.
Proof.
  unfold reload. cbn [sockets].
  induction 1 as [|sock l Hsock _ IH]; [done|].
  rewrite fmap_cons, IH. f_equal.
  destruct sock. simpl in Hsock. by subst.
Qed.

Lemma doFit_no_term (w : World) : termRef w = None → doFit w = w.
Proof.
  intros Ht. unfold doFit, fit. rewrite Ht. destruct (layout w); by rewrite ?Ht.
Qed.

(** [connect] gives up when the terminal is gone. *)
Lemma connect_no_term (w : World) : termRef w = None → connect w = w.
Proof. intros Ht. unfold connect. rewrite Ht. by destruct (token _). Qed.

(** Without a new mount a torn-down bridge stays as it is: no event
    creates, opens or touches a socket. *)
Lemma torn_down_step (w : World) (e : Event) :
  torn_down w → e ≠ Mount →
  torn_down (step w e) ∧ sockets (env (step w e)) = sockets (env w).
Proof.
  intros Hd Hne. pose proof Hd as (Ht & Hr & Hall).
  assert (Hsend : ∀ f, send_if_open f w = w).
  { intros f. unfold send_if_open. by rewrite Hr. }
  unfold torn_down.
  destruct e; cbn [step]; try done; clear Hne; rewrite ?Ht.
  - done.
  - unfold sendCommand. by rewrite Hsend.
  - unfold sendKey. by rewrite Hsend.
  - unfold handleMobileSend. rewrite Hsend. by destruct (negb _).
  - done.
  - done.
  - destruct (handleFiles_sockets files w) as (Hs & Ht' & Hr').
    by rewrite Hs, Ht', Hr'.
  - unfold uploadSettled. destruct (jobs w !! job) as [[file|]|]; [|done|done].
    destruct o; [by rewrite Hsend|unfold term_write; by rewrite Ht|].
    cbn [loaded termRef wsRef env]. unfold unauthorized.
    rewrite reload_closed by exact Hall. done.
  - destruct (observing (with_layout l w)); [|done].
    by rewrite doFit_no_term.
  - by destruct (state_of_torn_down w ws Hd) as [->| ->].
  - by destruct (state_of_torn_down w ws Hd) as [->| ->].
  - by destruct (state_of_torn_down w ws Hd) as [->| ->].
  - by destruct (state_of_torn_down w ws Hd) as [->| ->].
  - destruct (due_timer tid (env w)) as [[]|]; [| |done].
    + cbn [runCallback]. by rewrite connect_no_term.
    + cbn [runCallback]. by rewrite doFit_no_term.
Qed.

Lemma torn_down_run (tr : list Event) (w : World) :
  torn_down w → Mount ∉ tr →
  torn_down (run w tr) ∧ sockets (env (run w tr)) = sockets (env w).
Proof.
  revert w. induction tr as [|e tr IH]; intros w Hd Hno; [done|].
  change (run w (e :: tr)) with (run (step w e) tr).
  apply not_elem_of_cons in Hno as [Hne Hno].
  destruct (torn_down_step w e Hd (not_eq_sym Hne)) as [Hd' Hs].
  destruct (IH _ Hd' Hno) as [Hd'' Hs']. split; [done|congruence].
Qed.

(** The shell bridge does what C2 asks.  Torn down 1000 ms into the
    backoff, the cleanup clears the reconnect timer (and the retry
    timers), calls [close] once on the socket, and after that no run
    without a new mount creates a socket. *)
Lemma shell_teardown_mid_backoff (tr : list Event) :
  let w0 := run initial [SetToken (Some "tok"); Mount; WsOpen 0; WsClose 0; Elapse 1000] in
  let w1 := step w0 Unmount in
  Mount ∉ tr →
  reconnectTimer w0 = Some 3
  ∧ timers (env w0) !! 3 = Some (Some {| due := 3000; callback := CbConnect |})
  ∧ pending (env w1) = []
  ∧ closeCalls <$> sockets (env w1) !! 0 = Some 1
  ∧ sockets (env (run w1 tr)) = sockets (env w1)
  ∧ length (sockets (env (run w1 tr))) = 1.
Proof.
  intros w0 w1 Hno.
  assert (Hd : torn_down w1).
  { split; [done|]. split; [done|]. vm_compute. by repeat constructor. }
  destruct (torn_down_run tr w1 Hd Hno) as [_ Hs].
  rewrite Hs. by repeat split.
Qed.

End ShellTeardown.

(* ===================================================================== *)
(** ** Uploads *)
(* ===================================================================== *)

Section Uploads.
Import Browser.


Lemma shell_sentOn_send (w : Terminal.World) (ws : nat) (sock : WebSocket Terminal.Frame)
    (f : Terminal.Frame) :
  Terminal.wsRef w = Some ws →
  sockets (Terminal.env w) !! ws = Some sock →
  readyState sock = OPEN →
  sockets (Terminal.env (Terminal.send_if_open f w)) =
    <[ws := push_frame f sock]> (sockets (Terminal.env w))
  ∧ Terminal.termRef (Terminal.send_if_open f w) = Terminal.termRef w.
Proof.
  intros Href Hsock Hopen. unfold Terminal.send_if_open.
  assert (is_open (Terminal.wsRef w) (Terminal.env w) = true) as ->.
  { rewrite Href. apply is_open_Some. eauto. }
  rewrite Href. simpl. by rewrite (ws_send_open _ _ _ sock).
Qed.


(** The rest of the loop touches neither notice, timers, sockets nor
    store; it issues at most the request for the next file. *)
Lemma uploadNext_frame (j : nat) (job : Chat.UploadJob) (w1 : Chat.World) :
  let w' := Chat.uploadNext j job w1 in
  Chat.uploadError (Chat.composer w') = Chat.uploadError (Chat.composer w1)
  ∧ timers (Chat.env w') = timers (Chat.env w1)
  ∧ now (Chat.env w') = now (Chat.env w1)
  ∧ sockets (Chat.env w') = sockets (Chat.env w1)
  ∧ uploadRequests (Chat.env w') =
      uploadRequests (Chat.env w1) ++ take 1 (Chat.job_rest job)
  ∧ Chat.wsRef w' = Chat.wsRef w1
  ∧ Chat.store w' = Chat.store w1.
Proof.
  unfold Chat.uploadNext, Chat.startFile.
  destruct (Chat.job_rest job) as [|next rest]; simpl.
  - by rewrite app_nil_r.
  - by destruct (Chat.isImageFile next).
Qed.



End Uploads.


(* ===================================================================== *)
(** ** Resize negotiation *)
(* ===================================================================== *)

Section Resize.
Import Browser Terminal ShellGhost.








Lemma mount_eq (w0 : World) :
  mount w0 =
    with_observing true
      (connect (scheduleRetries RETRY_DELAYS
         (doFit (with_termRef (Some {| cols := 80; rows := 24; written := [] |}) w0)))).
Proof. reflexivity. Qed.

Lemma env_with_observing (b : bool) (w : World) : env (with_observing b w) = env w.
Proof. reflexivity. Qed.




End Resize.

(** *** Each file is requested at most once *)

Section UploadAccounting.
Import Browser.

Lemma sum_list_with_insert {A : Type} (f : A → nat) (l : list A) (i : nat) (x y : A) :
  l !! i = Some x →
  sum_list_with f (<[i := y]> l) + f x = sum_list_with f l + f y.
Proof.
  revert i. induction l as [|a l IH]; intros [|i] Hi; simplify_eq/=.
  - lia.
  - specialize (IH i Hi). lia.
Qed.

Lemma chat_requests_step (w : Chat.World) (e : Chat.Event) :
  length (uploadRequests (Chat.env (Chat.step w e))) + Ghost.filesQueued (Chat.step w e)
  ≤ length (uploadRequests (Chat.env w)) + Ghost.filesQueued w + Ghost.filesOf e.
Proof.
  unfold Ghost.filesQueued.
  destruct e; cbn [Chat.step Ghost.filesOf].
  - unfold Chat.connect, newWebSocket. repeat case_match; simpl; lia.
  - unfold Chat.disconnect, ws_close. repeat case_match; simpl; lia.
  - simpl. lia.
  - unfold Chat.sendMessage, ws_send. repeat case_match; simpl; lia.
  - simpl. lia.
  - unfold Chat.handleSend, Chat.sendMessage, ws_send. repeat case_match; simpl; lia.
  - destruct files as [|file rest]; [simpl; lia|].
    unfold Chat.handleFileUpload, Chat.startFile. simpl.
    destruct (Chat.isImageFile file); simpl;
      rewrite length_app, sum_list_with_app; simpl; lia.
  - destruct (Chat.jobs (Chat.composer w) !! job) as [[?|]|]; simpl; lia.
  - unfold Chat.uploadSettled.
    destruct (Chat.jobs (Chat.composer w) !! job) as [[j|]|] eqn:Hj; [|lia|lia].
    assert (∀ w1, Chat.jobs (Chat.composer w1) = Chat.jobs (Chat.composer w) →
              length (uploadRequests (Chat.env (Chat.uploadNext job j w1)))
              + sum_list_with
                  (λ o, match o with
                        | Some job0 => length (Chat.job_rest job0)
                        | None => 0
                        end)
                  (Chat.jobs (Chat.composer (Chat.uploadNext job j w1)))
              ≤ length (uploadRequests (Chat.env w1))
                + sum_list_with
                    (λ o, match o with
                          | Some job0 => length (Chat.job_rest job0)
                          | None => 0
                          end)
                    (Chat.jobs (Chat.composer w))) as Hnext.
    { intros w1 Hjobs. unfold Chat.uploadNext, Chat.startFile.
      destruct (Chat.job_rest j) as [|next rest] eqn:Hrest; simpl.
      - rewrite Hjobs.
        pose proof (sum_list_with_insert
          (λ o, match o with
                | Some job0 => length (Chat.job_rest job0)
                | None => 0
                end) _ job _ None Hj) as Hsum.
        simpl in Hsum. lia.
      - destruct (Chat.isImageFile next); simpl; rewrite Hjobs, length_app;
          pose proof (sum_list_with_insert
            (λ o, match o with
                  | Some job0 => length (Chat.job_rest job0)
                  | None => 0
                  end) _ job _
            (Some {| Chat.job_file := next; Chat.job_preview := None;
                     Chat.job_rest := rest |}) Hj) as Hsum;
          pose proof (sum_list_with_insert
            (λ o, match o with
                  | Some job0 => length (Chat.job_rest job0)
                  | None => 0
                  end) _ job _
            (Some {| Chat.job_file := next;
                     Chat.job_preview := Some (Chat.objectUrls (Chat.composer w1));
                     Chat.job_rest := rest |}) Hj) as Hsum';
          simpl in Hsum, Hsum'; rewrite Hrest in Hsum, Hsum'; simpl in *; lia. }
    destruct o.
    + etrans; [apply Hnext; done|]. simpl. lia.
    + etrans; [apply Hnext; unfold Chat.uploadRejected, Chat.revoke; by destruct (Chat.job_preview j)|].
      simpl. lia.
    + simpl. lia.
  - unfold Chat.removeAttachment, Chat.revoke. repeat case_match; simpl; lia.
  - simpl. lia.
  - simpl. lia.
  - simpl. lia.
  - simpl. lia.
  - unfold transition. repeat case_match; simpl; lia.
  - unfold Chat.onmessage. repeat case_match; simpl; lia.
  - unfold Chat.onclose, transition. repeat case_match; simpl; lia.
  - simpl. lia.
  - unfold Chat.runCallback, Chat.connect, newWebSocket.
    repeat case_match; simpl; lia.
Qed.

(** X20.  Along any run of the composer the upload requests never
    outnumber the files the user chose: a failed file is not requested
    again, and no file is requested twice. *)
Lemma chat_requests_bounded (tr : list Chat.Event) (w : Chat.World) :
  length (uploadRequests (Chat.env (Chat.run w tr))) + Ghost.filesQueued (Chat.run w tr)
  ≤ length (uploadRequests (Chat.env w)) + Ghost.filesQueued w + Ghost.filesChosen tr.
Proof.
  revert w. induction tr as [|e tr IH]; intros w; [simpl; lia|].
  change (Chat.run w (e :: tr)) with (Chat.run (Chat.step w e) tr).
  specialize (IH (Chat.step w e)). pose proof (chat_requests_step w e).
  unfold Ghost.filesChosen in *. simpl. lia.
Qed.

Lemma shell_handleFiles_requests (files : list File) (w : Terminal.World) :
  uploadRequests (Terminal.env (Terminal.handleFiles files w)) =
    uploadRequests (Terminal.env w) ++ files.
Proof.
  unfold Terminal.handleFiles. revert w.
  induction files as [|f files IH]; intros w; simpl; [by rewrite app_nil_r|].
  rewrite IH. simpl. by rewrite <- app_assoc.
Qed.

Lemma clearTimeouts_requests {F C : Type} (tids : list nat) (b : Env F C) :
  uploadRequests (fold_left (λ b t, clearTimeout t b) tids b) = uploadRequests b.
Proof. revert b. induction tids as [|t tids IH]; intros b; [done|]. simpl. by rewrite IH. Qed.

Lemma ws_send_requests {F C : Type} (ws : nat) (f : F) (b : Env F C) :
  uploadRequests (ws_send ws f b) = uploadRequests b.
Proof. unfold ws_send. by repeat case_match. Qed.

Lemma ws_close_requests {F C : Type} (ws : nat) (b : Env F C) :
  uploadRequests (ws_close ws b) = uploadRequests b.
Proof. unfold ws_close. by repeat case_match. Qed.

Lemma transition_requests {F C : Type} (ws : nat) (r : ReadyState) (b : Env F C) :
  uploadRequests (transition ws r b) = uploadRequests b.
Proof. unfold transition. by repeat case_match. Qed.

Lemma send_if_open_requests (f : Terminal.Frame) (w : Terminal.World) :
  uploadRequests (Terminal.env (Terminal.send_if_open f w)) =
    uploadRequests (Terminal.env w).
Proof.
  unfold Terminal.send_if_open. repeat case_match; try done.
  apply ws_send_requests.
Qed.

Lemma term_write_env (d : Terminal.Write) (w : Terminal.World) :
  Terminal.env (Terminal.term_write d w) = Terminal.env w.
Proof. unfold Terminal.term_write. by destruct (Terminal.termRef w). Qed.

Lemma shell_connect_requests (w : Terminal.World) :
  uploadRequests (Terminal.env (Terminal.connect w)) = uploadRequests (Terminal.env w).
Proof. unfold Terminal.connect, newWebSocket. by repeat case_match. Qed.

Lemma doFit_requests (w : Terminal.World) :
  uploadRequests (Terminal.env (Terminal.doFit w)) = uploadRequests (Terminal.env w).
Proof.
  unfold Terminal.doFit, Terminal.fit.
  repeat (case_match; simplify_eq/=); try done; by rewrite send_if_open_requests.
Qed.

Lemma scheduleRetries_requests (delays : list nat) (w : Terminal.World) :
  uploadRequests (Terminal.env (Terminal.scheduleRetries delays w)) =
    uploadRequests (Terminal.env w).
Proof.
  unfold Terminal.scheduleRetries.
  change (uploadRequests (Terminal.env w))
    with (uploadRequests (Terminal.env (Terminal.with_retryTimers [] w))).
  generalize (Terminal.with_retryTimers [] w). clear w.
  induction delays as [|d delays IH]; intros w; [done|].
  simpl. by rewrite IH.
Qed.

Lemma mount_requests (w : Terminal.World) :
  uploadRequests (Terminal.env (Terminal.mount w)) = uploadRequests (Terminal.env w).
Proof.
  by rewrite mount_eq, env_with_observing, shell_connect_requests,
    scheduleRetries_requests, doFit_requests.
Qed.

Lemma unmount_requests (w : Terminal.World) :
  uploadRequests (Terminal.env (Terminal.unmount w)) = uploadRequests (Terminal.env w).
Proof.
  unfold Terminal.unmount. cbn.
  repeat (case_match; simplify_eq/=);
    rewrite ?ws_close_requests; cbn; rewrite ?clearTimeouts_requests; done.
Qed.

Lemma shell_requests_step (w : Terminal.World) (e : Terminal.Event) :
  length (uploadRequests (Terminal.env (Terminal.step w e))) =
    length (uploadRequests (Terminal.env w)) + ShellGhost.filesOf e.
Proof.
  destruct e; cbn [Terminal.step ShellGhost.filesOf]; rewrite ?Nat.add_0_r.
  - destruct (Terminal.termRef w); by rewrite ?mount_requests.
  - destruct (Terminal.termRef w); by rewrite ?unmount_requests.
  - unfold Terminal.sendCommand. by rewrite send_if_open_requests.
  - unfold Terminal.sendKey. by rewrite send_if_open_requests.
  - done.
  - unfold Terminal.handleMobileSend. destruct (negb _); [done|].
    cbn. by rewrite send_if_open_requests.
  - destruct (Terminal.termRef w); by rewrite ?send_if_open_requests.
  - destruct (Terminal.termRef w); by rewrite ?send_if_open_requests.
  - by rewrite shell_handleFiles_requests, length_app.
  - unfold Terminal.uploadSettled, Terminal.uploadFinally.
    destruct (Terminal.jobs w !! job) as [[file|]|]; [|done|done].
    destruct o; cbn; by rewrite ?send_if_open_requests, ?term_write_env.
  - destruct (Terminal.observing _); [|done]. by rewrite doFit_requests.
  - done.
  - destruct (state_of ws (Terminal.env w)) as [[]|]; try done.
    unfold Terminal.onopen. cbn. destruct (Terminal.termRef w); cbn;
      by rewrite ?ws_send_requests, transition_requests.
  - destruct (state_of ws (Terminal.env w)) as [[]|]; try done.
    unfold Terminal.onmessage. by destruct data; rewrite term_write_env.
  - destruct (state_of ws (Terminal.env w)) as [[]|]; try done;
      unfold Terminal.onerror; cbn; by rewrite ws_close_requests.
  - destruct (state_of ws (Terminal.env w)) as [[]|]; try done;
      unfold Terminal.onclose; cbn; rewrite term_write_env; cbn;
      by rewrite transition_requests.
  - done.
  - destruct (due_timer tid (Terminal.env w)) as [[]|]; [| |done]; cbn [Terminal.runCallback].
    + by rewrite shell_connect_requests.
    + by rewrite doFit_requests.
Qed.

(** In the terminal the upload requests are as many as the files
    dropped. *)
Lemma shell_requests_exact (tr : list Terminal.Event) (w : Terminal.World) :
  length (uploadRequests (Terminal.env (Terminal.run w tr))) =
    length (uploadRequests (Terminal.env w)) + ShellGhost.filesDropped tr.
Proof.
  revert w. induction tr as [|e tr IH]; intros w; [simpl; lia|].
  change (Terminal.run w (e :: tr)) with (Terminal.run (Terminal.step w e) tr).
  rewrite IH, shell_requests_step. unfold ShellGhost.filesDropped. simpl. lia.
Qed.

End UploadAccounting.

Section ShellRuns.
Import Browser Terminal.



(** The mobile input bar, by contrast, does append the newline. *)
Example handleMobileSend_appends_newline :
  let w := run initial [SetToken (Some "tok"); Mount; WsOpen 0; SetMobileInput " ls "] in
  ShellGhost.sentOn 0 (step w HandleMobileSend) = [Resize 80 24; Text ("ls" +:+ JS.LF)].
Proof. reflexivity. Qed.

End ShellRuns.

Section UploadRuns.
Import Browser.



(** The notice timers do not know of each other: when a second upload
    fails 2000 ms after a first one, the first timer clears the second
    notice 1000 ms after it was shown. *)
Example earlier_timer_clears_later_notice :
  let f1 := {| file_name := "a.txt"; file_type := "text/plain" |} in
  let f2 := {| file_name := "b.txt"; file_type := "text/plain" |} in
  let w := Chat.run Chat.initial
             [Chat.ChooseFiles [f1]; Chat.UploadSettled 0 Rejected;
              Chat.Elapse 2000;
              Chat.ChooseFiles [f2]; Chat.UploadSettled 1 Rejected] in
  Chat.uploadError (Chat.composer w) = Some (Chat.uploadFailedNotice f2)
  ∧ Chat.uploadError
      (Chat.composer (Chat.run w [Chat.Elapse 1000; Chat.TimerFire 0])) = None.
Proof. split; reflexivity. Qed.

End UploadRuns.

(* ===================================================================== *)
(** ** Further properties of the transports and of the panels around them *)
(* ===================================================================== *)

(** *** The stream is reassembled in arrival order *)

Section StreamReassembly.
Import Browser ChatStore Chat ChatRuns.

Lemma onmessage_chunk_env content ty (w : World) :
  env (onmessage (InChunk content ty) w) = env w.
Proof. reflexivity. Qed.

Lemma chunks_buffered ws (cs : list (string * option string)) (w : World) :
  state_of ws (env w) = Some OPEN →
  run w (map (chunkEvent ws) cs) =
    with_store (setStreamChunks (streamChunks (store w) ++ map toChunk cs) (store w)) w.
Proof.
  revert w. induction cs as [|c cs IH]; intros w Hopen.
  - simpl. rewrite app_nil_r. by destruct w as [? [] ? ? ?].
  - simpl. unfold chunkEvent at 1. cbn [step]. rewrite Hopen.
    rewrite IH by done. destruct c as [content ty]. simpl.
    unfold with_store, appendStreamChunk, setStreamChunks. simpl.
    by rewrite <- app_assoc.
Qed.

Lemma run_app (w : World) (tr1 tr2 : list Event) :
  run w (tr1 ++ tr2) = run (run w tr1) tr2.
Proof. apply fold_left_app. Qed.

(** X1.  The stream is reassembled in arrival order.  On an open socket
    and an empty buffer, a series of [chunk] events none of which is a
    result leaves exactly those chunks in the buffer, in the order they
    came and with a missing type read as text, and leaves the history
    alone; the [done] that follows appends one assistant message whose
    content is the text chunks joined in that order, without the tool
    and other activity chunks (no message when that text is empty),
    empties the buffer and ends the exchange. *)
Theorem stream_reassembly (w : World) (ws : nat)
    (cs : list (string * option string)) (sid : option string) :
  state_of ws (env w) = Some OPEN →
  streamChunks (store w) = [] →
  Forall (λ c, chunk_type (toChunk c) ≠ "result") cs →
  let w1 := run w (map (chunkEvent ws) cs) in
  let w2 := step w1 (WsMessage ws (InDone sid)) in
  let answer :=
    fold_right String.append ""
      (map chunk_content (List.filter is_text (map toChunk cs))) in
  streamChunks (store w1) = map toChunk cs
  ∧ messages (store w1) = messages (store w)
  ∧ (answer ≠ "" →
     messages (store w2) =
       messages (store w) ++ [assistantMessage (now (env w)) answer])
  ∧ (answer = "" → messages (store w2) = messages (store w))
  ∧ streamChunks (store w2) = []
  ∧ streaming (store w2) = false.
Proof.
  intros Hopen Hempty Hno w1 w2 answer.
  assert (Hw1 : w1 = with_store (setStreamChunks (map toChunk cs) (store w)) w).
  { unfold w1. rewrite chunks_buffered by done. by rewrite Hempty. }
  assert (Hfin : finalContent (map toChunk cs) = answer).
  { unfold finalContent. rewrite find_no_result.
    - apply join_no_separator.
    - by apply Forall_fmap. }
  clearbody w1. subst w1.
  unfold w2. cbn [step]. simpl. rewrite Hopen. simpl. rewrite Hfin.
  repeat split; try done.
  - intros Hne. apply truthy_true in Hne. rewrite Hne.
    by destruct (JS.truthy_opt sid).
  - intros He. apply truthy_false in He. rewrite He.
    by destruct (JS.truthy_opt sid).
  - destruct (JS.truthy answer), (JS.truthy_opt sid); done.
  - destruct (JS.truthy answer), (JS.truthy_opt sid); done.
Qed.

(** Text, a tool call, text again and a chunk of an unknown type: the
    message reads "The answer is 4". *)
Lemma stream_reassembly_witness :
  let w := run initial [SetToken (Some "tok"); Connect; WsOpen 0; SendMessage "q" []] in
  let cs := [("The answer ", None); ("ls -la", Some "tool_use");
             ("is 4", Some "text"); ("2", Some "note")] in
  state_of 0 (env w) = Some OPEN
  ∧ streamChunks (store w) = []
  ∧ messages (store (step (run w (map (chunkEvent 0) cs)) (WsMessage 0 (InDone None)))) =
      messages (store w) ++ [assistantMessage 0 "The answer is 4"].
Proof.
  intros w cs.
  assert (Hno : Forall (λ c, chunk_type (toChunk c) ≠ "result") cs).
  { repeat constructor; discriminate. }
  destruct (stream_reassembly w 0 cs None eq_refl eq_refl Hno) as (_ & _ & Hmsg & _).
  split; [reflexivity|]. split; [reflexivity|].
  apply Hmsg. vm_compute. discriminate.
Defined.

End StreamReassembly.

(** *** The live view and the finalization agree *)

Section LiveView.
Import Browser ChatStore Chat ChatRuns MessageList.

Lemma kindOf_result (type : string) : kindOf type = KResult ↔ type = "result".
Proof.
  unfold kindOf. split.
  - repeat (case_match; try discriminate). intros _. by apply String.eqb_eq.
  - intros ->. reflexivity.
Qed.

Lemma existsb_find_result (chunks : list StreamChunk) :
  existsb is_result chunks = bool_decide (is_Some (List.find is_result chunks)).
Proof.
  induction chunks as [|c chunks IH]; simpl.
  - done.
  - by destruct (is_result c).
Qed.

Lemma filter_all_activity (chunks : list StreamChunk) :
  List.find is_result chunks = None →
  List.filter (λ c, negb (is_result c)) chunks = chunks.
Proof.
  induction chunks as [|c chunks IH]; simpl; [done|].
  destruct (is_result c); simpl; [done|]. intros H. by rewrite IH.
Qed.

Lemma find_is_result (chunks : list StreamChunk) (R : StreamChunk) :
  List.find is_result chunks = Some R → chunk_type R = "result".
Proof.
  intros H. apply List.find_some in H as [_ H]. by apply is_result_type.
Qed.

Lemma activity_never_result (chunks : list StreamChunk) (content : string) :
  Item KResult content ∉ map ActivityItem (List.filter (λ c, negb (is_result c)) chunks).
Proof.
  intros Hin. apply list_elem_of_fmap in Hin as (c & Heq & Hc).
  apply list_elem_of_In, List.filter_In in Hc as [_ Hc].
  unfold ActivityItem in Heq. injection Heq as Hk _.
  symmetry in Hk. apply kindOf_result, is_result_type in Hk.
  by rewrite Hk in Hc.
Qed.

(** What [done] appends to the history. *)
Lemma done_appends (w : World) (sid : option string) :
  (finalContent (streamChunks (store w)) ≠ "" →
   messages (store (onmessage (InDone sid) w)) =
     messages (store w) ++
       [assistantMessage (now (env w)) (finalContent (streamChunks (store w)))])
  ∧ streaming (store (onmessage (InDone sid) w)) = false.
Proof.
  simpl. split.
  - intros Hne. apply truthy_true in Hne. rewrite Hne.
    by destruct (JS.truthy_opt sid).
  - by destruct (JS.truthy _), (JS.truthy_opt sid).
Qed.

(** The rows of the streaming bubble: the chunks that are no result in
    arrival order, then either the working indicator or the answer that
    [done] will commit. *)
Lemma StreamingActivity_rows (chunks : list StreamChunk) :
  StreamingActivity chunks =
    map ActivityItem (List.filter (λ c, negb (is_result c)) chunks)
    ++ [match List.find is_result chunks with
        | Some _ => Item KResult (finalContent chunks)
        | None => Working
        end].
Proof.
  unfold StreamingActivity, finalContent. rewrite existsb_find_result.
  destruct (List.find is_result chunks) as [R|] eqn:HR.
  - rewrite bool_decide_eq_true_2 by eauto. simpl.
    unfold ActivityItem at 2. by rewrite (find_is_result _ _ HR).
  - rewrite bool_decide_eq_false_2 by (by intros [? ?]). simpl.
    done.
Qed.

(** X2.  What the streaming bubble shows is what [done] commits.
    During an exchange with a non-empty buffer [MessageList] shows the
    rows of [StreamingActivity]: without a result chunk, every chunk in
    arrival order followed by the working indicator; and whenever a row
    of kind result is shown, it is the last row, it stands in place of
    the working indicator, the rows before it are the chunks that are
    no result, and the [done] event appends a message with exactly the
    content of that row (when not empty) and removes the bubble. *)
Theorem streaming_bubble_handover (w : World) (ws : nat) (sid : option string) :
  state_of ws (env w) = Some OPEN →
  streaming (store w) = true →
  streamChunks (store w) ≠ [] →
  let chunks := streamChunks (store w) in
  let v := MessageList (store w) in
  let v' := MessageList (store (step w (WsMessage ws (InDone sid)))) in
  streamingBubble v = Some (Activity (StreamingActivity chunks))
  ∧ (List.find is_result chunks = None →
     StreamingActivity chunks = map ActivityItem chunks ++ [Working])
  ∧ (∀ content,
       Item KResult content ∈ StreamingActivity chunks →
       List.find is_result chunks ≠ None
       ∧ StreamingActivity chunks =
           map ActivityItem (List.filter (λ c, negb (is_result c)) chunks)
           ++ [Item KResult content]
       ∧ (content ≠ "" →
          bubbles v' = bubbles v ++ [assistantMessage (now (env w)) content]))
  ∧ streamingBubble v' = None.
Proof.
  intros Hopen Hstr Hne chunks v v'.
  destruct (done_appends w sid) as (Hmsg & Hoff). fold chunks in Hmsg.
  assert (Hstep : step w (WsMessage ws (InDone sid)) = onmessage (InDone sid) w).
  { cbn [step]. by rewrite Hopen. }
  split; [|split; [|split]].
  - unfold v, MessageList. simpl. rewrite Hstr.
    destruct (streamChunks (store w)) eqn:E; [done|]. reflexivity.
  - intros Hnone. rewrite StreamingActivity_rows, Hnone.
    by rewrite filter_all_activity.
  - intros content Hin. rewrite StreamingActivity_rows in Hin |- *.
    apply elem_of_app in Hin as [Hin|Hin].
    { by apply activity_never_result in Hin. }
    apply list_elem_of_singleton in Hin.
    destruct (List.find is_result chunks) eqn:HR; [|done].
    injection Hin as Heq. subst content. split; [done|]. split; [done|].
    intros Hc. unfold v', v, MessageList. rewrite Hstep.
    cbn [bubbles]. by apply Hmsg.
  - unfold v', MessageList. rewrite Hstep. cbn [streamingBubble]. by rewrite Hoff.
Qed.

(** A tool call and two result chunks: the bubble shows the tool call
    and the first result, and [done] turns that result into the
    message. *)
Lemma streaming_bubble_handover_witness :
  let w := run initial
             [SetToken (Some "tok"); Connect; WsOpen 0; SendMessage "q" [];
              WsMessage 0 (InChunk "ls" (Some "tool_use"));
              WsMessage 0 (InChunk "draft" (Some "result"));
              WsMessage 0 (InChunk "final" (Some "result"))] in
  state_of 0 (env w) = Some OPEN
  ∧ streaming (store w) = true
  ∧ streamingBubble (MessageList (store w)) =
      Some (Activity [Item KToolUse "ls"; Item KResult "draft"])
  ∧ bubbles (MessageList (store (step w (WsMessage 0 (InDone None))))) =
      bubbles (MessageList (store w)) ++ [assistantMessage 0 "draft"].
Proof.
  intros w.
  destruct (streaming_bubble_handover w 0 None eq_refl eq_refl ltac:(discriminate))
    as (Hb & _ & Hin & _).
  assert (Hrow : Item KResult "draft" ∈ StreamingActivity (streamChunks (store w))).
  { apply list_elem_of_In. vm_compute. tauto. }
  destruct (Hin "draft" Hrow) as (_ & _ & Hmsg).
  split; [reflexivity|]. split; [reflexivity|]. split; [rewrite Hb; reflexivity|].
  apply Hmsg. discriminate.
Defined.

End LiveView.

(** *** The history grows, the exchange ends on [done] or [error] *)

Section History.
Import Browser ChatStore Chat ChatRuns.

(** What a submission does to the history. *)
Lemma sendMessage_messages content atts (w : World) :
  ∃ l, messages (store (sendMessage content atts w)) = messages (store w) ++ l
       ∧ length l ≤ 1.
Proof.
  unfold sendMessage. repeat case_match; simpl;
    try (exists []; rewrite app_nil_r; (split; [done|simpl; lia]));
    eexists [_]; (split; [reflexivity|simpl; lia]).
Qed.

Lemma uploadSettled_messages j o (w : World) :
  o ≠ Unauthorized → store (uploadSettled j o w) = store w.
Proof. destruct o; chat_cases. Qed.

Lemma messages_step (w : World) (e : Event) :
  replacesHistory e = false →
  ∃ l, messages (store (step w e)) = messages (store w) ++ l
       ∧ length l ≤ mayAppend e.
Proof.
  intros He.
  assert (Hkeep : ∀ w', messages (store w') = messages (store w) →
            ∃ l, messages (store w') = messages (store w) ++ l ∧ length l ≤ mayAppend e).
  { intros w' ->. exists []. rewrite app_nil_r. split; [done|simpl; lia]. }
  destruct e; simpl in He; try discriminate; cbn [step];
    try (by apply Hkeep).
  - apply Hkeep. by rewrite connect_store.
  - apply Hkeep. unfold disconnect. by destruct (wsRef w).
  - apply sendMessage_messages.
  - unfold handleSend.
    destruct (_ && _); [by apply Hkeep|].
    destruct (streaming (store w)); [by apply Hkeep|].
    cbn [store with_composer]. apply sendMessage_messages.
  - apply Hkeep. by rewrite handleFileUpload_store.
  - apply Hkeep. by repeat case_match.
  - apply Hkeep. rewrite uploadSettled_messages; [done|]. by destruct o.
  - apply Hkeep. by repeat case_match.
  - destruct (state_of ws (env w)) as [[]|]; try (by apply Hkeep).
    destruct data; try (by apply Hkeep); simpl.
    + destruct (JS.truthy _), (JS.truthy_opt sid); simpl;
        try (exists []; rewrite app_nil_r; (split; [done|simpl; lia]));
        eexists [_]; (split; [reflexivity|simpl; lia]).
    + eexists [_]; (split; [reflexivity|simpl; lia]).
  - apply Hkeep. by repeat case_match.
  - apply Hkeep. destruct (due_timer tid (env w)) as [[]|]; simpl; try done.
    by rewrite connect_store.
Qed.

(** X3.  The history only grows.  Along any run without an event of
    the session list that replaces the history (and without the page
    reload), the messages of the start are still there, in place, and
    what was added is at most one message per submission and per [done]
    or [error] event. *)
Theorem history_append_only (tr : list Event) (w : World) :
  Forall (λ e, replacesHistory e = false) tr →
  ∃ l, messages (store (run w tr)) = messages (store w) ++ l
       ∧ length l ≤ sum_list_with mayAppend tr.
Proof.
  revert w. induction tr as [|e tr IH]; intros w Hok.
  - exists []. by rewrite app_nil_r.
  - apply Forall_cons in Hok as [He Hok].
    change (run w (e :: tr)) with (run (step w e) tr).
    destruct (IH (step w e) Hok) as (l2 & -> & Hl2).
    destruct (messages_step w e He) as (l1 & -> & Hl1).
    exists (l1 ++ l2). rewrite app_assoc. split; [done|].
    rewrite length_app. simpl. lia.
Qed.

Lemma streaming_step (w : World) (e : Event) :
  streaming (store w) = true →
  endsExchange e = false →
  streaming (store (step w e)) = true.
Proof.
  intros Hs He.
  destruct e; simpl in He; try discriminate; cbn [step]; try done.
  - by rewrite connect_store.
  - unfold disconnect. by destruct (wsRef w).
  - by destruct (sendMessage_store content atts w) as [->|[_ ->]].
  - unfold handleSend. destruct (_ && _); [done|]. by rewrite Hs.
  - by rewrite handleFileUpload_store.
  - by repeat case_match.
  - rewrite uploadSettled_messages; [done|]. by destruct o.
  - by repeat case_match.
  - destruct (state_of ws (env w)) as [[]|]; try done.
    by destruct data.
  - by repeat case_match.
  - destruct (due_timer tid (env w)) as [[]|]; simpl; try done.
    by rewrite connect_store.
Qed.

(** X4.  Only [done], [error] or a page reload end an exchange.  Once
    [streaming] is set it stays set along every run free of these
    events, whatever else happens (the socket closing, a reconnect,
    uploads, the session list), and at the end of such a run the
    composer still rejects a submission. *)
Theorem streaming_latched (tr : list Event) (w : World) :
  streaming (store w) = true →
  Forall (λ e, endsExchange e = false) tr →
  streaming (store (run w tr)) = true
  ∧ step (run w tr) HandleSend = run w tr.
Proof.
  intros Hs Hok.
  assert (H : streaming (store (run w tr)) = true).
  { revert w Hs. induction Hok as [|e tr He Hok IH]; intros w Hs; [done|].
    change (run w (e :: tr)) with (run (step w e) tr).
    apply IH. by apply streaming_step. }
  split; [done|].
  cbn [step]. unfold handleSend. rewrite H. by destruct (_ && _).
Qed.

(** A submission, a chunk, a lost connection, a reconnect and a
    session selected: the history gained the user message and nothing
    else. *)
Lemma history_append_only_witness :
  let w := run initial [SetToken (Some "tok"); Connect; WsOpen 0] in
  let tr := [SendMessage "q" []; WsMessage 0 (InChunk "a" None); WsClose 0;
             Disconnect; Elapse 3000; TimerFire 0; WsOpen 1; SelectSession "s7"] in
  Forall (λ e, replacesHistory e = false) tr
  ∧ sum_list_with mayAppend tr = 1
  ∧ messages (store (run w tr)) = messages (store w) ++ [userMessage 0 "q" []].
Proof.
  intros w tr.
  assert (Hok : Forall (λ e, replacesHistory e = false) tr) by (by repeat constructor).
  destruct (history_append_only tr w Hok) as (l & Hl & Hlen).
  split; [done|]. split; [reflexivity|]. reflexivity.
Defined.

(** The connection is lost in the middle of an answer and a new socket
    opens: the composer still rejects the next text. *)
Lemma streaming_latched_witness :
  let w := run initial
             [SetToken (Some "tok"); Connect; WsOpen 0; SetInput "one"; HandleSend] in
  let tr := [WsMessage 0 (InChunk "par" None); WsClose 0; Elapse 3000; TimerFire 0;
             WsOpen 1; SetInput "two"] in
  streaming (store w) = true
  ∧ Forall (λ e, endsExchange e = false) tr
  ∧ is_open (wsRef (run w tr)) (env (run w tr)) = true
  ∧ input (composer (run w tr)) = "two"
  ∧ step (run w tr) HandleSend = run w tr.
Proof.
  intros w tr.
  assert (Hok : Forall (λ e, endsExchange e = false) tr) by (by repeat constructor).
  destruct (streaming_latched tr w eq_refl Hok) as [_ Hsend].
  split; [reflexivity|]. split; [done|]. split; [reflexivity|]. split; [reflexivity|].
  exact Hsend.
Defined.

End History.

(** *** Counting sockets and timers *)

Section NetFacts.
Import Browser Net.
Context {F C : Type}.
Implicit Types (b : Env F C) (p : C → bool).

Lemma live_sockets b b' : sockets b' = sockets b → live b' = live b.
Proof. unfold live. by intros ->. Qed.

Lemma pendingOf_timers p b b' : timers b' = timers b → pendingOf p b' = pendingOf p b.
Proof. unfold pendingOf. by intros ->. Qed.

Lemma sum_list_with_insert_same {A : Type} (f : A → nat) (l : list A) (i : nat) (x y : A) :
  l !! i = Some x → f y = f x → sum_list_with f (<[i := y]> l) = sum_list_with f l.
Proof.
  intros Hx Hf. pose proof (sum_list_with_insert f l i x y Hx). lia.
Qed.

Lemma ws_send_timers ws (f : F) b : timers (ws_send ws f b) = timers b.
Proof. unfold ws_send. by repeat case_match. Qed.

Lemma ws_send_token ws (f : F) b : token (ws_send ws f b) = token b.
Proof. unfold ws_send. by repeat case_match. Qed.

Lemma ws_send_length ws (f : F) b : length (sockets (ws_send ws f b)) = length (sockets b).
Proof. unfold ws_send. repeat case_match; simpl; by rewrite ?length_insert. Qed.

Lemma ws_send_live ws (f : F) b : live (ws_send ws f b) = live b.
Proof.
  unfold ws_send, live. repeat case_match; simpl; try done.
  eapply sum_list_with_insert_same; [done|]. reflexivity.
Qed.

Lemma ws_close_timers ws b : timers (ws_close ws b) = timers b.
Proof. unfold ws_close. by repeat case_match. Qed.

Lemma ws_close_token ws b : token (ws_close ws b) = token b.
Proof. unfold ws_close. by repeat case_match. Qed.

Lemma ws_close_length ws b : length (sockets (ws_close ws b)) = length (sockets b).
Proof. unfold ws_close. repeat case_match; simpl; by rewrite ?length_insert. Qed.

Lemma ws_close_live ws b : live (ws_close ws b) = live b.
Proof.
  unfold ws_close, live. destruct (sockets b !! ws) as [sock|] eqn:E; [|done]. simpl.
  eapply sum_list_with_insert_same; [done|].
  unfold alive. simpl. by destruct (readyState sock).
Qed.

Lemma transition_timers ws r b : timers (transition ws r b) = timers b.
Proof. unfold transition. by repeat case_match. Qed.

Lemma transition_token ws r b : token (transition ws r b) = token b.
Proof. unfold transition. by repeat case_match. Qed.

Lemma transition_length ws r b :
  length (sockets (transition ws r b)) = length (sockets b).
Proof. unfold transition. repeat case_match; simpl; by rewrite ?length_insert. Qed.

Lemma transition_open_live ws b :
  state_of ws b = Some CONNECTING → live (transition ws OPEN b) = live b.
Proof.
  unfold state_of, transition, live. destruct (sockets b !! ws) as [sock|] eqn:E; [|done].
  simpl. intros [= Hs]. eapply sum_list_with_insert_same; [done|].
  unfold alive. simpl. by rewrite Hs.
Qed.

Lemma transition_closed_live ws b st :
  state_of ws b = Some st → st ≠ CLOSED →
  live (transition ws CLOSED b) + 1 = live b.
Proof.
  unfold state_of, transition, live. destruct (sockets b !! ws) as [sock|] eqn:E; [|done].
  simpl. intros [= Hs] Hne.
  pose proof (sum_list_with_insert alive (sockets b) ws sock (set_readyState CLOSED sock) E) as H.
  assert (H1 : alive sock = 1) by (unfold alive; rewrite Hs; by destruct st).
  assert (H0 : alive (set_readyState CLOSED sock) = 0) by done.
  lia.
Qed.

Lemma newWebSocket_live ep tok b : live (newWebSocket ep tok b).2 = live b + 1.
Proof.
  unfold newWebSocket, live. cbn [snd sockets with_sockets].
  rewrite sum_list_with_app. cbn [sum_list_with]. unfold alive at 2. simpl. lia.
Qed.

Lemma reload_live b : live (reload b) = 0.
Proof.
  unfold live, reload. simpl. induction (sockets b) as [|s l IH]; [done|].
  rewrite fmap_cons. simpl. by rewrite IH.
Qed.

Lemma reload_pendingOf p b : pendingOf p (reload b) = 0.
Proof.
  unfold pendingOf, reload. simpl. induction (timers b) as [|s l IH]; [done|].
  rewrite fmap_cons. simpl. by rewrite IH.
Qed.

Lemma setTimeout_pendingOf p cb d b :
  pendingOf p (setTimeout cb d b).2 = pendingOf p b + (if p cb then 1 else 0).
Proof. unfold setTimeout, pendingOf. simpl. rewrite sum_list_with_app. simpl. lia. Qed.

Lemma clearTimeout_pendingOf_le p tid b : pendingOf p (clearTimeout tid b) ≤ pendingOf p b.
Proof.
  unfold clearTimeout, pendingOf. simpl.
  destruct (timers b !! tid) as [o|] eqn:E.
  - pose proof (sum_list_with_insert (armed p) (timers b) tid o None E). simpl in *. lia.
  - rewrite list_insert_ge; [done|]. by apply lookup_ge_None.
Qed.

Lemma clearTimeout_pendingOf_due p tid b cb :
  due_timer tid b = Some cb →
  pendingOf p (clearTimeout tid b) + (if p cb then 1 else 0) = pendingOf p b.
Proof.
  intros (t & Ht & _ & <-)%due_timer_Some.
  unfold clearTimeout, pendingOf. simpl.
  pose proof (sum_list_with_insert (armed p) (timers b) tid (Some t) None Ht). simpl in *. lia.
Qed.

Lemma clearTimeouts_sockets (tids : list nat) b :
  sockets (fold_left (λ b t, clearTimeout t b) tids b) = sockets b.
Proof. revert b. induction tids as [|t tids IH]; intros b; [done|]. simpl. by rewrite IH. Qed.

Lemma clearTimeouts_token (tids : list nat) b :
  token (fold_left (λ b t, clearTimeout t b) tids b) = token b.
Proof. revert b. induction tids as [|t tids IH]; intros b; [done|]. simpl. by rewrite IH. Qed.

Lemma clearTimeouts_pendingOf_le p (tids : list nat) b :
  pendingOf p (fold_left (λ b t, clearTimeout t b) tids b) ≤ pendingOf p b.
Proof.
  revert b. induction tids as [|t tids IH]; intros b; [done|]. simpl.
  etrans; [apply IH|]. apply clearTimeout_pendingOf_le.
Qed.

Lemma same_net_refl b : same_net b b.
Proof. by repeat split. Qed.

Lemma same_net_trans b1 b2 b3 : same_net b1 b2 → same_net b2 b3 → same_net b1 b3.
Proof. unfold same_net. intros (?&?&?&?) (?&?&?&?). repeat split; congruence. Qed.

Lemma same_net_ws_send ws (f : F) b : same_net b (ws_send ws f b).
Proof.
  repeat split; auto using ws_send_live, ws_send_timers, ws_send_token, ws_send_length.
Qed.

Lemma same_net_ws_close ws b : same_net b (ws_close ws b).
Proof.
  repeat split; auto using ws_close_live, ws_close_timers, ws_close_token, ws_close_length.
Qed.

Lemma same_net_transition_open ws b :
  state_of ws b = Some CONNECTING → same_net b (transition ws OPEN b).
Proof.
  repeat split;
    auto using transition_open_live, transition_timers, transition_token, transition_length.
Qed.

Lemma same_net_uploadFile f b : same_net b (uploadFile f b).
Proof. by repeat split. Qed.

Lemma same_net_with_now t b : same_net b (with_now t b).
Proof. by repeat split. Qed.

Lemma same_net_pendingOf p b b' : same_net b b' → pendingOf p b' = pendingOf p b.
Proof. intros (_ & H & _). by apply pendingOf_timers. Qed.

End NetFacts.

(** *** Connections of the chat hook *)

Section ChatConnections.
Import Browser ChatStore Chat Net ChatRuns.

Lemma chat_connect_no_token (w : World) :
  JS.truthy_opt (token (env w)) = false → connect w = w.
Proof. unfold connect. destruct (token (env w)); simpl; [|done]. by intros ->. Qed.

Lemma chat_connect_net (w : World) :
  live (env (connect w)) ≤ live (env w) + 1
  ∧ timers (env (connect w)) = timers (env w)
  ∧ token (env (connect w)) = token (env w).
Proof.
  unfold connect. destruct (token (env w)) as [tok|] eqn:Et; [|auto with lia].
  destruct (JS.truthy tok); [|auto with lia].
  pose proof (newWebSocket_live "/api/chat/stream" tok (env w)) as H.
  unfold newWebSocket in *. cbn [snd env with_env with_wsRef] in *.
  split; [lia|]. by split.
Qed.

Lemma chat_sendMessage_net content atts (w : World) :
  same_net (env w) (env (sendMessage content atts w)).
Proof.
  unfold sendMessage. repeat case_match; simpl; auto using same_net_refl, same_net_ws_send.
Qed.

Lemma chat_handleSend_net (w : World) :
  same_net (env w) (env (handleSend sendMessage w)).
Proof.
  unfold handleSend. repeat case_match; simpl;
    auto using same_net_refl, chat_sendMessage_net.
Qed.

Lemma chat_handleFileUpload_net files (w : World) :
  same_net (env w) (env (handleFileUpload files w)).
Proof. destruct files; chat_cases; by repeat split. Qed.

Lemma chat_uploadNext_net j job (w : World) :
  same_net (env w) (env (uploadNext j job w)).
Proof. chat_cases; by repeat split. Qed.

(** One event adds a connection only if it is a call of [connect]. *)
Lemma chat_connections_step (w : World) (e : Event) :
  connections (step w e) ≤ connections w + connectCalls e.
Proof.
  assert (Hsame : ∀ w', same_net (env w) (env w') → connections w' ≤ connections w + connectCalls e).
  { intros w' H. unfold connections. rewrite (same_net_pendingOf _ _ _ H).
    destruct H as (-> & _). lia. }
  destruct e; cbn [step connectCalls]; try (by apply Hsame, same_net_refl).
  - unfold connections. destruct (chat_connect_net w) as (H1 & H2 & _).
    rewrite (pendingOf_timers _ _ _ H2). lia.
  - apply Hsame. unfold disconnect.
    destruct (wsRef w); simpl; auto using same_net_refl, same_net_ws_close.
  - apply Hsame, chat_sendMessage_net.
  - apply Hsame, chat_handleSend_net.
  - apply Hsame, chat_handleFileUpload_net.
  - apply Hsame. repeat case_match; apply same_net_refl.
  - unfold uploadSettled. destruct (jobs (composer w) !! job) as [[j|]|];
      try (by apply Hsame, same_net_refl).
    destruct o.
    + apply Hsame. eapply same_net_trans; [|apply chat_uploadNext_net]. apply same_net_refl.
    + unfold connections. rewrite (same_net_pendingOf _ _ _ (chat_uploadNext_net _ _ _)).
      destruct (chat_uploadNext_net job j (uploadRejected j w)) as (-> & _).
      unfold uploadRejected. cbn [env with_env with_composer].
      rewrite setTimeout_pendingOf.
      rewrite (live_sockets (env w) (setTimeout _ _ _).2) by done. simpl. lia.
    + unfold connections, loaded, unauthorized. cbn [env].
      rewrite reload_live, reload_pendingOf. lia.
  - unfold connections. cbn [env with_env].
    rewrite (live_sockets (env w) (with_token t (env w))) by done.
    rewrite (pendingOf_timers _ (env w) (with_token t (env w))) by done. lia.
  - apply Hsame. destruct (state_of ws (env w)) as [[]|] eqn:E;
      auto using same_net_refl. cbn [env with_env]. by apply same_net_transition_open.
  - apply Hsame. destruct (state_of ws (env w)) as [[]|]; try apply same_net_refl.
    destruct data; simpl; apply same_net_refl.
  - destruct (state_of ws (env w)) as [st|] eqn:E; [|by apply Hsame, same_net_refl].
    assert (Hc : st = CLOSED ∨ st ≠ CLOSED) by (destruct st; auto).
    destruct Hc as [->|Hne]; [by apply Hsame, same_net_refl|].
    assert (connections (onclose (with_env (transition ws CLOSED (env w)) w)) ≤ connections w).
    { unfold connections, onclose. cbn [env with_env].
      rewrite setTimeout_pendingOf. simpl.
      rewrite (live_sockets (transition ws CLOSED (env w)) _) by done.
      pose proof (transition_closed_live ws (env w) st E Hne).
      rewrite (pendingOf_timers _ (env w) (transition ws CLOSED (env w)))
        by apply transition_timers.
      lia. }
    destruct st; try done; lia.
  - apply Hsame. apply same_net_with_now.
  - destruct (due_timer tid (env w)) as [cb|] eqn:E; [|by apply Hsame, same_net_refl].
    pose proof (clearTimeout_pendingOf_due isConnect tid (env w) cb E) as Hp.
    destruct cb; simpl in *.
    + unfold connections.
      destruct (chat_connect_net (with_env (clearTimeout tid (env w)) w)) as (H1 & H2 & _).
      rewrite (pendingOf_timers _ _ _ H2). cbn [env with_env] in *.
      rewrite (live_sockets (env w) (clearTimeout tid (env w))) in H1 by done. lia.
    + unfold connections. cbn [env with_env with_composer].
      rewrite (live_sockets (env w) (clearTimeout tid (env w))) by done. lia.
Qed.

(** X5.  The chat hook never multiplies connections by itself: along
    any run, the sockets that have not closed plus the reconnects
    waiting for their timer grow by at most one per call of [connect]
    by the consumer. *)
Theorem chat_connections_bounded (tr : list Event) (w : World) :
  connections (run w tr) ≤ connections w + sum_list_with connectCalls tr.
Proof.
  revert w. induction tr as [|e tr IH]; intros w; [simpl; lia|].
  change (run w (e :: tr)) with (run (step w e) tr).
  specialize (IH (step w e)). pose proof (chat_connections_step w e).
  simpl. lia.
Qed.

Lemma chat_no_token_step (w : World) (e : Event) :
  JS.truthy_opt (token (env w)) = false →
  storesToken e = false →
  JS.truthy_opt (token (env (step w e))) = false
  ∧ length (sockets (env (step w e))) = length (sockets (env w)).
Proof.
  intros Htok He.
  assert (Hsame : ∀ w', same_net (env w) (env w') →
            JS.truthy_opt (token (env w')) = false
            ∧ length (sockets (env w')) = length (sockets (env w))).
  { intros w' (_ & _ & -> & ->). done. }
  destruct e; cbn [step]; try (by apply Hsame, same_net_refl).
  - by rewrite chat_connect_no_token.
  - apply Hsame. unfold disconnect.
    destruct (wsRef w); simpl; auto using same_net_refl, same_net_ws_close.
  - apply Hsame, chat_sendMessage_net.
  - apply Hsame, chat_handleSend_net.
  - apply Hsame, chat_handleFileUpload_net.
  - apply Hsame. repeat case_match; apply same_net_refl.
  - unfold uploadSettled. destruct (jobs (composer w) !! job) as [[j|]|];
      try (by apply Hsame, same_net_refl).
    destruct o.
    + apply Hsame. eapply same_net_trans; [|apply chat_uploadNext_net]. apply same_net_refl.
    + destruct (chat_uploadNext_net job j (uploadRejected j w)) as (_ & _ & -> & ->).
      done.
    + unfold loaded, unauthorized, reload. simpl. by rewrite length_fmap.
  - done.
  - apply Hsame. destruct (state_of ws (env w)) as [[]|] eqn:E;
      auto using same_net_refl. cbn [env with_env]. by apply same_net_transition_open.
  - apply Hsame. destruct (state_of ws (env w)) as [[]|]; try apply same_net_refl.
    destruct data; simpl; apply same_net_refl.
  - assert (H : JS.truthy_opt (token (env (onclose (with_env (transition ws CLOSED (env w)) w)))) = false
            ∧ length (sockets (env (onclose (with_env (transition ws CLOSED (env w)) w))))
              = length (sockets (env w))).
    { unfold onclose, setTimeout. cbn [snd env with_env].
      change (token (with_timers ?l ?b)) with (token b).
      change (sockets (with_timers ?l ?b)) with (sockets b).
      by rewrite transition_token, transition_length. }
    by destruct (state_of ws (env w)) as [[]|].
  - apply Hsame. apply same_net_with_now.
  - destruct (due_timer tid (env w)) as [[]|]; try done; simpl.
    by rewrite chat_connect_no_token.
Qed.

Lemma chat_no_token_run (tr : list Event) (w : World) :
  JS.truthy_opt (token (env w)) = false →
  Forall (λ e, storesToken e = false) tr →
  JS.truthy_opt (token (env (run w tr))) = false
  ∧ length (sockets (env (run w tr))) = length (sockets (env w)).
Proof.
  intros Htok Hok. revert w Htok.
  induction Hok as [|e tr He Hok IH]; intros w Htok; [done|].
  change (run w (e :: tr)) with (run (step w e) tr).
  destruct (chat_no_token_step w e Htok He) as [H1 H2].
  destruct (IH _ H1) as [H3 H4]. split; [done|]. congruence.
Qed.

End ChatConnections.

(** *** Connections of the shell bridge *)

Section ShellConnections.
Import Browser Terminal Net ShellNet.

Lemma quiet_refl b : quiet b b.
Proof. by repeat split. Qed.

Lemma quiet_trans b1 b2 b3 : quiet b1 b2 → quiet b2 b3 → quiet b1 b3.
Proof. unfold quiet. intros (?&?&?&?) (?&?&?&?). repeat split; try congruence. lia. Qed.

Lemma same_net_quiet b b' : same_net b b' → quiet b b'.
Proof.
  intros H. pose proof (same_net_pendingOf isConnect _ _ H).
  destruct H as (?&?&?&?). repeat split; try done. lia.
Qed.

Lemma shell_send_quiet (f : Frame) (w : World) : quiet (env w) (env (send_if_open f w)).
Proof.
  unfold send_if_open. repeat case_match; try apply quiet_refl.
  cbn [env with_env]. apply same_net_quiet, same_net_ws_send.
Qed.

Lemma shell_fit_env (w w1 : World) : fit w = Some w1 → env w1 = env w.
Proof. unfold fit. repeat case_match; intros; by simplify_eq. Qed.

Lemma shell_doFit_quiet (w : World) : quiet (env w) (env (doFit w)).
Proof.
  unfold doFit. destruct (fit w) as [w1|] eqn:E; [|apply quiet_refl].
  rewrite <- (shell_fit_env _ _ E).
  repeat case_match; try apply quiet_refl. apply shell_send_quiet.
Qed.

Lemma shell_clearTimeout_quiet tid (b : Env Frame Callback) : quiet b (clearTimeout tid b).
Proof. repeat split. apply clearTimeout_pendingOf_le. Qed.

Lemma shell_clearTimeouts_quiet (tids : list nat) (b : Env Frame Callback) :
  quiet b (fold_left (λ b t, clearTimeout t b) tids b).
Proof.
  revert b. induction tids as [|t tids IH]; intros b; [apply quiet_refl|]. simpl.
  eapply quiet_trans; [apply shell_clearTimeout_quiet|apply IH].
Qed.

Lemma shell_scheduleRetries_quiet (delays : list nat) (w : World) :
  quiet (env w) (env (scheduleRetries delays w)).
Proof.
  unfold scheduleRetries.
  change (env w) with (env (with_retryTimers [] w)) at 1.
  generalize (with_retryTimers [] w). clear w.
  induction delays as [|d delays IH]; intros w; [apply quiet_refl|].
  simpl. eapply quiet_trans; [|apply IH]. cbn [env with_env with_retryTimers].
  repeat split. unfold pendingOf. simpl. rewrite sum_list_with_app. simpl. lia.
Qed.

Lemma shell_handleFiles_quiet (files : list File) (w : World) :
  quiet (env w) (env (handleFiles files w)).
Proof.
  unfold handleFiles. revert w.
  induction files as [|f files IH]; intros w; [apply quiet_refl|].
  simpl. eapply quiet_trans; [|apply IH]. by repeat split.
Qed.

Lemma shell_connect_none (w : World) :
  JS.truthy_opt (token (env w)) = false → connect w = w.
Proof.
  unfold connect. destruct (token (env w)); simpl; [|done].
  intros ->. by destruct (termRef w).
Qed.

Lemma shell_connect_net (w : World) :
  live (env (connect w)) ≤ live (env w) + 1
  ∧ timers (env (connect w)) = timers (env w)
  ∧ token (env (connect w)) = token (env w).
Proof.
  unfold connect. destruct (token (env w)) as [tok|] eqn:Et; [|auto with lia].
  destruct (termRef w); [|auto with lia].
  destruct (JS.truthy tok); [|auto with lia].
  pose proof (newWebSocket_live (C:=Callback) "/api/pty/ws" tok (env w)) as H.
  unfold newWebSocket in *. cbn [snd env with_env with_wsRef setStatus] in *.
  split; [lia|]. by split.
Qed.

Lemma shell_connect_connections (w : World) :
  connections (connect w) ≤ connections w + 1.
Proof.
  unfold connections. destruct (shell_connect_net w) as (H1 & H2 & _).
  rewrite (pendingOf_timers _ _ _ H2). lia.
Qed.

Lemma quiet_connections (w w' : World) :
  quiet (env w) (env w') → connections w' ≤ connections w.
Proof. unfold connections. intros (-> & ? & _). lia. Qed.

Lemma shell_mount_connections (w : World) : connections (mount w) ≤ connections w + 1.
Proof.
  rewrite mount_eq.
  assert (H : ∀ w', connections (with_observing true w') = connections w') by done.
  rewrite H. etrans; [apply shell_connect_connections|].
  apply Nat.add_le_mono_r. apply quiet_connections.
  eapply quiet_trans; [|apply shell_scheduleRetries_quiet].
  eapply quiet_trans; [|apply shell_doFit_quiet]. apply quiet_refl.
Qed.

Lemma shell_unmount_quiet (w : World) : quiet (env w) (env (unmount w)).
Proof.
  unfold unmount. cbn [env with_termRef with_wsRef].
  set (w1 := with_observing false _).
  assert (H1 : quiet (env w) (env w1)) by apply shell_clearTimeouts_quiet.
  clearbody w1.
  set (w2 := match reconnectTimer w1 with Some _ => _ | None => _ end).
  assert (H2 : quiet (env w1) (env w2)).
  { unfold w2. destruct (reconnectTimer w1); [|apply quiet_refl].
    apply shell_clearTimeout_quiet. }
  clearbody w2.
  eapply quiet_trans; [apply H1|]. eapply quiet_trans; [apply H2|].
  destruct (wsRef w2); [|apply quiet_refl].
  cbn [env with_env]. apply same_net_quiet, same_net_ws_close.
Qed.

Lemma shell_step_quiet (w : World) (e : Event) :
  match e with
  | Mount | SetToken _ | WsClose _ | TimerFire _ | UploadSettled _ Unauthorized => True
  | _ => quiet (env w) (env (step w e))
  end.
Proof.
  destruct e; cbn [step]; try done; try apply quiet_refl.
  - destruct (termRef w); [apply shell_unmount_quiet|apply quiet_refl].
  - apply shell_send_quiet.
  - apply shell_send_quiet.
  - unfold handleMobileSend. destruct (negb _); [apply quiet_refl|].
    apply (shell_send_quiet _ w).
  - destruct (termRef w); [apply shell_send_quiet|apply quiet_refl].
  - destruct (termRef w); [apply shell_send_quiet|apply quiet_refl].
  - apply shell_handleFiles_quiet.
  - destruct o; try done; unfold uploadSettled, uploadFinally;
      destruct (jobs w !! job) as [[file|]|]; try apply quiet_refl.
    + apply (shell_send_quiet _ w).
    + cbn [env with_jobs setUploadInfo setUploading]. rewrite term_write_env.
      apply quiet_refl.
  - destruct (observing _); [|apply quiet_refl]. apply (shell_doFit_quiet (with_layout l w)).
  - destruct (state_of ws (env w)) as [[]|] eqn:E; try apply quiet_refl.
    unfold onopen. cbn [termRef setStatus with_env env].
    eapply quiet_trans; [apply same_net_quiet, same_net_transition_open, E|].
    destruct (termRef w); [|apply quiet_refl].
    cbn [env with_env]. apply same_net_quiet, same_net_ws_send.
  - destruct (state_of ws (env w)) as [[]|]; try apply quiet_refl.
    destruct data; unfold onmessage; rewrite term_write_env; apply quiet_refl.
  - destruct (state_of ws (env w)) as [[]|]; try apply quiet_refl;
      unfold onerror; cbn [env with_env]; apply same_net_quiet, same_net_ws_close.
Qed.

Lemma shell_onclose_env (w : World) :
  env (onclose w) = (setTimeout CbConnect RECONNECT_DELAY (env w)).2.
Proof.
  unfold onclose. 
  assert (H : env (term_write (WriteText disconnectedLine) (setStatus disconnected w)) = env w)
    by (by rewrite term_write_env).
  destruct (setTimeout _ _ _) as [tid b] eqn:E.
  cbn [env with_env with_reconnectTimer].
  rewrite H in E. by rewrite E.
Qed.

(** One event adds a connection only if it mounts the component. *)
Lemma shell_connections_step (w : World) (e : Event) :
  connections (step w e) ≤ connections w + mountCalls e.
Proof.
  pose proof (shell_step_quiet w e) as Hq.
  destruct e; try (apply quiet_connections in Hq; cbn [mountCalls]; lia);
    cbn [step mountCalls]; clear Hq.
  - destruct (termRef w); [lia|]. apply shell_mount_connections.
  - unfold uploadSettled. destruct (jobs w !! job) as [[file|]|] eqn:Ej; try lia.
    destruct o.
    + pose proof (shell_step_quiet w (UploadSettled job (Resolved r))) as Hq.
      cbn [step] in Hq. unfold uploadSettled in Hq. rewrite Ej in Hq.
      apply quiet_connections in Hq. lia.
    + pose proof (shell_step_quiet w (UploadSettled job Rejected)) as Hq.
      cbn [step] in Hq. unfold uploadSettled in Hq. rewrite Ej in Hq.
      apply quiet_connections in Hq. lia.
    + unfold connections, loaded, unauthorized. cbn [env].
      rewrite reload_live, reload_pendingOf. lia.
  - unfold connections. cbn [env with_env].
    rewrite (live_sockets (env w) (with_token t (env w))) by done.
    rewrite (pendingOf_timers _ (env w) (with_token t (env w))) by done. lia.
  - destruct (state_of ws (env w)) as [st|] eqn:E; [|lia].
    assert (Hc : st = CLOSED ∨ st ≠ CLOSED) by (destruct st; auto).
    destruct Hc as [->|Hne]; [lia|].
    assert (connections (onclose (with_env (transition ws CLOSED (env w)) w)) ≤ connections w).
    { unfold connections. rewrite shell_onclose_env. cbn [env with_env].
      rewrite setTimeout_pendingOf. simpl.
      rewrite (live_sockets (transition ws CLOSED (env w)) _) by done.
      pose proof (transition_closed_live ws (env w) st E Hne).
      rewrite (pendingOf_timers _ (env w) (transition ws CLOSED (env w)))
        by apply transition_timers.
      lia. }
    destruct st; try done; lia.
  - destruct (due_timer tid (env w)) as [cb|] eqn:E; [|lia].
    pose proof (clearTimeout_pendingOf_due isConnect tid (env w) cb E) as Hp.
    destruct cb; cbn [runCallback]; simpl in Hp.
    + etrans; [apply shell_connect_connections|].
      unfold connections. cbn [env with_env].
      rewrite (live_sockets (env w) (clearTimeout tid (env w))) by done. lia.
    + etrans; [apply quiet_connections, shell_doFit_quiet|].
      unfold connections. cbn [env with_env].
      rewrite (live_sockets (env w) (clearTimeout tid (env w))) by done. lia.
Qed.

(** X6.  The shell bridge never multiplies connections by itself:
    along any run, the sockets that have not closed plus the reconnects
    waiting for their timer grow by at most one per mount; a component
    mounted once never has a reconnect pending while its socket lives,
    nor two of either. *)
Theorem shell_connections_bounded (tr : list Event) (w : World) :
  connections (run w tr) ≤ connections w + sum_list_with mountCalls tr
  ∧ (sum_list_with mountCalls tr ≤ 1 → connections (run initial tr) ≤ 1).
Proof.
  assert (H : ∀ w, connections (run w tr) ≤ connections w + sum_list_with mountCalls tr).
  { clear w. induction tr as [|e tr IH]; intros w; [simpl; lia|].
    change (run w (e :: tr)) with (run (step w e) tr).
    specialize (IH (step w e)). pose proof (shell_connections_step w e).
    simpl. lia. }
  split; [apply H|]. intros Hone. specialize (H initial).
  assert (H0 : connections initial = 0) by reflexivity. lia.
Qed.

End ShellConnections.

(** *** No credential, no connection *)

Section NoToken.
Import Browser Net.

Lemma shell_no_token_step (w : Terminal.World) (e : Terminal.Event) :
  JS.truthy_opt (token (Terminal.env w)) = false →
  ShellNet.storesToken e = false →
  JS.truthy_opt (token (Terminal.env (Terminal.step w e))) = false
  ∧ length (sockets (Terminal.env (Terminal.step w e))) = length (sockets (Terminal.env w)).
Proof.
  intros Htok He.
  assert (Hq : ∀ w', ShellNet.quiet (Terminal.env w) (Terminal.env w') →
            JS.truthy_opt (token (Terminal.env w')) = false
            ∧ length (sockets (Terminal.env w')) = length (sockets (Terminal.env w))).
  { intros w' (_ & _ & -> & ->). done. }
  pose proof (shell_step_quiet w e) as Hs.
  destruct e; try (by apply Hq); cbn [Terminal.step]; clear Hs.
  - destruct (Terminal.termRef w); [by apply Hq, quiet_refl|].
    rewrite mount_eq, env_with_observing.
    assert (Hq' : ShellNet.quiet (Terminal.env w)
              (Terminal.env (Terminal.scheduleRetries Terminal.RETRY_DELAYS
                 (Terminal.doFit (Terminal.with_termRef
                    (Some {| Terminal.cols := 80; Terminal.rows := 24;
                             Terminal.written := [] |}) w))))).
    { eapply quiet_trans; [|apply shell_scheduleRetries_quiet].
      eapply quiet_trans; [|apply shell_doFit_quiet]. apply quiet_refl. }
    rewrite shell_connect_none; [by apply Hq|]. by apply Hq.
  - unfold Terminal.uploadSettled.
    destruct (Terminal.jobs w !! job) as [[file|]|] eqn:Ej; try (by apply Hq, quiet_refl).
    destruct o.
    + pose proof (shell_step_quiet w (Terminal.UploadSettled job (Resolved r))) as Hs.
      cbn [Terminal.step] in Hs. unfold Terminal.uploadSettled in Hs. rewrite Ej in Hs.
      by apply Hq.
    + pose proof (shell_step_quiet w (Terminal.UploadSettled job Rejected)) as Hs.
      cbn [Terminal.step] in Hs. unfold Terminal.uploadSettled in Hs. rewrite Ej in Hs.
      by apply Hq.
    + unfold Terminal.loaded, unauthorized, reload. simpl. by rewrite length_fmap.
  - done.
  - assert (H : ∀ w1, Terminal.env w1 = transition ws CLOSED (Terminal.env w) →
              JS.truthy_opt (token (Terminal.env (Terminal.onclose w1))) = false
              ∧ length (sockets (Terminal.env (Terminal.onclose w1)))
                = length (sockets (Terminal.env w))).
    { intros w1 H1. rewrite shell_onclose_env, H1. unfold setTimeout. cbn [snd].
      change (token (with_timers ?l ?b)) with (token b).
      change (sockets (with_timers ?l ?b)) with (sockets b).
      by rewrite transition_token, transition_length. }
    destruct (state_of ws (Terminal.env w)) as [[]|]; try (by apply Hq, quiet_refl);
      by apply H.
  - destruct (due_timer tid (Terminal.env w)) as [[]|]; cbn [Terminal.runCallback].
    + by rewrite shell_connect_none.
    + apply Hq. eapply quiet_trans; [|apply shell_doFit_quiet].
      apply shell_clearTimeout_quiet.
    + by apply Hq, quiet_refl.
Qed.

Lemma runner_connect_none (w : Runner.World) :
  JS.truthy_opt (token (Runner.env w)) = false → Runner.connect w = w.
Proof. unfold Runner.connect. destruct (token (Runner.env w)); simpl; [|done]. by intros ->. Qed.

Lemma runner_no_token_step (w : Runner.World) (e : Runner.Event) :
  JS.truthy_opt (token (Runner.env w)) = false →
  RunnerKeys.storesToken e = false →
  JS.truthy_opt (token (Runner.env (Runner.step w e))) = false
  ∧ length (sockets (Runner.env (Runner.step w e))) = length (sockets (Runner.env w)).
Proof.
  intros Htok He.
  assert (Hsame : ∀ w', same_net (Runner.env w) (Runner.env w') →
            JS.truthy_opt (token (Runner.env w')) = false
            ∧ length (sockets (Runner.env w')) = length (sockets (Runner.env w))).
  { intros w' (_ & _ & -> & ->). done. }
  assert (Hsend : ∀ cmd, same_net (Runner.env w) (Runner.env (Runner.sendCommand cmd w))).
  { intros cmd. unfold Runner.sendCommand.
    repeat case_match; try apply same_net_refl.
    cbn [Runner.env Runner.with_env Runner.setHistoryIdx Runner.setHistory
           Runner.setRunning Runner.setLines].
    apply same_net_ws_send. }
  destruct e; cbn [Runner.step]; try (by apply Hsame, same_net_refl).
  - by rewrite runner_connect_none.
  - apply Hsame. unfold Runner.cleanup.
    destruct (Runner.wsRef w); simpl; auto using same_net_refl, same_net_ws_close.
  - apply Hsame, (Hsend (Runner.input w)).
  - apply Hsame, Hsend.
  - done.
  - apply Hsame. destruct (state_of ws (Runner.env w)) as [[]|] eqn:E;
      auto using same_net_refl. cbn [Runner.env Runner.with_env].
    by apply same_net_transition_open.
  - apply Hsame. destruct (state_of ws (Runner.env w)) as [[]|]; try apply same_net_refl.
    destruct data; simpl; try apply same_net_refl.
    destruct cwd as [d|]; [|apply same_net_refl]. destruct (JS.truthy d); apply same_net_refl.
  - assert (H : JS.truthy_opt (token (Runner.env
                  (Runner.onclose (Runner.with_env (transition ws CLOSED (Runner.env w)) w)))) = false
            ∧ length (sockets (Runner.env
                  (Runner.onclose (Runner.with_env (transition ws CLOSED (Runner.env w)) w))))
              = length (sockets (Runner.env w))).
    { unfold Runner.onclose, setTimeout. cbn [snd Runner.env Runner.with_env].
      change (token (with_timers ?l ?b)) with (token b).
      change (sockets (with_timers ?l ?b)) with (sockets b).
      by rewrite transition_token, transition_length. }
    by destruct (state_of ws (Runner.env w)) as [[]|].
  - apply Hsame. apply same_net_with_now.
  - destruct (due_timer tid (Runner.env w)) as [[]|]; try done; simpl.
    by rewrite runner_connect_none.
Qed.

(** X7.  No credential, no connection.  In any of the three transports,
    starting without a usable token and as long as none is stored, no
    run creates a WebSocket: not at mount, not on [connect], not when a
    reconnect timer fires. *)
Theorem no_token_no_socket
    (cw : Chat.World) (tw : Terminal.World) (rw : Runner.World)
    (ctr : list Chat.Event) (ttr : list Terminal.Event) (rtr : list Runner.Event) :
  JS.truthy_opt (token (Chat.env cw)) = false →
  JS.truthy_opt (token (Terminal.env tw)) = false →
  JS.truthy_opt (token (Runner.env rw)) = false →
  Forall (λ e, ChatRuns.storesToken e = false) ctr →
  Forall (λ e, ShellNet.storesToken e = false) ttr →
  Forall (λ e, RunnerKeys.storesToken e = false) rtr →
  length (sockets (Chat.env (Chat.run cw ctr))) = length (sockets (Chat.env cw))
  ∧ length (sockets (Terminal.env (Terminal.run tw ttr))) = length (sockets (Terminal.env tw))
  ∧ length (sockets (Runner.env (Runner.run rw rtr))) = length (sockets (Runner.env rw)).
Proof.
  intros Hc Ht Hr Hctr Httr Hrtr. split; [|split].
  - by apply chat_no_token_run.
  - clear Hc Hr Hctr Hrtr. revert tw Ht.
    induction Httr as [|e tr He Hok IH]; intros w Htok; [done|].
    change (Terminal.run w (e :: tr)) with (Terminal.run (Terminal.step w e) tr).
    destruct (shell_no_token_step w e Htok He) as [H1 H2].
    rewrite (IH _ H1). done.
  - clear Hc Ht Hctr Httr. revert rw Hr.
    induction Hrtr as [|e tr He Hok IH]; intros w Htok; [done|].
    change (Runner.run w (e :: tr)) with (Runner.run (Runner.step w e) tr).
    destruct (runner_no_token_step w e Htok He) as [H1 H2].
    rewrite (IH _ H1). done.
Qed.

(** From the freshly loaded page, with no token or an empty one: no
    socket in any transport. *)
Lemma no_token_no_socket_witness :
  let ctr := [Chat.Connect; Chat.SetToken (Some ""); Chat.Connect; Chat.SendMessage "q" [];
              Chat.Elapse 3000; Chat.TimerFire 0] in
  let ttr := [Terminal.Mount; Terminal.TermData "ls"; Terminal.Elapse 100;
              Terminal.TimerFire 0; Terminal.Unmount; Terminal.Mount] in
  let rtr := [Runner.Mount; Runner.QuickCommand "ls"; Runner.Unmount; Runner.Mount] in
  Forall (λ e, ChatRuns.storesToken e = false) ctr
  ∧ Forall (λ e, ShellNet.storesToken e = false) ttr
  ∧ Forall (λ e, RunnerKeys.storesToken e = false) rtr
  ∧ sockets (Chat.env (Chat.run Chat.initial ctr)) = []
  ∧ sockets (Terminal.env (Terminal.run Terminal.initial ttr)) = []
  ∧ sockets (Runner.env (Runner.run Runner.initial rtr)) = [].
Proof.
  intros ctr ttr rtr.
  assert (Hc : Forall (λ e, ChatRuns.storesToken e = false) ctr) by (by repeat constructor).
  assert (Ht : Forall (λ e, ShellNet.storesToken e = false) ttr) by (by repeat constructor).
  assert (Hr : Forall (λ e, RunnerKeys.storesToken e = false) rtr) by (by repeat constructor).
  destruct (no_token_no_socket Chat.initial Terminal.initial Runner.initial ctr ttr rtr
              eq_refl eq_refl eq_refl Hc Ht Hr) as (H1 & H2 & H3).
  split; [done|]. split; [done|]. split; [done|].
  split; [|split].
  - by apply nil_length_inv.
  - by apply nil_length_inv.
  - by apply nil_length_inv.
Defined.

End NoToken.

(** *** An unmounted terminal is silent *)

Section ShellSilence.
Import Browser Terminal ShellNet.

Lemma sent_transition {F C : Type} ws r (b : Env F C) :
  sent <$> sockets (transition ws r b) = sent <$> sockets b.
Proof.
  unfold transition. destruct (sockets b !! ws) as [sock|] eqn:E; [|done]. simpl.
  rewrite list_fmap_insert. simpl. apply list_insert_id. by rewrite list_lookup_fmap, E.
Qed.

Lemma sent_ws_close {F C : Type} ws (b : Env F C) :
  sent <$> sockets (ws_close ws b) = sent <$> sockets b.
Proof.
  unfold ws_close. destruct (sockets b !! ws) as [sock|] eqn:E; [|done]. simpl.
  rewrite list_fmap_insert. simpl. apply list_insert_id. by rewrite list_lookup_fmap, E.
Qed.

Lemma sent_reload {F C : Type} (b : Env F C) :
  sent <$> sockets (reload b) = sent <$> sockets b.
Proof. unfold reload. simpl. rewrite <- list_fmap_compose. by apply list_fmap_ext. Qed.

Lemma send_if_open_unmounted (f : Frame) (w : World) :
  wsRef w = None → send_if_open f w = w.
Proof. unfold send_if_open. by intros ->. Qed.

Lemma term_write_unmounted (d : Write) (w : World) :
  termRef w = None → term_write d w = w.
Proof. unfold term_write. by intros ->. Qed.

Lemma unmounted_step (w : World) (e : Event) :
  unmounted w → e ≠ Mount →
  unmounted (step w e) ∧ transmitted (step w e) = transmitted w.
Proof.
  unfold unmounted, transmitted. intros [Ht Hw] He.
  destruct e; cbn [step]; try done.
  - by rewrite Ht.
  - unfold sendCommand. by rewrite send_if_open_unmounted.
  - unfold sendKey. by rewrite send_if_open_unmounted.
  - unfold handleMobileSend. destruct (negb _); [done|].
    by rewrite send_if_open_unmounted.
  - by rewrite Ht.
  - by rewrite Ht.
  - destruct (handleFiles_sockets files w) as (-> & -> & ->). done.
  - unfold uploadSettled, uploadFinally.
    destruct (jobs w !! job) as [[file|]|]; [|done|done].
    destruct o.
    + by rewrite send_if_open_unmounted.
    + by rewrite term_write_unmounted.
    + unfold loaded, unauthorized. cbn [termRef wsRef env]. by rewrite sent_reload.
  - destruct (observing _); [|done].
    rewrite doFit_no_term by done. done.
  - destruct (state_of ws (env w)) as [[]|]; try done.
    unfold onopen. cbn [termRef setStatus with_env]. rewrite Ht.
    cbn [termRef wsRef env setStatus with_env]. by rewrite sent_transition.
  - destruct (state_of ws (env w)) as [[]|]; try done.
    unfold onmessage. destruct data; by rewrite term_write_unmounted.
  - destruct (state_of ws (env w)) as [[]|]; try done;
      unfold onerror; cbn [termRef wsRef env with_env]; by rewrite sent_ws_close.
  - assert (H : ∀ w1, termRef w1 = None → wsRef w1 = None →
              (termRef (onclose w1) = None ∧ wsRef (onclose w1) = None)
              ∧ sent <$> sockets (env (onclose w1)) = sent <$> sockets (env w1)).
    { intros w1 H1 H2. rewrite shell_onclose_env. unfold onclose.
      rewrite term_write_unmounted by done.
      unfold setTimeout. cbn [termRef wsRef with_reconnectTimer with_env setStatus snd].
      done. }
    destruct (state_of ws (env w)) as [[]|]; try done;
      (destruct (H (with_env (transition ws CLOSED (env w)) w) Ht Hw) as (? & ->);
       cbn [env with_env]; by rewrite sent_transition).
  - destruct (due_timer tid (env w)) as [[]|]; [| |done]; cbn [runCallback].
    + by rewrite connect_no_term.
    + by rewrite doFit_no_term.
Qed.

(** X8.  Between an unmount and the next mount the terminal component
    transmits nothing and opens no socket, whatever arrives in between:
    late socket events, timers that fire, key presses, dropped files,
    geometry changes. *)
Theorem unmounted_terminal_is_silent (tr : list Event) (w : World) :
  unmounted w → Mount ∉ tr →
  unmounted (run w tr)
  ∧ transmitted (run w tr) = transmitted w
  ∧ length (sockets (env (run w tr))) = length (sockets (env w)).
Proof.
  intros Hu Hno.
  assert (H : unmounted (run w tr) ∧ transmitted (run w tr) = transmitted w).
  { revert w Hu. induction tr as [|e tr IH]; intros w Hu; [done|].
    apply not_elem_of_cons in Hno as [He Hno].
    change (run w (e :: tr)) with (run (step w e) tr).
    destruct (unmounted_step w e Hu (not_eq_sym He)) as [Hu' Hs'].
    destruct (IH Hno _ Hu') as [? ->]. done. }
  destruct H as [H1 H2]. split; [done|]. split; [done|].
  apply (f_equal length) in H2. unfold transmitted in H2.
  by rewrite !length_fmap in H2.
Qed.

(** Unmounted while its socket is open: the socket closes later and a
    reconnect timer is armed and fires, yet nothing is sent and no
    socket is created. *)
Lemma unmounted_terminal_is_silent_witness :
  let w := run initial [SetToken (Some "tok"); Mount; WsOpen 0; TermData "ls"; Unmount] in
  let tr := [TermData "rm"; GeometryChange (FitCells 100 30); WsClose 0;
             Elapse 3000; TimerFire 3; HandleMobileSend; SendKey "q"] in
  unmounted w ∧ (Mount ∉ tr)
  ∧ state_of 0 (env w) = Some CLOSING
  ∧ pending (env (run w [TermData "rm"; GeometryChange (FitCells 100 30); WsClose 0])) =
      [{| due := 3000; callback := CbConnect |}]
  ∧ transmitted (run w tr) = [[Resize 80 24; Text "ls"]].
Proof.
  intros w tr.
  assert (Hu : unmounted w) by (by split).
  assert (Hno : Mount ∉ tr).
  { unfold tr. rewrite !not_elem_of_cons. repeat split; try discriminate.
    apply not_elem_of_nil. }
  destruct (unmounted_terminal_is_silent tr w Hu Hno) as (_ & Hs & _).
  split; [done|]. split; [done|]. split; [reflexivity|]. split; [reflexivity|].
  rewrite Hs. reflexivity.
Defined.

End ShellSilence.

(** *** What the terminal receives and sends *)

Section ShellStreams.
Import Browser Terminal ShellNet.

Lemma shell_onmessage_eq (data : Inbound) (w : World) :
  onmessage data w = term_write (toWrite data) w.
Proof. by destruct data. Qed.

(** X9.  Inbound frames of the shell reach the terminal verbatim and in
    arrival order: after any series of messages on an open socket the
    terminal has been written exactly these frames after what it had,
    text as text and binary frames as bytes, and nothing else of the
    component has changed. *)
Theorem shell_output_in_arrival_order (w : World) (ws : nat) (t : Term)
    (datas : list Inbound) :
  termRef w = Some t →
  state_of ws (env w) = Some OPEN →
  run w (WsMessage ws <$> datas) =
    with_termRef
      (Some {| cols := cols t; rows := rows t;
               written := written t ++ (toWrite <$> datas) |}) w.
Proof.
  revert w t. induction datas as [|d datas IH]; intros w t Ht Hopen.
  - simpl. rewrite app_nil_r. destruct w; simpl in *. subst. by destruct t.
  - rewrite fmap_cons.
    change (run w (WsMessage ws d :: (WsMessage ws <$> datas)))
      with (run (step w (WsMessage ws d)) (WsMessage ws <$> datas)).
    cbn [step]. rewrite Hopen, shell_onmessage_eq.
    unfold term_write. rewrite Ht.
    erewrite IH; [|reflexivity|done].
    cbn [cols rows written]. rewrite <- app_assoc. reflexivity.
Qed.

(** Text, an escape sequence in a binary frame, text. *)
Lemma shell_output_in_arrival_order_witness :
  let w := run initial [SetToken (Some "tok"); Mount; WsOpen 0] in
  let datas := [InText "$ "; InBinary [27%N; 91%N; 72%N]; InText "ok"] in
  termRef w = Some {| cols := 80; rows := 24; written := [] |}
  ∧ state_of 0 (env w) = Some OPEN
  ∧ written <$> termRef (run w (WsMessage 0 <$> datas)) =
      Some [WriteText "$ "; WriteBytes [27%N; 91%N; 72%N]; WriteText "ok"].
Proof.
  intros w datas. split; [reflexivity|]. split; [reflexivity|].
  rewrite (shell_output_in_arrival_order w 0 _ datas eq_refl eq_refl). reflexivity.
Defined.

Lemma land_255 (c : N) : N.land c 255 = (c mod 256)%N.
Proof. change 255%N with (N.ones 8). rewrite N.land_ones. reflexivity. Qed.

(** X10.  [term.onBinary] sends one binary frame with one byte per
    character of its input: the low eight bits of each character code,
    in order; input that is made of bytes is sent unchanged. *)
Theorem onBinary_sends_low_bytes (w : World) (ws : nat) (sock : WebSocket Frame)
    (t : Term) (data : list N) :
  termRef w = Some t →
  wsRef w = Some ws →
  sockets (env w) !! ws = Some sock →
  readyState sock = OPEN →
  ∃ bytes,
    ShellGhost.sentOn ws (step w (TermBinary data)) = sent sock ++ [Binary bytes]
    ∧ length bytes = length data
    ∧ Forall (λ b, (b < 256)%N) bytes
    ∧ (∀ i c, data !! i = Some c → bytes !! i = Some (c mod 256)%N)
    ∧ (Forall (λ c, (c < 256)%N) data → bytes = data).
Proof.
  intros Ht Hw Hs Hopen.
  exists (map (λ c, N.land c 255) data).
  split; [|split; [|split; [|split]]].
  - cbn [step]. rewrite Ht.
    destruct (shell_sentOn_send w ws sock (Binary (map (λ c, N.land c 255) data))
                Hw Hs Hopen) as [Hsock _].
    unfold ShellGhost.sentOn. rewrite Hsock.
    rewrite list_lookup_insert_eq by (by eapply lookup_lt_Some). reflexivity.
  - apply length_map.
  - apply Forall_fmap, Forall_true. intros c. simpl. rewrite land_255.
    by apply N.mod_lt.
  - intros i c Hi. change (map ?f ?l) with (f <$> l).
    rewrite list_lookup_fmap, Hi. simpl. by rewrite land_255.
  - intros Hsmall. induction Hsmall as [|c l Hc _ IH]; [done|].
    simpl. rewrite IH, land_255. by rewrite N.mod_small.
Qed.

(** Character code 300 goes out as byte 44. *)
Lemma onBinary_sends_low_bytes_witness :
  let w := run initial [SetToken (Some "tok"); Mount; WsOpen 0] in
  termRef w = Some {| cols := 80; rows := 24; written := [] |}
  ∧ wsRef w = Some 0
  ∧ state_of 0 (env w) = Some OPEN
  ∧ ShellGhost.sentOn 0 (step w (TermBinary [27%N; 300%N; 255%N])) =
      [Resize 80 24; Binary [27%N; 44%N; 255%N]].
Proof.
  intros w.
  destruct (onBinary_sends_low_bytes w 0
              {| endpoint := "/api/pty/ws"; credential := "tok"; readyState := OPEN;
                 sent := [Resize 80 24]; closeCalls := 0 |}
              {| cols := 80; rows := 24; written := [] |} [27%N; 300%N; 255%N]
              eq_refl eq_refl eq_refl eq_refl) as (bytes & Hsent & _).
  split; [reflexivity|]. split; [reflexivity|]. split; [reflexivity|].
  reflexivity.
Defined.

End ShellStreams.

(** *** The uploads of the terminal *)

Section ShellUploads.
Import Browser Terminal ShellNet.

Lemma shell_requests_step_files (w : World) (e : Event) :
  uploadRequests (env (step w e)) = uploadRequests (env w) ++ handed e.
Proof.
  destruct e; cbn [step handed]; rewrite ?app_nil_r.
  - destruct (termRef w); by rewrite ?mount_requests.
  - destruct (termRef w); by rewrite ?unmount_requests.
  - unfold sendCommand. by rewrite send_if_open_requests.
  - unfold sendKey. by rewrite send_if_open_requests.
  - done.
  - unfold handleMobileSend. destruct (negb _); [done|].
    cbn. by rewrite send_if_open_requests.
  - destruct (termRef w); by rewrite ?send_if_open_requests.
  - destruct (termRef w); by rewrite ?send_if_open_requests.
  - by rewrite shell_handleFiles_requests.
  - unfold uploadSettled, uploadFinally.
    destruct (jobs w !! job) as [[file|]|]; [|done|done].
    destruct o; cbn; by rewrite ?send_if_open_requests, ?term_write_env.
  - destruct (observing _); [|done]. by rewrite doFit_requests.
  - done.
  - destruct (state_of ws (env w)) as [[]|]; try done.
    unfold onopen. cbn. destruct (termRef w); cbn;
      by rewrite ?ws_send_requests, transition_requests.
  - destruct (state_of ws (env w)) as [[]|]; try done.
    unfold onmessage. by destruct data; rewrite term_write_env.
  - destruct (state_of ws (env w)) as [[]|]; try done;
      unfold onerror; cbn; by rewrite ws_close_requests.
  - destruct (state_of ws (env w)) as [[]|]; try done;
      unfold onclose; cbn; rewrite term_write_env; cbn;
      by rewrite transition_requests.
  - done.
  - destruct (due_timer tid (env w)) as [[]|]; [| |done]; cbn [runCallback].
    + by rewrite shell_connect_requests.
    + by rewrite doFit_requests.
Qed.

(** X21.  In the terminal every file handed to [handleFiles] is
    requested exactly once: along any run the calls of [api.uploadFile]
    are the files handed over, file by file and in the order of the
    hand-over, each file as often as it was handed over; no other event
    makes a request, whatever the outcome of an upload, and no request
    is forgotten. *)
Theorem shell_requests_are_the_files_handed (tr : list Event) (w : World) :
  uploadRequests (env (run w tr)) = uploadRequests (env w) ++ filesHanded tr
  ∧ uploadRequests (env (run initial tr)) = filesHanded tr
  ∧ ∀ files, uploadRequests (env (run w (tr ++ [HandleFiles files]))) =
               uploadRequests (env (run w tr)) ++ files.
Proof.
  assert (H : ∀ tr w, uploadRequests (env (run w tr)) =
                        uploadRequests (env w) ++ filesHanded tr).
  { clear. induction tr as [|e tr IH]; intros w; [by rewrite app_nil_r|].
    change (run w (e :: tr)) with (run (step w e) tr).
    rewrite IH, shell_requests_step_files, <- app_assoc. done. }
  split; [apply H|]. split; [apply H|].
  intros files. rewrite !H. unfold filesHanded. rewrite flat_map_app. simpl.
  by rewrite app_nil_r, app_assoc.
Qed.

End ShellUploads.

(** *** The history of the command runner *)

Section RunnerHistory.
Import Browser Runner RunnerKeys.

Lemma handleKeyDown_frame key (w w' : World) :
  handleKeyDown key w = Some w' →
  env w' = env w ∧ wsRef w' = wsRef w ∧ history w' = history w
  ∧ lines w' = lines w ∧ running w' = running w ∧ cwd w' = cwd w.
Proof.
  unfold handleKeyDown. intros H.
  repeat (case_match; simplify_option_eq); done.
Qed.

Lemma handleKeyDown_total key (w : World) :
  idxInRange w →
  ∃ w', handleKeyDown key w = Some w' ∧ idxInRange w'
        ∧ (∀ i, historyIdx w' = Some i → history w !! i = Some (input w') ∨ w' = w).
Proof.
  unfold idxInRange. intros Hin. destruct key; unfold handleKeyDown.
  - destruct (length (history w) =? 0)%nat eqn:E; [by eauto|].
    apply Nat.eqb_neq in E.
    set (newIdx := match historyIdx w with
                   | None => length (history w) - 1
                   | Some i => Nat.max 0 (i - 1)
                   end).
    assert (Hlt : newIdx < length (history w)).
    { unfold newIdx. destruct (historyIdx w) as [i|]; [|lia].
      specialize (Hin i eq_refl). lia. }
    destruct (lookup_lt_is_Some_2 _ _ Hlt) as [entry He]. rewrite He.
    clearbody newIdx. simpl.
    eexists. split; [done|]. simpl. split.
    + intros i Hi. by simplify_eq.
    + intros i Hi. simplify_eq. by left.
  - destruct (historyIdx w) as [i|] eqn:Ei;
      [|exists w; rewrite Ei; by repeat split].
    destruct (length (history w) <=? i + 1)%nat eqn:E.
    + eexists. split; [done|]. simpl. split; by intros.
    + apply Nat.leb_gt in E.
      destruct (lookup_lt_is_Some_2 _ _ E) as [entry He]. rewrite He. simpl.
      eexists. split; [done|]. simpl. split.
      * by intros ? [= <-].
      * intros ? [= <-]. by left.
  - eexists. split; [done|]. split; [done|]. by right.
Qed.

Lemma concat_insert_last {A : Type} (l : list (list A)) (i : nat) (x y : list A) :
  S i = length l → l !! i = Some x →
  concat (<[i := x ++ y]> l) = concat l ++ y.
Proof.
  revert i. induction l as [|a l IH]; intros i Hlen Hx; [done|].
  destruct i as [|i]; simpl in *.
  - destruct l; [|done]. simplify_eq. simpl. by rewrite !app_nil_r.
  - rewrite IH by (done || lia). by rewrite app_assoc.
Qed.

Lemma transmitted_sockets (w w' : World) :
  sent <$> sockets (env w') = sent <$> sockets (env w) → transmitted w' = transmitted w.
Proof. unfold transmitted. by intros ->. Qed.

Lemma runner_connect_consistent (w : World) : consistent w → consistent (connect w).
Proof.
  unfold consistent, idxInRange, refIsLast, transmitted. intros (Hi & Hr & Hh & Hs).
  unfold connect. destruct (token (env w)) as [tok|]; [|done].
  destruct (JS.truthy tok); [|done].
  unfold newWebSocket. cbn [env wsRef history historyIdx with_env with_wsRef sockets with_sockets].
  split; [done|]. split.
  - intros ws [= <-]. rewrite length_app. simpl. lia.
  - split; [|done]. rewrite fmap_app, concat_app. simpl. by rewrite app_nil_r.
Qed.

Lemma runner_sendCommand_consistent cmd (w : World) :
  consistent w → consistent (sendCommand cmd w).
Proof.
  unfold consistent, idxInRange, refIsLast, transmitted. intros (Hi & Hr & Hh & Hs).
  unfold sendCommand.
  destruct (is_open (wsRef w) (env w)) eqn:Hopen; [|done]. simpl.
  destruct (JS.truthy (JS.trim cmd)) eqn:Ht; [|done]. simpl.
  destruct (String.eqb (JS.trim cmd) "clear") eqn:Hc; [done|].
  destruct (wsRef w) as [ws|] eqn:Hw; [|done].
  cbn [wsRef setHistoryIdx setHistory setRunning setLines].
  apply is_open_Some in Hopen as (sock & Hsock & Hstate).
  rewrite (ws_send_open _ _ _ _ Hsock Hstate).
  cbn [env wsRef history historyIdx with_env sockets with_sockets setHistoryIdx
         setHistory setRunning setLines].
  split; [done|]. split.
  - intros ws0 Hws0. rewrite length_insert. apply Hr. simpl in Hws0. congruence.
  - split.
    + rewrite list_fmap_insert. cbn [sent push_frame].
      rewrite concat_insert_last; [|rewrite length_fmap; by apply Hr
                                   |by rewrite list_lookup_fmap, Hsock].
      rewrite fmap_app. by rewrite Hh.
    + apply Forall_app. split; [done|]. constructor; [|done]. split.
      * by apply truthy_true.
      * by apply String.eqb_neq.
Qed.

Lemma runner_step_consistent (w : World) (e : Runner.Event) :
  consistent w → consistent (Runner.step w e).
Proof.
  intros Hc.
  assert (Hsame : ∀ w', historyIdx w' = historyIdx w → history w' = history w →
            sent <$> sockets (env w') = sent <$> sockets (env w) →
            (wsRef w' = wsRef w ∨ wsRef w' = None) →
            consistent w').
  { intros w' H1 H2 H3 H4. destruct Hc as (Hi & Hr & Hh & Hs).
    unfold consistent, idxInRange, refIsLast. rewrite H1, H2, (transmitted_sockets w w' H3).
    split; [done|]. split; [|done].
    intros ws Hws. destruct H4 as [H4|H4]; rewrite H4 in Hws; [|done].
    apply (f_equal length) in H3. rewrite !length_fmap in H3. rewrite H3. by apply Hr. }
  destruct e; cbn [Runner.step].
  - by apply runner_connect_consistent.
  - unfold cleanup. destruct (wsRef w); apply Hsame; try done; auto.
    cbn [env with_env with_wsRef]. apply sent_ws_close.
  - apply Hsame; auto.
  - unfold handleSubmit.
    destruct (runner_sendCommand_consistent (input w) w Hc) as (Hi & Hr & Hh & Hs).
    done.
  - by apply runner_sendCommand_consistent.
  - apply Hsame; auto.
  - destruct (state_of ws (env w)) as [[]|]; try done.
    apply Hsame; auto. cbn [env with_env]. apply sent_transition.
  - destruct (state_of ws (env w)) as [[]|]; try done.
    destruct data as [d|c|[d|]|t]; cbn [onmessage];
      try destruct (JS.truthy d); by apply Hsame; auto.
  - assert (H : consistent (onclose (with_env (transition ws CLOSED (env w)) w))).
    { apply Hsame; auto. unfold onclose, setTimeout.
      cbn [env with_env snd sockets with_timers]. apply sent_transition. }
    by destruct (state_of ws (env w)) as [[]|].
  - apply Hsame; auto.
  - destruct (due_timer tid (env w)) as [[]|]; [|done].
    apply runner_connect_consistent. apply Hsame; auto.
Qed.

Lemma runner_initial_consistent : consistent Runner.initial.
Proof. by repeat split. Qed.

Lemma keys_step_consistent (w : World) (e : RunnerKeys.Event) :
  consistent w → ∃ w', RunnerKeys.step w e = Some w' ∧ consistent w'.
Proof.
  intros Hc. destruct e as [e|key]; cbn [RunnerKeys.step].
  - eexists. split; [done|]. by apply runner_step_consistent.
  - destruct (running w); [by exists w|].
    destruct Hc as (Hi & Hr & Hh & Hs).
    destruct (handleKeyDown_total key w Hi) as (w' & Hk & Hi' & _).
    exists w'. split; [done|].
    destruct (handleKeyDown_frame key w w' Hk) as (He & Hw & Hhist & _).
    unfold consistent, refIsLast, transmitted in *. rewrite He, Hw, Hhist. done.
Qed.

(** X11.  In the command runner every run from the initial state is
    defined (history navigation never reads outside the history), and
    at its end the history is exactly the sequence of commands
    transmitted, in order, none of them made of white space only or
    equal to [clear] once trimmed, with [historyIdx] either -1 or an
    index of the history. *)
Theorem runner_history_is_what_was_sent (tr : list RunnerKeys.Event) :
  ∃ w, RunnerKeys.run Runner.initial tr = Some w
       ∧ history w = transmitted w
       ∧ Forall (λ cmd, ¬ JS.blank cmd ∧ JS.trim cmd ≠ "clear") (history w)
       ∧ (∀ i, historyIdx w = Some i → i < length (history w)).
Proof.
  assert (H : ∀ w0, consistent w0 → ∃ w, RunnerKeys.run w0 tr = Some w ∧ consistent w).
  { induction tr as [|e tr IH]; intros w0 Hc; [by exists w0|].
    destruct (keys_step_consistent w0 e Hc) as (w1 & Hs & Hc1).
    destruct (IH w1 Hc1) as (w & Hr & Hcw).
    exists w. split; [|done]. simpl. by rewrite Hs. }
  destruct (H _ runner_initial_consistent) as (w & Hr & Hi & _ & Hh & Hs).
  exists w. split; [done|]. split; [done|]. split; [|done].
  eapply Forall_impl; [exact Hs|]. intros cmd [Hb Hc]. split; [|done].
  by rewrite <- trim_blank_iff.
Qed.

(** A command made of a no-break space is dropped like an empty one,
    and one that ends with it is sent as typed. *)
Example runner_no_break_space :
  let w := Runner.run Runner.initial
             [Runner.SetToken (Some "tok"); Runner.Mount; Runner.WsOpen 0] in
  Runner.step w (Runner.QuickCommand (JS.utf8 0xA0)) = w
  ∧ history (Runner.step w (Runner.QuickCommand ("ls" +:+ JS.utf8 0xA0))) =
      ["ls" +:+ JS.utf8 0xA0].
Proof. split; reflexivity. Qed.

End RunnerHistory.

(** *** Walking the history with the arrow keys *)

Section HistoryWalk.
Import Browser Runner RunnerKeys.

Lemma keys_run_app (w : World) (tr1 tr2 : list RunnerKeys.Event) :
  RunnerKeys.run w (tr1 ++ tr2) = RunnerKeys.run w tr1 ≫= λ w', RunnerKeys.run w' tr2.
Proof.
  revert w. induction tr1 as [|e tr1 IH]; intros w; [done|].
  simpl. destruct (RunnerKeys.step w e) as [w1|]; simpl; [apply IH|done].
Qed.

Lemma run_presses_S (w : World) (k : nat) (key : Key) :
  running w = false →
  RunnerKeys.run w (presses (S k) key) =
    handleKeyDown key w ≫= λ w', RunnerKeys.run w' (presses k key).
Proof.
  intros H. unfold presses. cbn [replicate RunnerKeys.run RunnerKeys.step].
  by rewrite H.
Qed.

Lemma arrowUp_recalled (w : World) (i : nat) (e e' : string) :
  history w !! (i - 1) = Some e' →
  handleKeyDown ArrowUp (recalled i e w) = Some (recalled (i - 1) e' w).
Proof.
  intros H. unfold handleKeyDown.
  cbn [history historyIdx recalled setInput setHistoryIdx].
  assert (Hlen : length (history w) ≠ 0).
  { apply lookup_lt_Some in H. lia. }
  apply Nat.eqb_neq in Hlen. rewrite Hlen.
  replace (Nat.max 0 (i - 1)) with (i - 1) by lia. rewrite H. reflexivity.
Qed.

(** [k] more presses of ArrowUp from entry [i]. *)
Lemma ups_from_recalled (w : World) (k i : nat) (e : string) :
  running w = false →
  i < length (history w) →
  history w !! i = Some e →
  ∃ e', history w !! (i - k) = Some e'
        ∧ RunnerKeys.run (recalled i e w) (presses k ArrowUp) =
            Some (recalled (i - k) e' w).
Proof.
  intros Hrun. revert i e. induction k as [|k IH]; intros i e Hi He.
  - exists e. rewrite Nat.sub_0_r. done.
  - assert (Hlt : i - 1 < length (history w)) by lia.
    destruct (lookup_lt_is_Some_2 _ _ Hlt) as [e1 He1].
    destruct (IH (i - 1) e1 Hlt He1) as (e2 & He2 & Hgo).
    exists e2. replace (i - S k) with (i - 1 - k) by lia. split; [done|].
    rewrite run_presses_S by done.
    by rewrite (arrowUp_recalled w i e e1 He1).
Qed.

Lemma arrowDown_recalled (w : World) (i : nat) (e e' : string) :
  history w !! (i + 1) = Some e' →
  handleKeyDown ArrowDown (recalled i e w) = Some (recalled (i + 1) e' w).
Proof.
  intros H. unfold handleKeyDown.
  cbn [history historyIdx recalled setInput setHistoryIdx].
  assert (Hlen : i + 1 < length (history w)) by (by eapply lookup_lt_Some).
  apply Nat.leb_gt in Hlen. rewrite Hlen. rewrite H. reflexivity.
Qed.

Lemma arrowDown_last (w : World) (i : nat) (e : string) :
  length (history w) ≤ i + 1 →
  handleKeyDown ArrowDown (recalled i e w) = Some (setInput "" (setHistoryIdx None w)).
Proof.
  intros H. unfold handleKeyDown.
  cbn [history historyIdx recalled setInput setHistoryIdx].
  apply Nat.leb_le in H. rewrite H. reflexivity.
Qed.

(** As many presses of ArrowDown as there are entries from [i] on. *)
Lemma downs_from_recalled (w : World) (k i : nat) (e : string) :
  running w = false →
  i + k = length (history w) → 1 ≤ k →
  RunnerKeys.run (recalled i e w) (presses k ArrowDown) =
    Some (setInput "" (setHistoryIdx None w)).
Proof.
  intros Hrun. revert i e. induction k as [|k IH]; intros i e Hlen Hk; [lia|].
  rewrite run_presses_S by done. destruct k as [|k].
  - rewrite arrowDown_last by lia. done.
  - assert (Hlt : i + 1 < length (history w)) by lia.
    destruct (lookup_lt_is_Some_2 _ _ Hlt) as [e1 He1].
    rewrite (arrowDown_recalled w i e e1 He1).
    apply (IH (i + 1) e1); lia.
Qed.

(** X12.  History navigation.  From a panel that runs no command, is
    not navigating and has a history of [n] commands, [k] presses of
    ArrowUp show the
    [k]-th most recent command, the oldest one when [k] exceeds [n];
    as many presses of ArrowDown as went up leave the input empty,
    not as it was before; and ArrowDown alone changes nothing. *)
Theorem history_walk (w : World) (k : nat) :
  running w = false →
  historyIdx w = None →
  1 ≤ k →
  history w ≠ [] →
  let n := length (history w) in
  let i := n - Nat.min k n in
  ∃ entry,
    history w !! i = Some entry
    ∧ RunnerKeys.run w (presses k ArrowUp) = Some (recalled i entry w)
    ∧ RunnerKeys.run w (presses k ArrowUp ++ presses (Nat.min k n) ArrowDown) =
        Some (setInput "" w)
    ∧ RunnerKeys.run w (presses k ArrowDown) = Some w.
Proof.
  intros Hrun Hidx Hk Hne n i.
  assert (Hn : 0 < n) by (unfold n; destruct (history w); simpl; [done|lia]).
  assert (Hlast : n - 1 < length (history w)) by (fold n; lia).
  destruct (lookup_lt_is_Some_2 _ _ Hlast) as [e0 He0].
  assert (Hfirst : handleKeyDown ArrowUp w = Some (recalled (n - 1) e0 w)).
  { unfold handleKeyDown. rewrite Hidx. fold n.
    assert (Hz : n ≠ 0) by lia. apply Nat.eqb_neq in Hz. rewrite Hz.
    rewrite He0. reflexivity. }
  assert (Hnone : setHistoryIdx None w = w).
  { destruct w. simpl in *. by subst. }
  destruct k as [|k]; [lia|].
  destruct (ups_from_recalled w k (n - 1) e0 Hrun Hlast He0) as (e1 & He1 & Hgo).
  assert (Hi : i = n - 1 - k) by (unfold i; lia).
  exists e1. rewrite Hi. split; [done|].
  assert (Hup : RunnerKeys.run w (presses (S k) ArrowUp) = Some (recalled (n - 1 - k) e1 w)).
  { rewrite run_presses_S by done. by rewrite Hfirst. }
  split; [done|]. split.
  - rewrite keys_run_app, Hup. cbn [mbind option_bind].
    rewrite downs_from_recalled; [by rewrite Hnone|done| |]; fold n; lia.
  - clear -Hidx Hrun. induction (S k) as [|j IH]; [done|].
    rewrite run_presses_S by done. unfold handleKeyDown. by rewrite Hidx.
Qed.

(** Three commands sent and a draft typed: two presses recall [pwd],
    seven stay on [ls], and going back down clears the draft. *)
Lemma history_walk_witness :
  let w := Runner.run Runner.initial
             [Runner.SetToken (Some "tok"); Runner.Mount; Runner.WsOpen 0;
              Runner.QuickCommand "ls"; Runner.QuickCommand "pwd";
              Runner.QuickCommand "git status";
              Runner.WsMessage 0 (Runner.InExit None); Runner.SetInput "draft"] in
  running w = false ∧ historyIdx w = None ∧ history w = ["ls"; "pwd"; "git status"]
  ∧ input <$> RunnerKeys.run w (presses 2 ArrowUp) = Some "pwd"
  ∧ input <$> RunnerKeys.run w (presses 7 ArrowUp) = Some "ls"
  ∧ input <$> RunnerKeys.run w (presses 2 ArrowUp ++ presses 2 ArrowDown) = Some "".
Proof.
  intros w.
  destruct (history_walk w 2 eq_refl eq_refl ltac:(lia) ltac:(discriminate))
    as (e2 & He2 & Hup2 & Hdown2 & _).
  destruct (history_walk w 7 eq_refl eq_refl ltac:(lia) ltac:(discriminate))
    as (e7 & He7 & Hup7 & _).
  split; [reflexivity|]. split; [reflexivity|]. split; [reflexivity|].
  split; [|split].
  - rewrite Hup2. vm_compute in He2. by injection He2 as <-.
  - rewrite Hup7. vm_compute in He7. by injection He7 as <-.
  - change (presses 2 ArrowDown) with (presses (Nat.min 2 (length (history w))) ArrowDown).
    by rewrite Hdown2.
Defined.

Lemma running_step (w : World) (e : RunnerKeys.Event) :
  running w = true → isExit e = false →
  ∃ w', RunnerKeys.step w e = Some w' ∧ running w' = true.
Proof.
  intros Hrun He. destruct e as [e|key]; cbn [RunnerKeys.step].
  - eexists. split; [done|].
    destruct e; cbn [Runner.step]; try done.
    + unfold connect, newWebSocket. by repeat case_match.
    + unfold cleanup. by destruct (wsRef w).
    + unfold handleSubmit, sendCommand. by repeat case_match.
    + unfold sendCommand. by repeat case_match.
    + by repeat case_match.
    + destruct (state_of ws (env w)) as [[]|]; try done.
      by destruct data.
    + by repeat case_match.
    + destruct (due_timer tid (env w)) as [[]|]; [|done].
      unfold connect, newWebSocket. by repeat case_match.
  - rewrite Hrun. by exists w.
Qed.

(** X23.  Only an [exit] message ends a command.  Once a command runs,
    every sequence of events without a delivered [exit] is defined and
    leaves [running] set, through output, a lost connection and
    its reconnection alike; the input stays disabled, so that key
    presses change nothing. *)
Theorem running_latched (tr : list RunnerKeys.Event) (w : World) :
  running w = true →
  Forall (λ e, isExit e = false) tr →
  ∃ w', RunnerKeys.run w tr = Some w'
        ∧ running w' = true
        ∧ ∀ key, RunnerKeys.step w' (KeyDown key) = Some w'.
Proof.
  intros Hrun Hok. revert w Hrun.
  induction Hok as [|e tr He Hok IH]; intros w Hrun.
  - exists w. split; [done|]. split; [done|]. intros key. cbn [RunnerKeys.step].
    by rewrite Hrun.
  - destruct (running_step w e Hrun He) as (w1 & Hs & Hr1).
    destruct (IH w1 Hr1) as (w' & Hgo & Hr' & Hkeys).
    exists w'. split; [|done]. simpl. by rewrite Hs.
Qed.

(** [make] started, the socket lost and replaced: the panel is
    connected again, still running, and ArrowUp does nothing. *)
Lemma running_latched_witness :
  let w := Runner.run Runner.initial
             [Runner.SetToken (Some "tok"); Runner.Mount; Runner.WsOpen 0;
              Runner.QuickCommand "make"] in
  let tr := [Panel (Runner.WsMessage 0 (Runner.InOutput "cc -c a.c"));
             Panel (Runner.WsClose 0); Panel (Runner.Elapse 3000);
             Panel (Runner.TimerFire 0); Panel (Runner.WsOpen 1);
             Panel (Runner.WsMessage 1 (Runner.InPrompt "/root"))] in
  running w = true
  ∧ Forall (λ e, isExit e = false) tr
  ∧ ∃ w', RunnerKeys.run w tr = Some w'
          ∧ is_open (wsRef w') (env w') = true
          ∧ cwd w' = "/root"
          ∧ running w' = true
          ∧ RunnerKeys.step w' (KeyDown ArrowUp) = Some w'.
Proof.
  intros w tr.
  assert (Hok : Forall (λ e, isExit e = false) tr) by (by repeat constructor).
  destruct (running_latched tr w eq_refl Hok) as (w' & Hgo & Hr & Hkeys).
  split; [reflexivity|]. split; [done|]. exists w'.
  split; [done|]. split; [|split; [|by split]].
  - vm_compute in Hgo. injection Hgo as <-. reflexivity.
  - vm_compute in Hgo. injection Hgo as <-. reflexivity.
Defined.

End HistoryWalk.

(** *** The prompt of the command runner *)

Section ShortPath.
Import Runner.

Lemma substring_all (s : string) : String.substring 0 (String.length s) s = s.
Proof. induction s as [|c s IH]; simpl; [done|]. by rewrite IH. Qed.

Lemma prefix_append (p s : string) : String.prefix p (p +:+ s) = true.
Proof.
  induction p as [|c p IH]; simpl; [by destruct s|].
  destruct (ascii_dec c c); [done|congruence].
Qed.

Lemma prefix_split (p s : string) :
  String.prefix p s = true → ∃ rest, s = p +:+ rest.
Proof.
  revert s. induction p as [|c p IH]; intros s H; [by exists s|].
  destruct s as [|d s]; simpl in H; [done|].
  destruct (ascii_dec c d) as [->|]; [|done].
  destruct (IH s H) as [rest ->]. by exists rest.
Qed.

(** X13.  [shortPath] replaces the home directory by a tilde and
    nothing else: [/root] becomes [~], [/root/rest] becomes [~/rest],
    any other path is shown as it is ([/rooted] too), and two absolute
    paths are never shown alike. *)
Theorem shortPath_abbreviates_home :
  shortPath "/root" = "~"
  ∧ (∀ rest, shortPath ("/root/" +:+ rest) = "~/" +:+ rest)
  ∧ (∀ p, p ≠ "/root" → String.prefix "/root/" p = false → shortPath p = p)
  ∧ (∀ p q, String.prefix "/" p = true → String.prefix "/" q = true →
            shortPath p = shortPath q → p = q).
Proof.
  assert (H1 : shortPath "/root" = "~") by reflexivity.
  assert (H2 : ∀ rest, shortPath ("/root/" +:+ rest) = "~/" +:+ rest).
  { intros rest. unfold shortPath.
    change (String.eqb ("/root/" +:+ rest) "/root") with (String.eqb ("/" +:+ rest) "").
    change (String.eqb ("/" +:+ rest) "") with false. cbv iota.
    rewrite prefix_append.
    change (String.length ("/root/" +:+ rest) - String.length "/root")
      with (String.length ("/" +:+ rest)).
    change (String.substring (String.length "/root") (String.length ("/" +:+ rest))
              ("/root/" +:+ rest))
      with (String.substring 0 (String.length ("/" +:+ rest)) ("/" +:+ rest)).
    by rewrite substring_all. }
  assert (H3 : ∀ p, p ≠ "/root" → String.prefix "/root/" p = false → shortPath p = p).
  { intros p Hne Hpre. unfold shortPath.
    apply String.eqb_neq in Hne. rewrite Hne.
    change ("/root" +:+ "/") with "/root/". by rewrite Hpre. }
  split; [done|]. split; [done|]. split; [done|].
  assert (Hcase : ∀ p, String.prefix "/" p = true →
            (p = "/root" ∧ shortPath p = "~")
            ∨ (∃ rest, p = "/root/" +:+ rest ∧ shortPath p = "~/" +:+ rest)
            ∨ shortPath p = p).
  { intros p _. destruct (String.eqb p "/root") eqn:E.
    - apply String.eqb_eq in E as ->. by left.
    - apply String.eqb_neq in E.
      destruct (String.prefix "/root/" p) eqn:E2.
      + apply prefix_split in E2 as [rest ->]. right. left. exists rest. by rewrite H2.
      + right. right. by apply H3. }
  intros p q Hp Hq Heq.
  destruct (Hcase p Hp) as [[-> Hsp]|[(rp & -> & Hsp)|Hsp]];
    destruct (Hcase q Hq) as [[-> Hsq]|[(rq & -> & Hsq)|Hsq]];
    rewrite ?Hsp, ?Hsq in Heq; try done.
  - apply prefix_split in Hq as [r ->]. done.
  - simpl in Heq. by simplify_eq.
  - apply prefix_split in Hq as [r ->]. done.
  - apply prefix_split in Hp as [r ->]. done.
  - apply prefix_split in Hp as [r ->]. done.
Qed.

End ShortPath.

(** *** Sessions and attachments of the composer *)

Section Composer.
Import Browser ChatStore Chat ChatRuns.

Lemma sendMessage_open content atts (w : World) ws :
  wsRef w = Some ws →
  is_open (wsRef w) (env w) = true →
  sendMessage content atts w =
    with_env
      (ws_send ws
         {| out_content := content; out_attachments := atts;
            out_session_id := currentSessionId (store w);
            out_is_first_message :=
              negb (JS.truthy_opt (currentSessionId (store w))) || negb (sentFirstRef w) |}
         (env w))
      (with_store
         (resetStreamChunks
            (setStreaming true
               (addMessage (userMessage (now (env w)) content atts) (store w)))) w).
Proof. intros Hw Hopen. unfold sendMessage. by rewrite Hopen, Hw. Qed.

(** X14.  After [newSession] the next message that goes out asks for
    a fresh session: it carries no session id and [is_first_message]
    true whatever the hook had seen before, and the history holds that
    message alone.  [newSession] does not end an exchange in progress:
    a [done] that arrives after it appends its answer to the new
    history and, when it carries a session id, binds that session
    again. *)
Theorem new_session_starts_fresh (w : World) (ws : nat) (sock : WebSocket Outbound)
    (content : string) (atts : list Attachment) (sid : string) :
  wsRef w = Some ws →
  sockets (env w) !! ws = Some sock →
  readyState sock = OPEN →
  let w1 := run w [NewSession; SendMessage content atts] in
  let w2 := run w [NewSession; WsMessage ws (InDone (Some sid))] in
  Ghost.sentOn ws w1 =
    sent sock ++
      [{| out_content := content; out_attachments := atts;
          out_session_id := None; out_is_first_message := true |}]
  ∧ messages (store w1) = [userMessage (now (env w)) content atts]
  ∧ streaming (store w1) = true
  ∧ (finalContent (streamChunks (store w)) ≠ "" →
     messages (store w2) =
       [assistantMessage (now (env w)) (finalContent (streamChunks (store w)))])
  ∧ (sid ≠ "" → currentSessionId (store w2) = Some sid).
Proof.
  intros Hw Hs Hopen w1 w2.
  assert (Hio : is_open (wsRef w) (env w) = true).
  { rewrite Hw. apply is_open_Some. eauto. }
  assert (Hso : state_of ws (env w) = Some OPEN).
  { rewrite Hw in Hio. by apply is_open_state_of. }
  set (w0 := step w NewSession).
  assert (H0 : w0 = with_store (setMessages [] (setCurrentSession None (store w))) w)
    by reflexivity.
  split; [|split; [|split; [|split]]].
  - unfold w1. change (run w [NewSession; SendMessage content atts])
      with (sendMessage content atts w0).
    rewrite (sentOn_sendMessage content atts w0 ws) by (by rewrite H0).
    rewrite H0. unfold Ghost.sentOn. cbn [env with_store store sentFirstRef]. by rewrite Hs.
  - unfold w1. change (run w [NewSession; SendMessage content atts])
      with (sendMessage content atts w0).
    rewrite (sendMessage_open content atts w0 ws) by (by rewrite H0).
    by rewrite H0.
  - unfold w1. change (run w [NewSession; SendMessage content atts])
      with (sendMessage content atts w0).
    rewrite (sendMessage_open content atts w0 ws) by (by rewrite H0).
    done.
  - intros Hne. unfold w2.
    change (run w [NewSession; WsMessage ws (InDone (Some sid))])
      with (step w0 (WsMessage ws (InDone (Some sid)))).
    cbn [step]. rewrite H0. cbn [env with_store]. rewrite Hso.
    destruct (done_appends (with_store (setMessages [] (setCurrentSession None (store w))) w)
                (Some sid)) as [Hm _].
    by rewrite Hm.
  - intros Hne. unfold w2.
    change (run w [NewSession; WsMessage ws (InDone (Some sid))])
      with (step w0 (WsMessage ws (InDone (Some sid)))).
    cbn [step]. rewrite H0. cbn [env with_store]. rewrite Hso.
    simpl. apply truthy_true in Hne. rewrite Hne. done.
Qed.

Lemma uploadNext_composer (j : nat) (job : UploadJob) (w1 : World) :
  attachments (composer (uploadNext j job w1)) = attachments (composer w1)
  ∧ input (composer (uploadNext j job w1)) = input (composer w1)
  ∧ sentFirstRef (uploadNext j job w1) = sentFirstRef w1.
Proof. chat_cases. Qed.

(** X15.  An upload of the composer reaches the server reference by
    way of the next message.  When the upload resolves, the returned
    filename and path are added to the pending attachments and nothing
    is sent; the next submission sends one frame with the text trimmed
    as [String.prototype.trim] does and all pending attachments, the
    uploaded one last, and clears the
    text and the attachments; a further submission is rejected while
    the answer streams. *)
Theorem uploaded_file_goes_with_next_message (w : World) (j : nat) (job : UploadJob)
    (r : UploadRecord) (ws : nat) (sock : WebSocket Outbound) :
  jobs (composer w) !! j = Some (Some job) →
  wsRef w = Some ws →
  sockets (env w) !! ws = Some sock →
  readyState sock = OPEN →
  streaming (store w) = false →
  let w1 := step w (UploadSettled j (Resolved r)) in
  let w2 := step w1 HandleSend in
  attachments (composer w1) =
    attachments (composer w) ++
      [{| p_filename := filename r; p_path := path r; previewUrl := job_preview job |}]
  ∧ Ghost.sentOn ws w1 = sent sock
  ∧ Ghost.sentOn ws w2 =
      sent sock ++
        [{| out_content := JS.trim (input (composer w));
            out_attachments :=
              map toAttachment (attachments (composer w)) ++
                [{| att_filename := filename r; att_path := path r |}];
            out_session_id := currentSessionId (store w);
            out_is_first_message :=
              negb (JS.truthy_opt (currentSessionId (store w))) || negb (sentFirstRef w) |}]
  ∧ attachments (composer w2) = []
  ∧ input (composer w2) = ""
  ∧ step w2 HandleSend = w2.
Proof.
  intros Hj Hw Hs Hopen Hstr w1 w2.
  assert (Hw1 : w1 = uploadNext j job (uploadResolved job r w)).
  { unfold w1. cbn [step]. unfold uploadSettled. by rewrite Hj. }
  destruct (uploadNext_frame j job (uploadResolved job r w))
    as (_ & _ & _ & Hsock & _ & Hws & Hst).
  destruct (uploadNext_composer j job (uploadResolved job r w)) as (Hatt & Hin & Hsf).
  rewrite <- Hw1 in Hsock, Hws, Hst, Hatt, Hin, Hsf.
  change (sockets (env (uploadResolved job r w))) with (sockets (env w)) in Hsock.
  change (wsRef (uploadResolved job r w)) with (wsRef w) in Hws.
  change (store (uploadResolved job r w)) with (store w) in Hst.
  change (input (composer (uploadResolved job r w))) with (input (composer w)) in Hin.
  change (sentFirstRef (uploadResolved job r w)) with (sentFirstRef w) in Hsf.
  assert (Hatt1 : attachments (composer w1) =
            attachments (composer w) ++
              [{| p_filename := filename r; p_path := path r;
                  previewUrl := job_preview job |}]) by (by rewrite Hatt).
  clear Hatt. clearbody w1.
  assert (Hio : is_open (wsRef w1) (env w1) = true).
  { rewrite Hws, Hw. apply is_open_Some. exists sock. by rewrite Hsock. }
  assert (Hsend : w2 =
            with_composer
              (with_attachments []
                 (with_revokedUrls
                    (revokedUrls (composer w1) ++ omap previewUrl (attachments (composer w1)))
                    (with_input "" (composer w1))))
              (sendMessage (JS.trim (input (composer w1)))
                 (map toAttachment (attachments (composer w1))) w1)).
  { unfold w2. cbn [step]. unfold handleSend. rewrite Hst, Hstr, Hatt1.
    rewrite length_app. cbn [length].
    replace (length (attachments (composer w)) + 1 =? 0)%nat with false
      by (symmetry; apply Nat.eqb_neq; lia).
    rewrite andb_false_r.
    assert (Hc : composer (sendMessage (JS.trim (input (composer w1)))
                   (map toAttachment
                      (attachments (composer w) ++
                         [{| p_filename := filename r; p_path := path r;
                             previewUrl := job_preview job |}])) w1) = composer w1).
    { unfold sendMessage. by repeat case_match. }
    by rewrite Hc. }
  clearbody w2. subst w2.
  split; [done|]. split.
  { unfold Ghost.sentOn. by rewrite Hsock, Hs. }
  split.
  { change (Ghost.sentOn ws (with_composer ?c ?w')) with (Ghost.sentOn ws w').
    rewrite (sentOn_sendMessage _ _ w1 ws) by (done || congruence).
    unfold Ghost.sentOn. rewrite Hsock, Hs, Hst, Hsf, Hin, Hatt1.
    rewrite map_app. reflexivity. }
  split; [done|]. split; [done|].
  cbn [step]. unfold handleSend.
  cbn [composer store with_composer attachments input with_attachments].
  destruct (sendMessage_starts_exchange (JS.trim (input (composer w1)))
              (map toAttachment (attachments (composer w1))) w1 Hio) as [_ Hon].
  rewrite Hon. by destruct (_ && _).
Qed.

(** A session bound and an answer received, then a new session: the
    next message goes out unbound and marked first. *)
Lemma new_session_starts_fresh_witness :
  let w := run initial
             [SetToken (Some "tok"); Connect; WsOpen 0; SendMessage "one" [];
              WsMessage 0 (InSessionId "s1"); WsMessage 0 (InChunk "yes" None);
              WsMessage 0 (InDone None)] in
  wsRef w = Some 0
  ∧ state_of 0 (env w) = Some OPEN
  ∧ currentSessionId (store w) = Some "s1"
  ∧ length (messages (store w)) = 2
  ∧ last (Ghost.sentOn 0 (run w [NewSession; SendMessage "two" []])) =
      Some {| out_content := "two"; out_attachments := [];
              out_session_id := None; out_is_first_message := true |}
  ∧ messages (store (run w [NewSession; SendMessage "two" []])) = [userMessage 0 "two" []].
Proof.
  intros w.
  destruct (new_session_starts_fresh w 0
              {| endpoint := "/api/chat/stream"; credential := "tok"; readyState := OPEN;
                 sent := [{| out_content := "one"; out_attachments := [];
                             out_session_id := None; out_is_first_message := true |}];
                 closeCalls := 0 |}
              "two" [] "s1" eq_refl eq_refl eq_refl) as (Hsent & Hmsg & _).
  split; [reflexivity|]. split; [reflexivity|]. split; [reflexivity|].
  split; [reflexivity|]. split.
  - rewrite Hsent. reflexivity.
  - exact Hmsg.
Defined.

(** A picture chosen, uploaded and sent with a question that was typed
    with a space before it and a no-break space after it: one frame
    with the bare question, and the preview URL revoked. *)
Lemma uploaded_file_goes_with_next_message_witness :
  let file := {| file_name := "plot.png"; file_type := "image/png" |} in
  let r := {| filename := "plot.png"; path := "/uploads/ab12/plot.png"; size := 900;
              content_type := "image/png" |} in
  let w := run initial
             [SetToken (Some "tok"); Connect; WsOpen 0; ChooseFiles [file];
              SetInput (" what is this?" +:+ JS.utf8 0xA0)] in
  jobs (composer w) !! 0 =
    Some (Some {| job_file := file; job_preview := Some 0; job_rest := [] |})
  ∧ wsRef w = Some 0
  ∧ state_of 0 (env w) = Some OPEN
  ∧ streaming (store w) = false
  ∧ Ghost.sentOn 0 (run w [UploadSettled 0 (Resolved r); HandleSend]) =
      [{| out_content := "what is this?";
          out_attachments :=
            [{| att_filename := "plot.png"; att_path := "/uploads/ab12/plot.png" |}];
          out_session_id := None; out_is_first_message := true |}]
  ∧ revokedUrls (composer (run w [UploadSettled 0 (Resolved r); HandleSend])) = [0].
Proof.
  intros file r w.
  destruct (uploaded_file_goes_with_next_message w 0
              {| job_file := file; job_preview := Some 0; job_rest := [] |} r 0
              {| endpoint := "/api/chat/stream"; credential := "tok"; readyState := OPEN;
                 sent := []; closeCalls := 0 |}
              eq_refl eq_refl eq_refl eq_refl eq_refl) as (_ & _ & Hsent & _).
  split; [reflexivity|]. split; [reflexivity|]. split; [reflexivity|].
  split; [reflexivity|]. split.
  - exact Hsent.
  - reflexivity.
Defined.

End Composer.

(** *** Preview URLs are revoked once *)

Section PreviewUrls.
Import Browser ChatStore Chat Previews.

Lemma omap_insert_perm {A B : Type} (f : A → option B) (l : list A) (j : nat) (x y : A) :
  l !! j = Some x →
  option_list (f x) ++ omap f (<[j := y]> l) ≡ₚ option_list (f y) ++ omap f l.
Proof.
  revert j. induction l as [|a l IH]; intros [|j] Hj; simplify_eq/=.
  - destruct (f x), (f y); simpl; try done. apply perm_swap.
  - specialize (IH j Hj). destruct (f a) as [b|]; simpl; [|done].
    rewrite <- !Permutation_middle. by constructor.
Qed.

Lemma omap_delete_perm {A B : Type} (f : A → option B) (l : list A) (j : nat) (x : A) :
  l !! j = Some x →
  option_list (f x) ++ omap f (delete j l) ≡ₚ omap f l.
Proof.
  revert j. induction l as [|a l IH]; intros [|j] Hj; simplify_eq/=.
  - by destruct (f x).
  - specialize (IH j Hj). destruct (f a) as [b|]; simpl; [|done].
    rewrite <- Permutation_middle. by constructor.
Qed.

(** The URLs of [c'] are those of [c] and [fresh], where [fresh] is
    empty or the one URL just created. *)
Lemma urlsOk_grow (c c' : InputArea) (fresh : option nat) :
  urlsOk c →
  revokedUrls c' ++ held c' ≡ₚ (revokedUrls c ++ held c) ++ option_list fresh →
  (fresh = None ∧ objectUrls c ≤ objectUrls c'
   ∨ fresh = Some (objectUrls c) ∧ objectUrls c' = S (objectUrls c)) →
  urlsOk c'.
Proof.
  unfold urlsOk. intros [Hnd Hlt] Hperm Hfresh. rewrite Hperm.
  destruct Hfresh as [[-> Hle]|[-> Heq]]; simpl.
  - rewrite app_nil_r. split; [done|].
    eapply Forall_impl; [done|]. simpl. lia.
  - split.
    + apply NoDup_app. split; [done|]. split; [|apply NoDup_singleton].
      intros u Hu Hin. apply list_elem_of_singleton in Hin as ->.
      rewrite Forall_forall in Hlt. specialize (Hlt _ Hu). lia.
    + apply Forall_app. split.
      * eapply Forall_impl; [done|]. simpl. lia.
      * constructor; [lia|done].
Qed.

Lemma urlsOk_same (c c' : InputArea) :
  attachments c' = attachments c → jobs c' = jobs c →
  revokedUrls c' = revokedUrls c → objectUrls c' = objectUrls c →
  urlsOk c → urlsOk c'.
Proof. unfold urlsOk, held. by intros -> -> -> ->. Qed.

Lemma startFile_urls (file : File) (rest : list File) (w : World) :
  attachments (composer (startFile file rest w).2) = attachments (composer w)
  ∧ jobs (composer (startFile file rest w).2) = jobs (composer w)
  ∧ revokedUrls (composer (startFile file rest w).2) = revokedUrls (composer w)
  ∧ (job_preview (startFile file rest w).1 = None
     ∧ objectUrls (composer (startFile file rest w).2) = objectUrls (composer w)
     ∨ job_preview (startFile file rest w).1 = Some (objectUrls (composer w))
       ∧ objectUrls (composer (startFile file rest w).2) = S (objectUrls (composer w))).
Proof. unfold startFile. destruct (isImageFile file); simpl; repeat split; auto. Qed.

Lemma uploadNext_urls (j : nat) (job : UploadJob) (w1 : World) :
  ∃ new,
    jobs (composer (uploadNext j job w1)) = <[j := new]> (jobs (composer w1))
    ∧ attachments (composer (uploadNext j job w1)) = attachments (composer w1)
    ∧ revokedUrls (composer (uploadNext j job w1)) = revokedUrls (composer w1)
    ∧ (jobPreview new = None
       ∧ objectUrls (composer (uploadNext j job w1)) = objectUrls (composer w1)
       ∨ jobPreview new = Some (objectUrls (composer w1))
         ∧ objectUrls (composer (uploadNext j job w1)) = S (objectUrls (composer w1))).
Proof.
  unfold uploadNext. destruct (job_rest job) as [|next rest].
  - exists None. simpl. repeat split; auto.
  - destruct (startFile_urls next rest w1) as (Ha & Hj & Hr & Ho).
    destruct (startFile next rest w1) as [job' w2]. simpl in *.
    exists (Some job'). rewrite Ha, Hj, Hr. repeat split; auto.
Qed.

Lemma handleFileUpload_urls (files : list File) (w : World) :
  urlsOk (composer w) → urlsOk (composer (handleFileUpload files w)).
Proof.
  intros Hok. destruct files as [|file rest]; [done|].
  unfold handleFileUpload.
  set (w1 := with_composer (with_uploadError None (with_uploading true (composer w))) w).
  destruct (startFile_urls file rest w1) as (Ha & Hj & Hr & Ho).
  destruct (startFile file rest w1) as [job w2]. simpl in Ha, Hj, Hr, Ho.
  cbn [composer with_composer].
  apply (urlsOk_grow (composer w) _ (job_preview job)); [done| |].
  - unfold held. cbn [attachments jobs revokedUrls with_jobs]. rewrite Ha, Hj, Hr.
    rewrite omap_app. simpl. by rewrite !app_assoc.
  - cbn [objectUrls with_jobs]. destruct Ho as [[-> ->]|[-> ->]]; auto.
Qed.

Lemma uploadSettled_urls (j : nat) (o : UploadOutcome) (w : World) :
  urlsOk (composer w) → urlsOk (composer (uploadSettled j o w)).
Proof.
  intros Hok. unfold uploadSettled.
  destruct (jobs (composer w) !! j) as [[job|]|] eqn:Hj; [|done|done].
  destruct o as [r| |].
  - destruct (uploadNext_urls j job (uploadResolved job r w)) as (new & Hjobs & Ha & Hr & Ho).
    apply (urlsOk_grow (composer w) _ (jobPreview new)); [done| |].
    + unfold held. rewrite Hjobs, Ha, Hr.
      cbn [composer uploadResolved with_composer attachments jobs revokedUrls with_attachments].
      rewrite omap_app. simpl.
      assert (Hp : omap previewUrl
                [{| p_filename := filename r; p_path := path r;
                    previewUrl := job_preview job |}] = option_list (job_preview job)).
      { simpl. by destruct (job_preview job). }
      simpl in Hp. rewrite Hp.
      pose proof (omap_insert_perm jobPreview (jobs (composer w)) j (Some job) new Hj) as Hperm.
      simpl in Hperm.
      rewrite <- !app_assoc. do 2 f_equiv.
      rewrite Hperm. apply Permutation_app_comm.
    + cbn [composer uploadResolved with_composer objectUrls with_attachments] in Ho.
      destruct Ho as [[-> ->]|[-> ->]]; auto.
  - destruct (uploadNext_urls j job (uploadRejected job w)) as (new & Hjobs & Ha & Hr & Ho).
    apply (urlsOk_grow (composer w) _ (jobPreview new)); [done| |].
    + unfold held. rewrite Hjobs, Ha, Hr.
      assert (Hrev : revokedUrls (composer (uploadRejected job w)) =
                revokedUrls (composer w) ++ option_list (job_preview job)).
      { unfold uploadRejected, revoke. destruct (job_preview job); simpl; [done|].
        by rewrite app_nil_r. }
      rewrite Hrev.
      assert (Hatt : attachments (composer (uploadRejected job w)) = attachments (composer w)).
      { unfold uploadRejected, revoke. by destruct (job_preview job). }
      assert (Hjb : jobs (composer (uploadRejected job w)) = jobs (composer w)).
      { unfold uploadRejected, revoke. by destruct (job_preview job). }
      rewrite Hatt, Hjb.
      pose proof (omap_insert_perm jobPreview (jobs (composer w)) j (Some job) new Hj) as Hperm.
      simpl in Hperm.
      rewrite <- !app_assoc. f_equiv.
      rewrite Permutation_app_swap_app. f_equiv.
      rewrite Hperm. apply Permutation_app_comm.
    + assert (Hobj : objectUrls (composer (uploadRejected job w)) = objectUrls (composer w)).
      { unfold uploadRejected, revoke. by destruct (job_preview job). }
      rewrite Hobj in Ho. destruct Ho as [[-> ->]|[-> ->]]; auto.
  - split; [constructor|constructor].
Qed.

Lemma delete_out_of_range {A : Type} (l : list A) (i : nat) :
  length l ≤ i → delete i l = l.
Proof.
  intros H. rewrite delete_take_drop, take_ge, drop_ge by lia. apply app_nil_r.
Qed.

Lemma removeAttachment_urls (i : nat) (w : World) :
  urlsOk (composer w) → urlsOk (composer (removeAttachment i w)).
Proof.
  intros Hok. unfold removeAttachment. cbn [composer with_composer].
  destruct (attachments (composer w) !! i) as [removed|] eqn:Hi.
  - apply (urlsOk_grow (composer w) _ None); [done| |].
    + unfold held, revoke.
      assert (Hrev : ∀ c, revokedUrls (with_attachments (delete i (attachments (composer w)))
                  (match previewUrl removed with
                   | Some u => with_revokedUrls (revokedUrls c ++ [u]) c
                   | None => c
                   end)) = revokedUrls c ++ option_list (previewUrl removed)).
      { intros c. destruct (previewUrl removed); simpl; [done|]. by rewrite app_nil_r. }
      rewrite Hrev.
      assert (Hjb : ∀ c, jobs (with_attachments (delete i (attachments (composer w)))
                  (match previewUrl removed with
                   | Some u => with_revokedUrls (revokedUrls c ++ [u]) c
                   | None => c
                   end)) = jobs c).
      { intros c. by destruct (previewUrl removed). }
      rewrite Hjb. cbn [attachments with_attachments]. simpl. rewrite app_nil_r.
      rewrite <- !app_assoc. f_equiv. rewrite !app_assoc. f_equiv.
      apply omap_delete_perm. done.
    + left. split; [done|]. unfold revoke. by destruct (previewUrl removed).
  - apply (urlsOk_same (composer w)); try done.
    cbn [attachments with_attachments]. apply delete_out_of_range. by apply lookup_ge_None.
Qed.

Lemma handleSend_urls (w : World) :
  urlsOk (composer w) → urlsOk (composer (handleSend sendMessage w)).
Proof.
  intros Hok. unfold handleSend.
  destruct (_ && _); [done|]. destruct (streaming (store w)); [done|].
  assert (Hc : ∀ content atts, composer (sendMessage content atts w) = composer w).
  { intros. unfold sendMessage. by repeat case_match. }
  cbn [composer with_composer]. rewrite Hc.
  destruct Hok as [Hnd Hlt]. unfold urlsOk, held in *.
  cbn [revokedUrls attachments jobs objectUrls with_attachments with_revokedUrls with_input].
  simpl. by rewrite <- !app_assoc.
Qed.

Lemma urls_step (w : World) (e : Event) :
  urlsOk (composer w) → urlsOk (composer (step w e)).
Proof.
  intros Hok.
  assert (Hsame : ∀ w', composer w' = composer w → urlsOk (composer w')).
  { by intros w' ->. }
  destruct e; cbn [step]; try (by apply Hsame).
  - apply Hsame. unfold connect, newWebSocket. by repeat case_match.
  - apply Hsame. unfold disconnect. by destruct (wsRef w).
  - apply Hsame. unfold sendMessage. by repeat case_match.
  - by apply (urlsOk_same (composer w)).
  - by apply handleSend_urls.
  - by apply handleFileUpload_urls.
  - by destruct (jobs (composer w) !! job) as [[?|]|].
  - by apply uploadSettled_urls.
  - by apply removeAttachment_urls.
  - apply Hsame. by repeat case_match.
  - apply Hsame. destruct (state_of ws (env w)) as [[]|]; try done.
    by destruct data; simpl; repeat case_match.
  - apply Hsame. by repeat case_match.
  - destruct (due_timer tid (env w)) as [[]|]; simpl; try done.
    apply Hsame. unfold connect, newWebSocket. by repeat case_match.
Qed.

(** X22.  Preview URLs of the composer are revoked at most once.  In
    every run from the initial state no URL is handed to
    [URL.revokeObjectURL] twice, every revoked URL had been created by
    [URL.createObjectURL], and no revoked URL is still held by a
    pending attachment or by an upload in flight. *)
Theorem preview_urls_revoked_once (tr : list Event) :
  let c := composer (run initial tr) in
  NoDup (revokedUrls c)
  ∧ Forall (λ u, u < objectUrls c) (revokedUrls c)
  ∧ (∀ u, u ∈ revokedUrls c → u ∉ held c).
Proof.
  assert (H : ∀ w, urlsOk (composer w) → urlsOk (composer (run w tr))).
  { induction tr as [|e tr IH]; intros w Hw; [done|].
    apply (IH (step w e)). by apply urls_step. }
  assert (H0 : urlsOk (composer initial)).
  { split; constructor. }
  destruct (H _ H0) as [Hnd Hlt]. cbv zeta.
  apply NoDup_app in Hnd as (Hnd & Hdis & _).
  apply Forall_app in Hlt as [Hlt _]. done.
Qed.

End PreviewUrls.

(** *** The preset bar *)

Section PresetFacts.
Import Presets.

Lemma presets_step_requests (w : World) (e : Event) :
  Forall wellFormed (requests w) → Forall wellFormed (requests (step w e)).
Proof.
  intros H. destruct e; cbn [step]; try done.
  - apply Forall_app. split; [done|]. by constructor.
  - unfold handleAdd. destruct (_ || _) eqn:E; [done|].
    apply orb_false_elim in E as [E1 E2].
    apply negb_false_iff, truthy_true in E1, E2.
    cbn [requests with_jobs call with_requests].
    apply Forall_app. split; [done|]. constructor; [|done].
    split; [done|]. split; [done|]. split; apply trim_spec.
  - apply Forall_app. split; [done|]. by constructor.
  - unfold settled. destruct (jobs w !! job) as [[j|]|]; [|done|done].
    destruct r, j; cbn [requests with_jobs call with_requests setLoading setPresets
                         setShowAddForm setNewPrompt setNewLabel loaded]; try done.
    apply Forall_app. split; [done|]. by constructor.
Qed.

(** X16.  The preset bar posts only well-formed presets: in every run
    from the initial state each POST carries a label and a prompt that
    are not empty and have no white-space character of
    [String.prototype.trim] at either end; with a label or a prompt
    made of white space only [handleAdd] does nothing at all. *)
Theorem presets_only_trimmed_posts (tr : list Event) :
  Forall wellFormed (requests (run initial tr))
  ∧ (∀ w, JS.blank (newLabel w) ∨ JS.blank (newPrompt w) → step w HandleAdd = w).
Proof.
  split.
  - assert (H : ∀ w, Forall wellFormed (requests w) →
              Forall wellFormed (requests (run w tr))).
    { induction tr as [|e tr IH]; intros w Hw; [done|].
      apply (IH (step w e)). by apply presets_step_requests. }
    apply H. constructor.
  - intros w H. cbn [step]. unfold handleAdd.
    destruct H as [H|H]; apply trim_blank_iff, truthy_false in H; rewrite H; simpl; [done|].
    by rewrite orb_true_r.
Qed.

(** A label made of a no-break space is not posted; a label and a
    prompt with Unicode white space around them are posted without. *)
Example presets_no_break_space :
  requests (run initial [SetNewLabel (JS.utf8 0xA0); SetNewPrompt "Review this"; HandleAdd])
    = []
  ∧ requests (run initial [SetNewLabel (JS.utf8 0xFEFF +:+ "Review" +:+ JS.utf8 0xA0);
                           SetNewPrompt (JS.utf8 0x3000 +:+ "Review this ");
                           HandleAdd])
    = [POST "Review" "Review this"].
Proof. split; reflexivity. Qed.

End PresetFacts.

(** *** The file browser *)

Section FileBrowserFacts.
Import FileBrowser.

Lemma toggle_in (path : string) (prev : gset string) :
  path ∈ prev → prev ∖ {[path]} ∪ {[path]} = prev.
Proof.
  intros Hin. apply set_eq. intros x.
  rewrite elem_of_union, elem_of_difference, elem_of_singleton.
  destruct (decide (x = path)) as [->|]; tauto.
Qed.

Lemma toggle_out (path : string) (prev : gset string) :
  path ∉ prev → (prev ∪ {[path]}) ∖ {[path]} = prev.
Proof.
  intros Hout. apply set_eq. intros x.
  rewrite elem_of_difference, elem_of_union, elem_of_singleton.
  destruct (decide (x = path)) as [->|]; tauto.
Qed.

(** X17.  [toggleDir] flips one directory: the path is expanded after
    the call exactly when it was not before, no other path changes,
    and toggling twice gives the set back. *)
Theorem toggleDir_flips_one_directory (path : string) (prev : gset string) :
  toggleDir path (toggleDir path prev) = prev
  ∧ (path ∈ toggleDir path prev ↔ path ∉ prev)
  ∧ (∀ other, other ≠ path → (other ∈ toggleDir path prev ↔ other ∈ prev)).
Proof.
  unfold toggleDir. destruct (decide (path ∈ prev)) as [Hin|Hout].
  - rewrite (bool_decide_eq_true_2 _ Hin).
    assert (Hgone : path ∉ prev ∖ {[path]}).
    { rewrite elem_of_difference, elem_of_singleton. intros [_ H]. by apply H. }
    rewrite (bool_decide_eq_false_2 _ Hgone).
    split; [by apply toggle_in|]. split; [tauto|].
    intros other Hne. rewrite elem_of_difference, elem_of_singleton. tauto.
  - rewrite (bool_decide_eq_false_2 _ Hout).
    assert (Hthere : path ∈ prev ∪ {[path]}).
    { rewrite elem_of_union, elem_of_singleton. by right. }
    rewrite (bool_decide_eq_true_2 _ Hthere).
    split; [by apply toggle_out|]. split; [tauto|].
    intros other Hne. rewrite elem_of_union, elem_of_singleton. tauto.
Qed.

Lemma flat_map_sublist {A B : Type} (f g : A → list B) (l : list A) :
  Forall (λ x, sublist (f x) (g x)) l → sublist (flat_map f l) (flat_map g l).
Proof.
  induction 1 as [|x l Hx _ IH]; simpl; [done|]. by apply sublist_app.
Qed.

Lemma TreeNode_paths_mono (s s' : gset string) (sel sel' : option string) :
  s ⊆ s' →
  ∀ item depth,
    sublist (row_path <$> TreeNode s sel depth item)
            (row_path <$> TreeNode s' sel' depth item).
Proof.
  intros Hsub. fix IH 1. intros [name path is_dir size children] depth.
  cbn [TreeNode]. rewrite !fmap_cons. cbn [row_path].
  apply sublist_skip.
  destruct (is_dir && bool_decide (path ∈ s)) eqn:E; [|apply sublist_nil_l].
  apply andb_prop in E as [-> E]. apply bool_decide_eq_true in E.
  rewrite (bool_decide_eq_true_2 (path ∈ s')) by (by apply Hsub). cbn [andb].
  destruct children as [cs|]; [|done].
  induction cs as [|c cs IHcs]; [done|].
  cbn [flat_map]. rewrite !fmap_app. apply sublist_app; [apply IH|apply IHcs].
Qed.

(** X18.  Lines of the file tree.  Expanding more directories never
    hides a line; an item whose path is not expanded, and any file,
    takes one line; an expanded directory takes its line and then the
    lines of its children, one level deeper. *)
Theorem tree_rows (expandedDirs : gset string) (selectedPath : option string)
    (tree : list TreeItem) :
  (∀ more, sublist (row_path <$> treePanel expandedDirs selectedPath tree)
                   (row_path <$> treePanel (expandedDirs ∪ more) selectedPath tree))
  ∧ (∀ item depth,
       item_path item ∉ expandedDirs →
       length (TreeNode expandedDirs selectedPath depth item) = 1)
  ∧ (∀ name path size cs depth,
       path ∈ expandedDirs →
       TreeNode expandedDirs selectedPath depth (Entry name path true size (Some cs)) =
         {| row_path := path; row_name := name; row_is_dir := true;
            paddingLeft := depth * 16 + 8; isExpanded := true;
            isSelected := bool_decide (selectedPath = Some path) |}
         :: flat_map (TreeNode expandedDirs selectedPath (depth + 1)) cs)
  ∧ (∀ name path size children depth,
       length (TreeNode expandedDirs selectedPath depth
                 (Entry name path false size children)) = 1).
Proof.
  split; [|split; [|split]].
  - intros more. unfold treePanel.
    induction tree as [|item tree IH]; [done|].
    cbn [flat_map]. rewrite !fmap_app. apply sublist_app; [|done].
    apply TreeNode_paths_mono. apply union_subseteq_l.
  - intros [name path is_dir size children] depth Hout. cbn [item_path] in Hout.
    cbn [TreeNode]. rewrite (bool_decide_eq_false_2 _ Hout). by rewrite andb_false_r.
  - intros name path size cs depth Hin. cbn [TreeNode].
    by rewrite (bool_decide_eq_true_2 _ Hin).
  - done.
Qed.

Lemma tenths_bounds (num den : N) :
  (0 < den)%N →
  (2 * den * tenths num den ≤ 20 * num + den)%N
  ∧ (20 * num + den < 2 * den * tenths num den + 2 * den)%N.
Proof.
  intros Hden. unfold tenths.
  assert (Hnz : (2 * den)%N ≠ 0%N) by lia.
  pose proof (N.div_mod (20 * num + den) (2 * den) Hnz) as Hd.
  pose proof (N.mod_upper_bound (20 * num + den) (2 * den) Hnz) as Hm.
  set (q := ((20 * num + den) / (2 * den))%N) in *.
  set (r := ((20 * num + den) mod (2 * den))%N) in *.
  clearbody q r. nia.
Qed.

(** X19.  [formatSize] on a whole number of bytes: below 1024 the
    count itself in B; from 1024 up to one byte short of 1024 * 1024
    the size in KB with one decimal, within a twentieth of a KB of the
    true value, which reads 1024.0 KB from 1048525 bytes on; from
    there (below 2^53) the size in MB with one decimal, within a
    twentieth of a MB. *)
Theorem formatSize_units (bytes : N) :
  ((bytes < 1024)%N → formatSize bytes = pretty bytes +:+ " B")
  ∧ ((1024 ≤ bytes)%N → (bytes < 1024 * 1024)%N →
     ∃ n, formatSize bytes = fixed1 n +:+ " KB"
          ∧ (10 ≤ n)%N ∧ (n ≤ 10240)%N
          ∧ (1024 * n ≤ 10 * bytes + 512)%N
          ∧ (10 * bytes + 512 < 1024 * n + 1024)%N
          ∧ (n = 10240%N ↔ (1048525 ≤ bytes)%N))
  ∧ ((1024 * 1024 ≤ bytes)%N → (bytes < 2 ^ 53)%N →
     ∃ n, formatSize bytes = fixed1 n +:+ " MB"
          ∧ (10 ≤ n)%N
          ∧ (1048576 * n ≤ 10 * bytes + 524288)%N
          ∧ (10 * bytes + 524288 < 1048576 * n + 1048576)%N).
Proof.
  unfold formatSize. split; [|split].
  - intros H. apply N.ltb_lt in H. by rewrite H.
  - intros H1 H2.
    replace (bytes <? 1024)%N with false by (symmetry; apply N.ltb_ge; lia).
    apply N.ltb_lt in H2 as H2'. rewrite H2'.
    pose proof (tenths_bounds bytes 1024 ltac:(lia)) as Hb.
    exists (tenths bytes 1024). split; [done|]. lia.
  - intros H _.
    replace (bytes <? 1024)%N with false by (symmetry; apply N.ltb_ge; lia).
    replace (bytes <? 1024 * 1024)%N with false by (symmetry; apply N.ltb_ge; lia).
    pose proof (tenths_bounds bytes (1024 * 1024) ltac:(lia)) as Hb.
    exists (tenths bytes (1024 * 1024)). split; [done|]. lia.
Qed.

End FileBrowserFacts.
